(** * agent-template-go: the Go agent of examples/claude_agent.go

    A shallow embedding of the agent's cost accounting, result interpreter,
    orchestrator and HTTP surface, and the properties of the specification
    that were checked against it.

    Conventions.
    - Go's [int] is the 64-bit signed integer of the amd64 build the
      Dockerfile produces; it is modelled as [Z] and the range is stated
      where it matters.
    - Go's [float64] is IEEE 754 binary64: the Standard Library's
      [SpecFloat] operations at precision 53 and [emax] 1024.
    - Go strings and byte slices are [string]s (sequences of 8-bit
      characters).
    - Library calls that can fail return a sum; operations that can panic
      (slice indexing, map type assertions) return an [option]. *)

From stdpp Require Import base option list strings gmap pretty.
From Stdlib Require Import ZArith QArith Qround Qpower Lia Lqa Ascii Floats.SpecFloat.

Local Open Scope Z_scope.

(* ===================================================================== *)
(** * Part I: the program                                                  *)
(* ===================================================================== *)

(** ** float64 *)

Module Float64.

Definition prec : Z := 53.
Definition emax : Z := 1024.

Definition float64 := spec_float.

Definition add : float64 -> float64 -> float64 := SFadd prec emax.
Definition mul : float64 -> float64 -> float64 := SFmul prec emax.
Definition div : float64 -> float64 -> float64 := SFdiv prec emax.
Definition leb : float64 -> float64 -> bool := SFleb.

(** The conversion [float64(n)] of an integer: round to nearest, ties to
    even. *)
Definition of_int (n : Z) : float64 := binary_normalize prec emax n 0 false.

Definition min_int64 : Z := - 2 ^ 63.
Definition max_int64 : Z := 2 ^ 63 - 1.

(** The conversion [int(f)]: the fraction is discarded.  A value that
    does not fit (or a NaN) gives the "integer indefinite" value of the
    amd64 conversion instruction. *)
Definition to_int (f : float64) : Z :=
  match f with
  | S754_zero _ => 0
  | S754_finite s m e =>
      let a := Z.shiftl (Z.pos m) e in
      let v := if s then - a else a in
      if (min_int64 <=? v) && (v <=? max_int64) then v else min_int64
  | S754_infinity _ | S754_nan => min_int64
  end.

(** The rational a float denotes (0 for the non-finite ones). *)
Definition pow2 (e : Z) : Q := (2 ^ e)%Q.

Definition to_Q (f : float64) : Q :=
  match f with
  | S754_finite s m e =>
      ((if s then inject_Z (Z.neg m) else inject_Z (Z.pos m)) * pow2 e)%Q
  | _ => 0%Q
  end.

Definition is_finite (f : float64) : bool :=
  match f with
  | S754_zero _ | S754_finite _ _ _ => true
  | _ => false
  end.

End Float64.

Import Float64.

(** ** The Claude API client: pricing *)

Record ClaudeClient := {
  apiKey : string;
  model : string;
  inputCostPerToken : float64;
  outputCostPerToken : float64
}.

(** [NewClaudeClient]; the argument is the value of the environment
    variable ANTHROPIC_API_KEY (empty when unset).  The constants
    [3.0 / 1_000_000] and [15.0 / 1_000_000] are exact constant
    expressions converted to float64, that is, the correctly rounded
    quotients. *)
Definition NewClaudeClient (env_api_key : string) : string + ClaudeClient :=
  if decide (env_api_key = "") then
    inl "ANTHROPIC_API_KEY environment variable is required"
  else
    inr {| apiKey := env_api_key;
           model := "claude-sonnet-4-5-20250929";
           inputCostPerToken := div (of_int 3) (of_int 1000000);
           outputCostPerToken := div (of_int 15) (of_int 1000000) |}.

Definition CalculateCost (c : ClaudeClient) (inputTokens outputTokens : Z)
  : float64 :=
  let inputCost := mul (of_int inputTokens) (inputCostPerToken c) in
  let outputCost := mul (of_int outputTokens) (outputCostPerToken c) in
  div (of_int (to_int (mul (add inputCost outputCost) (of_int 10000))))
      (of_int 10000).

(** The client every running agent holds (the key itself plays no part in
    the pricing). *)
Definition client_of (key : string) : ClaudeClient :=
  {| apiKey := key;
     model := "claude-sonnet-4-5-20250929";
     inputCostPerToken := div (of_int 3) (of_int 1000000);
     outputCostPerToken := div (of_int 15) (of_int 1000000) |}.

(** The specification's formula, in exact arithmetic: the cost
    [inputTokens * 3/10^6 + outputTokens * 15/10^6] with everything after
    the fourth decimal place dropped. *)
Definition exact_cost (inputTokens outputTokens : Z) : Q :=
  (inject_Z inputTokens * (3 # 1000000)
   + inject_Z outputTokens * (15 # 1000000))%Q.

Definition truncate4 (q : Q) : Q :=
  (inject_Z (Qfloor (q * 10000)) / 10000)%Q.

Definition calculateCost_spec (inputTokens outputTokens : Z) : Q :=
  truncate4 (exact_cost inputTokens outputTokens).

(** ** Rounding to binary64, as the properties of the cost speak of it *)

(** The record a right shift works on, for the exact value [N / K] (in
    units of the current exponent). *)
Definition ideal (N K : Z) : shr_record :=
  {| shr_m := N / K;
     shr_r := K <=? 2 * (N mod K);
     shr_s := negb (N mod K =? 0) && negb (2 * (N mod K) =? K) |}.

(** [N / K] rounded to the nearest integer, ties to even. *)
Definition rne (N K : Z) : Z :=
  match 2 * (N mod K) ?= K with
  | Lt => N / K
  | Eq => if Z.even (N / K) then N / K else N / K + 1
  | Gt => N / K + 1
  end.

(** Rounding in the rationals. *)
Definition rneQ (x : Q) : Z := rne (Qnum x) (Z.pos (Qden x)).

(** What [binary_round_aux] returns for the rounded mantissa [m1] at the
    exponent [c]. *)
Definition round_result (m1 c : Z) : float64 :=
  match m1 with
  | Z0 => S754_zero false
  | Zpos p =>
      if m1 =? 2 ^ 53 then S754_finite false (2 ^ 52) (c + 1)
      else S754_finite false p c
  | Zneg _ => S754_nan
  end.

(** Non-negative finite floats that are valid binary64 numbers. *)
Definition valid_nonneg (f : float64) : Prop :=
  match f with
  | S754_zero false => True
  | S754_finite false m e => bounded prec emax m e = true
  | _ => False
  end.

(** The exponent of the last place of a number in [[2^(k-1), 2^k)]. *)
Definition cexp (k : Z) : Z := Z.max (k - 53) (-1074).

(** [f] is the binary64 number to which the non-negative rational [x]
    rounds (to nearest, ties to even). *)
Definition rounds_to (x : Q) (f : float64) : Prop :=
  valid_nonneg f /\
  ((x == 0 /\ to_Q f == 0)%Q \/
   exists k, (pow2 (k - 1) <= x < pow2 k)%Q /\
             (to_Q f == inject_Z (rneQ (x / pow2 (cexp k))) * pow2 (cexp k))%Q).

Definition price_in : float64 := S754_finite false 7083549724304468 (-71).
Definition price_out : float64 := S754_finite false 8854437155380585 (-69).
Definition ten_thousand : float64 := S754_finite false 5497558138880000 (-39).

(** The steps of [CalculateCost]. *)
Definition scaled_cost (a b : Z) : float64 :=
  mul (add (mul (of_int a) price_in) (mul (of_int b) price_out)) ten_thousand.

(** ** Byte slices (package bytes) *)

Abbreviation bytes := (list ascii).

(** The conversions [[]byte(s)] and [string(b)]. *)
Definition bytes_of_string : string -> bytes := String.list_ascii_of_string.
Definition string_of_bytes : bytes -> string := String.string_of_list_ascii.

Module Bytes.

Fixpoint HasPrefix (s prefix : bytes) {struct prefix} : bool :=
  match prefix, s with
  | [], _ => true
  | _ :: _, [] => false
  | c :: prefix', d :: s' => bool_decide (c = d) && HasPrefix s' prefix'
  end.

(** [Index s sep]: the offset of the first instance of [sep] in [s];
    [None] stands for Go's -1. *)
Fixpoint Index (s sep : bytes) : option nat :=
  if HasPrefix s sep then Some 0%nat
  else match s with
       | [] => None
       | _ :: s' => S <$> Index s' sep
       end.

Definition Contains (b subslice : bytes) : bool :=
  match Index b subslice with Some _ => true | None => false end.

(** [Cut s sep]: [s] around the first instance of [sep]. *)
Definition Cut (s sep : bytes) : option (bytes * bytes) :=
  match Index s sep with
  | Some m => Some (take m s, drop (m + length sep) s)
  | None => None
  end.

(** The loop of [genSplit] for a non-empty separator: cut at the first
    instance of [sep], continue after it.  The loop runs once per instance,
    so at most [len(s)] times. *)
Fixpoint genSplit (n : nat) (s sep : bytes) : list bytes :=
  match n with
  | O => [s]
  | S n' =>
      match Index s sep with
      | None => [s]
      | Some m => take m s :: genSplit n' (drop (m + length sep) s) sep
      end
  end.

(** [Split s sep] for a non-empty [sep] (an empty separator explodes [s]
    into UTF-8 sequences, which this program never asks for). *)
Definition Split (s sep : bytes) : list bytes := genSplit (length s) s sep.

(** White space as [unicode.IsSpace] has it: the six ASCII characters, and
    the UTF-8 encodings of U+0085, U+00A0, U+1680, U+2000..U+200A, U+2028,
    U+2029, U+202F, U+205F and U+3000. *)
Definition asciiSpaces : list bytes :=
  [ ["009"]; ["010"]; ["011"]; ["012"]; ["013"]; [" "] ]%char.

Definition unicodeSpaces : list bytes :=
  ([ ["194"; "133"]; ["194"; "160"]; ["225"; "154"; "128"] ]
   ++ ((fun k => ["226"; "128"; ascii_of_nat (128 + k)]) <$> seq 0 11)
   ++ [ ["226"; "128"; "168"]; ["226"; "128"; "169"]; ["226"; "128"; "175"];
        ["226"; "129"; "159"]; ["227"; "128"; "128"] ])%char.

Definition spaces : list bytes := asciiSpaces ++ unicodeSpaces.

(** [s] without one leading token of [tokens], when it starts with one. *)
Fixpoint strip_one (tokens : list bytes) (s : bytes) : option bytes :=
  match tokens with
  | [] => None
  | t :: tokens' =>
      if HasPrefix s t then Some (drop (length t) s) else strip_one tokens' s
  end.

Fixpoint trimLeft (n : nat) (tokens : list bytes) (s : bytes) : bytes :=
  match n with
  | O => s
  | S n' =>
      match strip_one tokens s with
      | Some s' => trimLeft n' tokens s'
      | None => s
      end
  end.

(** [TrimSpace s]: [s] without its leading and trailing white space. *)
Definition TrimSpace (s : bytes) : bytes :=
  let s1 := trimLeft (length s) spaces s in
  reverse (trimLeft (length s1) (reverse <$> spaces) (reverse s1)).

End Bytes.

(** ** Dynamic values *)

(** The values behind Go's [interface{}] that this program builds or
    decodes; [AMapAny None] is the nil map. *)
#[warnings="-register-all"]
Inductive any :=
  | ANil
  | ABool (b : bool)
  | AFloat64 (f : float64)
  | AInt64 (z : Z)
  | AString (s : string)
  | ASlice (l : list any)
  | AMapAny (m : option (gmap string any))
  | AMapString (m : gmap string string)
  | AMapInt (m : gmap string Z).

(** ** The result interpreter *)

Definition fence_json : bytes := bytes_of_string "```json".
Definition fence : bytes := bytes_of_string "```".

(** The first half of [parseResult]: the text handed to the JSON decoder.
    Indexing a slice out of range panics: [None]. *)
Definition cleanText (text : string) : option string :=
  if Bytes.Contains (bytes_of_string text) fence_json then
    let parts := Bytes.Split (bytes_of_string text) fence_json in
    if decide (1 < length parts)%nat then
      parts1 ← parts !! 1%nat;
      let parts2 := Bytes.Split parts1 fence in
      if decide (0 < length parts2)%nat then
        parts2_0 ← parts2 !! 0%nat;
        Some (string_of_bytes (Bytes.TrimSpace parts2_0))
      else Some text
    else Some text
  else if Bytes.Contains (bytes_of_string text) fence then
    let parts := Bytes.Split (bytes_of_string text) fence in
    if decide (2 < length parts)%nat then
      parts1 ← parts !! 1%nat;
      Some (string_of_bytes (Bytes.TrimSpace parts1))
    else Some text
  else Some text.

(** What the code's slicing amounts to, in terms of [Bytes.Cut]:
    [before sep s] is [s] up to its first [sep], all of [s] without one. *)
Definition before (sep s : bytes) : bytes :=
  match Bytes.Cut s sep with
  | Some (a, _) => a
  | None => s
  end.

Definition trimmed (b : bytes) : string := string_of_bytes (Bytes.TrimSpace b).

Definition attempted (text : string) : string :=
  let s := bytes_of_string text in
  match Bytes.Cut s fence_json with
  | Some (_, rest) => trimmed (before fence (before fence_json rest))
  | None =>
      match Bytes.Cut s fence with
      | Some (_, rest) =>
          match Bytes.Cut rest fence with
          | Some (mid, _) => trimmed mid
          | None => text
          end
      | None => text
      end
  end.

(** The specification's reading of the same step: the content of the
    first fenced block marked as JSON (from the first [```json] marker to
    its closing fence), else the content of the first fenced block, else
    the text itself. *)
Definition fenced_content (marker s : bytes) : option bytes :=
  '(_, rest) ← Bytes.Cut s marker;
  '(mid, _) ← Bytes.Cut rest fence;
  Some mid.

Definition attempted_spec (text : string) : string :=
  let s := bytes_of_string text in
  match fenced_content fence_json s with
  | Some c => string_of_bytes c
  | None =>
      match fenced_content fence s with
      | Some c => string_of_bytes c
      | None => text
      end
  end.

Section Interpreter.

(** [json.Unmarshal] into a [map[string]interface{}] that starts nil: an
    error, or the map it leaves (still nil for the JSON text [null]). *)
Variable json_Unmarshal_map : string -> string + option (gmap string any).

Definition parseResult (text : string) : option any :=
  cleanText ← cleanText text;
  match json_Unmarshal_map cleanText with
  | inr jsonResult => Some (AMapAny jsonResult)
  | inl _ => Some (AMapString {[ "text" := text ]})
  end.

End Interpreter.

(** ** Request and response models (the agent protocol contract) *)

Record AgentInput := {
  Prompt : string;
  Context : option (gmap string any)
}.

Record AgentMetadata := {
  RequestID : string;
  UserID : string;
  Timeout : Z
}.

Record ExecuteRequest := {
  Input : AgentInput;
  Metadata : AgentMetadata
}.

Record TokenUsage := {
  TokenUsage_Input : Z;
  TokenUsage_Output : Z
}.

Record ResultMetadata := {
  Cost : float64;
  Duration : Z;
  Model : string;
  TokensUsed : option TokenUsage
}.

Record ExecuteResponse := {
  Result : any;
  ExecuteResponse_Metadata : ResultMetadata;
  Error : option string
}.

Record InfoResponse := {
  ID : string;
  InfoResponse_Name : string;
  Description : string;
  InfoResponse_Version : string;
  Capabilities : list string;
  Pricing : gmap string any
}.

Record HealthResponse := {
  HealthResponse_Status : string;
  Timestamp : float64
}.

Record RootResponse := {
  Name : string;
  Version : string;
  Status : string
}.

Record ClaudeMessage := {
  Role : string;
  Content : string
}.

Record ClaudeRequest := {
  ClaudeRequest_Model : string;
  MaxTokens : Z;
  System : string;
  Messages : list ClaudeMessage
}.

Record ClaudeContent := {
  ClaudeContent_Type : string;
  Text : string
}.

Record ClaudeUsage := {
  InputTokens : Z;
  OutputTokens : Z
}.

Record ClaudeResponse := {
  ClaudeResponse_ID : string;
  ClaudeResponse_Type : string;
  ClaudeResponse_Role : string;
  ClaudeResponse_Content : list ClaudeContent;
  ClaudeResponse_Model : string;
  Usage : ClaudeUsage
}.

(** ** JSON documents and the encoder *)

#[warnings="-register-all"]
Inductive json :=
  | JNull
  | JBool (b : bool)
  | JNumber (f : float64)
  | JInteger (z : Z)
  | JString (s : string)
  | JArray (l : list json)
  | JObject (m : gmap string json).

(** A float64 is encoded unless it is a NaN or an infinity, which the
    encoder refuses. *)
Definition marshal_float64 (f : float64) : option json :=
  if is_finite f then Some (JNumber f) else None.

Definition all_some {A} (m : gmap string (option A)) : option (gmap string A) :=
  if bool_decide (map_Forall (fun _ v => is_Some v) m) then Some (omap id m)
  else None.

Fixpoint marshal_any (a : any) : option json :=
  match a with
  | ANil => Some JNull
  | ABool b => Some (JBool b)
  | AFloat64 f => marshal_float64 f
  | AInt64 z => Some (JInteger z)
  | AString s => Some (JString s)
  | ASlice l => JArray <$> mapM marshal_any l
  | AMapAny None => Some JNull
  | AMapAny (Some m) => JObject <$> all_some (marshal_any <$> m)
  | AMapString m => Some (JObject (JString <$> m))
  | AMapInt m => Some (JObject (JInteger <$> m))
  end.

(** Struct fields in declaration order; an [omitempty] field is left out
    when it is empty. *)
Definition object (fields : list (option (string * json))) : json :=
  JObject (list_to_map (omap id fields)).

Definition field (name : string) (v : json) : option (string * json) :=
  Some (name, v).

Definition marshal_TokenUsage (t : TokenUsage) : json :=
  object [ field "input" (JInteger (TokenUsage_Input t));
           field "output" (JInteger (TokenUsage_Output t)) ].

Definition marshal_ResultMetadata (m : ResultMetadata) : option json :=
  cost ← marshal_float64 (Cost m);
  Some (object
    [ field "cost" cost;
      field "duration" (JInteger (Duration m));
      (if decide (Model m = "") then None else field "model" (JString (Model m)));
      (t ← TokensUsed m; field "tokensUsed" (marshal_TokenUsage t)) ]).

Definition marshal_ExecuteResponse (r : ExecuteResponse) : option json :=
  result ← marshal_any (Result r);
  metadata ← marshal_ResultMetadata (ExecuteResponse_Metadata r);
  Some (object
    [ field "result" result;
      field "metadata" metadata;
      (e ← Error r; field "error" (JString e)) ]).

Definition marshal_RootResponse (r : RootResponse) : option json :=
  Some (object
    [ field "name" (JString (Name r));
      field "version" (JString (Version r));
      field "status" (JString (Status r)) ]).

Definition marshal_HealthResponse (r : HealthResponse) : option json :=
  timestamp ← marshal_float64 (Timestamp r);
  Some (object
    [ field "status" (JString (HealthResponse_Status r));
      field "timestamp" timestamp ]).

Definition marshal_InfoResponse (r : InfoResponse) : option json :=
  pricing ← marshal_any (AMapAny (Some (Pricing r)));
  Some (object
    [ field "id" (JString (ID r));
      field "name" (JString (InfoResponse_Name r));
      field "description" (JString (Description r));
      field "version" (JString (InfoResponse_Version r));
      field "capabilities" (JArray (JString <$> Capabilities r));
      field "pricing" pricing ]).

(** ** Effects: a state monad in which a panic ends the computation *)

Definition SM (S A : Type) : Type := S -> option (A * S).

#[global] Instance SM_ret {S} : MRet (SM S) := fun A a s => Some (a, s).

#[global] Instance SM_bind {S} : MBind (SM S) := fun A B f m s =>
  match m s with
  | Some (a, s') => f a s'
  | None => None
  end.

Definition panic {S A} : SM S A := fun _ => None.

(** A map lookup followed by a type assertion panics when the assertion
    fails. *)
Definition assert {S A} (o : option A) : SM S A :=
  match o with
  | Some a => mret a
  | None => panic
  end.

(** ** net/http: requests, response writers *)

Definition LF : string := String "010" EmptyString.

Record Request := {
  Method : string;
  RequestURI : string;
  Proto11 : bool;
  Host : string;
  URL_Host : string;
  URL_Path : string;
  URL_RawQuery : string;
  Body : string
}.

(** What a handler writes: lines of the JSON encoder, or plain text. *)
Inductive chunk :=
  | Encoded (j : json)
  | Plain (s : string).

Record ResponseWriter := {
  header : gmap string string;
  wroteHeader : option (Z * gmap string string);
  written : list chunk
}.

Definition newResponseWriter : ResponseWriter :=
  {| header := ∅; wroteHeader := None; written := [] |}.

(** A response: the status and the header as they were when the header
    was written (200 when the handler never wrote one), and the body.  Of
    the header it has the entries the handler set; the entries the server
    adds of its own (Date, Content-Length) are not part of it. *)
Record Response := {
  StatusCode : Z;
  Header : gmap string string;
  ResponseBody : list chunk
}.

Definition finish (w : ResponseWriter) : Response :=
  match wroteHeader w with
  | Some (code, h) =>
      {| StatusCode := code; Header := h; ResponseBody := written w |}
  | None =>
      {| StatusCode := 200; Header := header w; ResponseBody := written w |}
  end.

(** What the server sends of the response a handler wrote: a [HEAD]
    request gets the status and the header, and none of the body. *)
Definition sent (r : Request) (resp : Response) : Response :=
  if decide (Method r = "HEAD") then
    {| StatusCode := StatusCode resp; Header := Header resp;
       ResponseBody := [] |}
  else resp.

(** ** net/textproto: canonical header keys *)

Definition byte_in (lo hi c : ascii) : bool :=
  (N_of_ascii lo <=? N_of_ascii c)%N && (N_of_ascii c <=? N_of_ascii hi)%N.

(** [validHeaderFieldByte]: the characters of a token. *)
Definition validHeaderFieldByte (c : ascii) : bool :=
  byte_in "0" "9" c || byte_in "a" "z" c || byte_in "A" "Z" c
  || bool_decide (c ∈ [ "!"; "#"; "$"; "%"; "&"; "'"; "*"; "+"; "-"; ".";
                        "^"; "_"; "`"; "|"; "~" ]%char).

Definition toLower : N := 32.

(** The second loop of [canonicalMIMEHeaderKey]: upper case for the first
    letter and after each dash, lower case elsewhere. *)
Fixpoint canonical_loop (upper : bool) (a : bytes) : bytes :=
  match a with
  | [] => []
  | c :: a' =>
      let c :=
        if upper && byte_in "a" "z" c then ascii_of_N (N_of_ascii c - toLower)
        else if negb upper && byte_in "A" "Z" c
             then ascii_of_N (N_of_ascii c + toLower)
             else c in
      c :: canonical_loop (bool_decide (c = "-"%char)) a'
  end.

(** [canonicalMIMEHeaderKey]: a key with a byte that is neither a token
    character nor a space is returned as it is, and so is ([noCanon]) a key
    with a space. *)
Definition canonicalMIMEHeaderKey (a : bytes) : bytes :=
  if forallb (fun c => validHeaderFieldByte c || bool_decide (c = " "%char)) a
  then
    if existsb (fun c => negb (validHeaderFieldByte c)) a then a
    else canonical_loop true a
  else a.

(** The loop of [CanonicalMIMEHeaderKey] over the key [s]: it returns [s]
    at a byte that is no token character and at the end, and canonicalises
    at the first letter in the wrong case. *)
Fixpoint canonical_scan (s : bytes) (upper : bool) (rest : bytes) : bytes :=
  match rest with
  | [] => s
  | c :: rest' =>
      if negb (validHeaderFieldByte c) then s
      else if upper && byte_in "a" "z" c then canonicalMIMEHeaderKey s
      else if negb upper && byte_in "A" "Z" c then canonicalMIMEHeaderKey s
      else canonical_scan s (bool_decide (c = "-"%char)) rest'
  end.

Definition CanonicalMIMEHeaderKey (s : string) : string :=
  string_of_bytes (canonical_scan (bytes_of_string s) true (bytes_of_string s)).

Definition StatusOK : Z := 200.
Definition StatusMovedPermanently : Z := 301.
Definition StatusBadRequest : Z := 400.
Definition StatusNotFound : Z := 404.
Definition StatusMethodNotAllowed : Z := 405.
Definition StatusInternalServerError : Z := 500.
Definition MethodPost : string := "POST".

Section Server.

(** The world outside the process: the clock, the network, the runtime's
    choice of a map iteration order. *)
Variable World : Type.

Record Time := {
  unix : Z;
  monotonic_ns : Z
}.

Variable time_Now : World -> Time * World.

Record OutRequest := {
  out_Method : string;
  out_URL : string;
  out_Header : gmap string string;
  out_Body : string
}.

(** What [client.Do] and [io.ReadAll] give: a transport error, or a status
    with the body (or the error of reading it). *)
Record RawResponse := {
  raw_StatusCode : Z;
  raw_Body : string + string
}.

(** [http.Client{Timeout: t}.Do(req)], [t] in seconds. *)
Variable http_Do : Z -> OutRequest -> World -> (string + RawResponse) * World.

(** The order in which a [range] loop visits a map. *)
Variable map_range : gmap string any -> World -> list (string * any) * World.

(** Pure library functions: the JSON decoders and encoder, and the [%v]
    verb of [fmt]. *)
Variable json_Decode_ExecuteRequest : string -> string + ExecuteRequest.
Variable json_Marshal_ClaudeRequest : ClaudeRequest -> string + string.
Variable json_Unmarshal_ClaudeResponse : string -> string + ClaudeResponse.
Variable json_Unmarshal_map : string -> string + option (gmap string any).
Variable fmt_v : any -> string.

(** The process state a handler runs in. *)
Record St := {
  st_w : ResponseWriter;
  st_world : World
}.

Definition in_world {A} (f : World -> A * World) : SM World A :=
  fun w => Some (f w).

Definition lift {A} (m : SM World A) : SM St A := fun st =>
  match m (st_world st) with
  | Some (a, w') => Some (a, {| st_w := st_w st; st_world := w' |})
  | None => None
  end.

Definition on_writer (f : ResponseWriter -> ResponseWriter) : SM St unit :=
  fun st => Some (tt, {| st_w := f (st_w st); st_world := st_world st |}).

(** [w.Header().Set(key, value)]: the key is canonicalised. *)
Definition Header_Set (key value : string) : SM St unit :=
  on_writer (fun w =>
    {| header := <[CanonicalMIMEHeaderKey key := value]> (header w);
       wroteHeader := wroteHeader w;
       written := written w |}).

(** [w.WriteHeader(code)]: the first call fixes the status and the header. *)
Definition writeHeader (code : Z) (w : ResponseWriter) : ResponseWriter :=
  match wroteHeader w with
  | Some _ => w
  | None =>
      {| header := header w;
         wroteHeader := Some (code, header w);
         written := written w |}
  end.

Definition WriteHeader (code : Z) : SM St unit := on_writer (writeHeader code).

(** [w.Write(data)]: writes the header with status 200 first when it was
    not written yet. *)
Definition Write (c : chunk) : SM St unit :=
  on_writer (fun w =>
    let w := writeHeader StatusOK w in
    {| header := header w;
       wroteHeader := wroteHeader w;
       written := written w ++ [c] |}).

(** [json.NewEncoder(w).Encode(v)], given the encoding of [v]: one write of
    the whole document, or no write at all when [v] cannot be encoded. *)
Definition Encode (j : option json) : SM St unit :=
  match j with
  | Some j => Write (Encoded j)
  | None => mret tt
  end.

(** [http.Error(w, error, code)] *)
Definition http_Error (error : string) (code : Z) : SM St unit :=
  Header_Set "Content-Type" "text/plain; charset=utf-8";;
  Header_Set "X-Content-Type-Options" "nosniff";;
  WriteHeader code;;
  Write (Plain (error +:+ LF)).

(** ** The Claude API client: requests *)

(** [http.NewRequest]; it fails only for an invalid method or an URL that
    does not parse, which the constants it is called with here are not. *)
Definition http_NewRequest (method url body : string) : string + OutRequest :=
  inr {| out_Method := method; out_URL := url; out_Header := ∅;
         out_Body := body |}.

(** [req.Header.Set(key, value)]: the key is canonicalised. *)
Definition out_Header_Set (key value : string) (req : OutRequest) : OutRequest :=
  {| out_Method := out_Method req; out_URL := out_URL req;
     out_Header := <[CanonicalMIMEHeaderKey key := value]> (out_Header req);
     out_Body := out_Body req |}.

Definition CreateMessage (c : ClaudeClient) (system userMessage : string)
  : SM World (string + ClaudeResponse) :=
  let reqBody :=
    {| ClaudeRequest_Model := model c;
       MaxTokens := 4000;
       System := system;
       Messages := [ {| Role := "user"; Content := userMessage |} ] |} in
  match json_Marshal_ClaudeRequest reqBody with
  | inl err => mret (inl ("failed to marshal request: " +:+ err))
  | inr jsonData =>
  match http_NewRequest "POST" "https://api.anthropic.com/v1/messages" jsonData with
  | inl err => mret (inl ("failed to create request: " +:+ err))
  | inr req =>
  let req := out_Header_Set "Content-Type" "application/json" req in
  let req := out_Header_Set "x-api-key" (apiKey c) req in
  let req := out_Header_Set "anthropic-version" "2023-06-01" req in
  resp ← in_world (http_Do 60 req);
  match resp with
  | inl err => mret (inl ("failed to send request: " +:+ err))
  | inr resp =>
  match raw_Body resp with
  | inl err => mret (inl ("failed to read response: " +:+ err))
  | inr body =>
  if decide (raw_StatusCode resp <> StatusOK) then
    mret (inl ("Claude API error (" +:+ pretty (raw_StatusCode resp) +:+ "): "
               +:+ body))
  else
    match json_Unmarshal_ClaudeResponse body with
    | inl err => mret (inl ("failed to unmarshal response: " +:+ err))
    | inr claudeResp => mret (inr claudeResp)
    end
  end end end end.

(** ** The agent *)

Record GoAgent := {
  client : ClaudeClient
}.

Definition NewGoAgent (env_api_key : string) : string + GoAgent :=
  match NewClaudeClient env_api_key with
  | inl err => inl err
  | inr c => inr {| client := c |}
  end.

Definition DQ : string := String "034" EmptyString.

Definition buildSystemPrompt : string :=
  "You are a helpful AI assistant specialized in data analysis and insights.

Your task is to analyze the provided information and generate actionable insights.

Respond with valid JSON in this format:
{
  " +:+ DQ +:+ "analysis" +:+ DQ +:+ ": " +:+ DQ +:+ "Your detailed analysis" +:+ DQ +:+ ",
  " +:+ DQ +:+ "insights" +:+ DQ +:+ ": [" +:+ DQ +:+ "insight 1" +:+ DQ +:+ ", "
    +:+ DQ +:+ "insight 2" +:+ DQ +:+ ", " +:+ DQ +:+ "insight 3" +:+ DQ +:+ "],
  " +:+ DQ +:+ "recommendations" +:+ DQ +:+ ": [" +:+ DQ +:+ "recommendation 1" +:+ DQ
    +:+ ", " +:+ DQ +:+ "recommendation 2" +:+ DQ +:+ "]
}".

Definition buildUserMessage (prompt : string) (context : option (gmap string any))
  : SM World string :=
  let message := "User Query: " +:+ prompt +:+ LF +:+ LF in
  match context with
  | Some context =>
      if decide (0 < size context)%nat then
        let message := message +:+ "Additional Context:" +:+ LF in
        entries ← in_world (map_range context);
        mret (foldl (fun message '(key, value) =>
                       message +:+ "- " +:+ key +:+ ": " +:+ fmt_v value +:+ LF)
                    message entries)
      else mret message
  | None => mret message
  end.

Definition Execute (a : GoAgent) (prompt : string)
    (context : option (gmap string any))
  : SM World (string + gmap string any) :=
  startTime ← in_world time_Now;
  let systemPrompt := buildSystemPrompt in
  userMessage ← buildUserMessage prompt context;
  r ← CreateMessage (client a) systemPrompt userMessage;
  match r with
  | inl err => mret (inl ("Claude API call failed: " +:+ err))
  | inr response =>
      resultText ←
        (if decide (0 < length (ClaudeResponse_Content response))%nat then
           c ← assert (ClaudeResponse_Content response !! 0%nat); mret (Text c)
         else mret EmptyString);
      result ← assert (parseResult json_Unmarshal_map resultText);
      now ← in_world time_Now;
      let duration :=
        Z.quot (monotonic_ns now - monotonic_ns startTime) 1000000 in
      let cost :=
        CalculateCost (client a) (InputTokens (Usage response))
                      (OutputTokens (Usage response)) in
      mret (inr (list_to_map
        [ ("result", result);
          ("cost", AFloat64 cost);
          ("duration", AInt64 duration);
          ("model", AString (model (client a)));
          ("tokensUsed",
           AMapInt (list_to_map
             [ ("input", InputTokens (Usage response));
               ("output", OutputTokens (Usage response)) ])) ]))
  end.

(** ** HTTP handlers *)

(** The package variable [agent], set by [main] before the server starts. *)
Variable agent : GoAgent.

Definition rootHandler (r : Request) : SM St unit :=
  Header_Set "Content-Type" "application/json";;
  Encode (marshal_RootResponse
            {| Name := "Mindra Go Agent"; Version := "1.0.0";
               Status := "running" |}).

Definition healthHandler (r : Request) : SM St unit :=
  Header_Set "Content-Type" "application/json";;
  now ← lift (in_world time_Now);
  Encode (marshal_HealthResponse
            {| HealthResponse_Status := "healthy";
               Timestamp := of_int (unix now) |}).

Definition infoHandler (r : Request) : SM St unit :=
  Header_Set "Content-Type" "application/json";;
  Encode (marshal_InfoResponse
            {| ID := "agent-go-template";
               InfoResponse_Name := "Go Template Agent";
               Description := "Template for building Go-based agents";
               InfoResponse_Version := "1.0.0";
               Capabilities :=
                 [ "Data analysis"; "Insight generation"; "Custom processing" ];
               Pricing := list_to_map
                 [ ("estimatedCost", AFloat64 (div (of_int 45) (of_int 100)));
                   ("currency", AString "USD") ] |}).

Definition as_float64 (v : option any) : option float64 :=
  match v with Some (AFloat64 f) => Some f | _ => None end.
Definition as_int64 (v : option any) : option Z :=
  match v with Some (AInt64 z) => Some z | _ => None end.
Definition as_string (v : option any) : option string :=
  match v with Some (AString s) => Some s | _ => None end.
Definition as_map_int (v : option any) : option (gmap string Z) :=
  match v with Some (AMapInt m) => Some m | _ => None end.

Definition executeHandler (r : Request) : SM St unit :=
  if decide (Method r <> MethodPost) then
    http_Error "Method not allowed" StatusMethodNotAllowed
  else
  match json_Decode_ExecuteRequest (Body r) with
  | inl err =>
      http_Error ("Invalid request body: " +:+ err) StatusBadRequest
  | inr req =>
  res ← lift (Execute agent (Prompt (Input req)) (Context (Input req)));
  match res with
  | inl errMsg =>
      Header_Set "Content-Type" "application/json";;
      WriteHeader StatusInternalServerError;;
      Encode (marshal_ExecuteResponse
                {| Result := ANil;
                   ExecuteResponse_Metadata :=
                     {| Cost := S754_zero false; Duration := 0;
                        Model := EmptyString; TokensUsed := None |};
                   Error := Some errMsg |})
  | inr resultData =>
      tokensUsed ← assert (as_map_int (resultData !! "tokensUsed"));
      cost ← assert (as_float64 (resultData !! "cost"));
      duration ← assert (as_int64 (resultData !! "duration"));
      model ← assert (as_string (resultData !! "model"));
      let response :=
        {| Result := default ANil (resultData !! "result");
           ExecuteResponse_Metadata :=
             {| Cost := cost; Duration := duration; Model := model;
                TokensUsed := Some
                  {| TokenUsage_Input := default 0 (tokensUsed !! "input");
                     TokenUsage_Output := default 0 (tokensUsed !! "output") |} |};
           Error := None |} in
      Header_Set "Content-Type" "application/json";;
      Encode (marshal_ExecuteResponse response)
  end end.

(** ** net/http: the request multiplexer (Go 1.21) *)

Definition Handler : Type := Request -> SM St unit.

Record muxEntry := {
  h : Handler;
  pattern : string
}.

Record ServeMux := {
  m : gmap string muxEntry;
  es : list muxEntry;
  hosts : bool
}.

Definition first_byte (s : string) : option ascii := head (bytes_of_string s).
Definition last_byte (s : string) : option ascii := last (bytes_of_string s).
Definition strings_HasPrefix (s prefix : string) : bool :=
  Bytes.HasPrefix (bytes_of_string s) (bytes_of_string prefix).

(** [appendSorted]: the patterns that end in a slash, longest first. *)
Fixpoint appendSorted (es : list muxEntry) (e : muxEntry) : list muxEntry :=
  match es with
  | [] => [e]
  | e' :: es' =>
      if decide (String.length (pattern e') < String.length (pattern e))%nat
      then e :: es
      else e' :: appendSorted es' e
  end.

(** [mux.Handle(pattern, handler)]; an empty pattern and a second
    registration of a pattern panic. *)
Definition Handle (mux : ServeMux) (pat : string) (handler : Handler)
  : option ServeMux :=
  if decide (pat = EmptyString) then None
  else if decide (is_Some (m mux !! pat)) then None
  else
    let e := {| h := handler; pattern := pat |} in
    Some {| m := <[pat := e]> (m mux);
            es := if decide (last_byte pat = Some "/"%char)
                  then appendSorted (es mux) e else es mux;
            hosts := if decide (first_byte pat <> Some "/"%char)
                     then true else hosts mux |}.

(** [path.Clean] on a rooted path: empty and [.] elements go, a [..]
    element goes with the element before it (at the root, alone); the
    result ends in a slash only when it is the root. *)
Definition clean_step (stack : list bytes) (elem : bytes) : list bytes :=
  if decide (elem = []) then stack
  else if decide (elem = ["."%char]) then stack
  else if decide (elem = ["."%char; "."%char]) then removelast stack
  else stack ++ [elem].

Definition Clean_rooted (p : string) : string :=
  let stack := foldl clean_step [] (Bytes.Split (bytes_of_string p) ["/"%char]) in
  match stack with
  | [] => "/"
  | _ => string_of_bytes (concat ((fun e => "/"%char :: e) <$> stack))
  end.

(** [path.Clean] on a path that is not rooted: a [..] element goes with
    the element before it when that is a proper element, and stays when
    there is none or when it is a [..] itself; nothing left gives [.]. *)
Definition clean_step_relative (stack : list bytes) (elem : bytes)
  : list bytes :=
  if decide (elem = []) then stack
  else if decide (elem = ["."%char]) then stack
  else if decide (elem = ["."%char; "."%char]) then
    match last stack with
    | Some e =>
        if decide (e = ["."%char; "."%char]) then stack ++ [elem]
        else removelast stack
    | None => stack ++ [elem]
    end
  else stack ++ [elem].

Definition Clean_relative (p : string) : string :=
  let stack :=
    foldl clean_step_relative [] (Bytes.Split (bytes_of_string p) ["/"%char]) in
  match stack with
  | [] => "."
  | e :: stack =>
      string_of_bytes (e ++ concat ((fun e => "/"%char :: e) <$> stack))
  end.

(** [path.Clean] *)
Definition path_Clean (p : string) : string :=
  if decide (p = EmptyString) then "."
  else if decide (first_byte p = Some "/"%char) then Clean_rooted p
  else Clean_relative p.

Definition cleanPath (p : string) : string :=
  if decide (p = EmptyString) then "/"
  else
    let p := if decide (first_byte p <> Some "/"%char) then "/" +:+ p else p in
    let np := path_Clean p in
    if decide (last_byte p = Some "/"%char /\ np <> "/") then
      if bool_decide (String.length p = String.length np + 1)%nat
         && strings_HasPrefix p np
      then p
      else np +:+ "/"
    else np.

(** [mux.match]: an exact match first, else the longest pattern ending in
    a slash that is a prefix of the path. *)
Definition mux_match (mux : ServeMux) (path : string) : option muxEntry :=
  match m mux !! path with
  | Some v => Some v
  | None => head (filter (fun e => strings_HasPrefix path (pattern e)) (es mux))
  end.

Definition NotFoundHandler : Handler := fun _ =>
  http_Error "404 page not found" StatusNotFound.

(** ** net/url: the text of a URL *)

(** The two hexadecimal digits of a byte. *)
Definition hex (digits : string) (c : ascii) : bytes :=
  let d (n : N) := default "0"%char (bytes_of_string digits !! N.to_nat n) in
  [ d (N_of_ascii c / 16)%N; d (N_of_ascii c mod 16)%N ].

(** [shouldEscape(c, encodePath)]: letters, digits, the marks [-_.~] and
    the reserved characters but [?] are kept in a path. *)
Definition shouldEscape_path (c : ascii) : bool :=
  if byte_in "a" "z" c || byte_in "A" "Z" c || byte_in "0" "9" c then false
  else if bool_decide (c ∈ [ "-"; "_"; "."; "~" ]%char) then false
  else if bool_decide (c ∈ [ "$"; "&"; "+"; ","; "/"; ":"; ";"; "="; "?";
                            "@" ]%char)
       then bool_decide (c = "?"%char)
       else true.

(** [escape(s, encodePath)]: a byte to escape is written as a percent
    sign and its two digits. *)
Definition escape_byte (c : ascii) : bytes :=
  if shouldEscape_path c then "%"%char :: hex "0123456789ABCDEF" c else [c].

Definition escape_path (s : bytes) : bytes := s ≫= escape_byte.

(** [(&url.URL{Path: path, RawQuery: query}).String()]: the escaped path,
    after [./] when its first element has a colon, and the query after a
    question mark when there is one. *)
Definition url_String (path query : string) : string :=
  let path :=
    if decide (path = "*") then bytes_of_string "*"
    else escape_path (bytes_of_string path) in
  let segment :=
    match Bytes.Cut path ["/"%char] with
    | Some (before, _) => before
    | None => path
    end in
  (if Bytes.Contains segment [":"%char] then "./" else EmptyString)
  +:+ string_of_bytes path
  +:+ (if decide (query = EmptyString) then EmptyString else "?" +:+ query).

(** What [Redirect] reads of [url.Parse(url)]: the scheme and the host of
    a target that parses. *)
Variable url_Parse : string -> option (string * string).

(** [hexEscapeNonASCII] *)
Definition hexEscapeNonASCII (s : string) : string :=
  string_of_bytes
    (c ← bytes_of_string s;
     if (128 <=? N_of_ascii c)%N then "%"%char :: hex "0123456789abcdef" c
     else [c]).

(** [htmlEscape] *)
Definition htmlEscape (s : string) : string :=
  string_of_bytes
    (c ← bytes_of_string s;
     bytes_of_string
       (if decide (c = "&"%char) then "&amp;"
        else if decide (c = "<"%char) then "&lt;"
        else if decide (c = ">"%char) then "&gt;"
        else if decide (c = "034"%char) then "&#34;"
        else if decide (c = "'"%char) then "&#39;"
        else String c EmptyString)).

(** The directory of [path.Split]: the path up to its last slash. *)
Fixpoint path_dir (p : bytes) : bytes :=
  match p with
  | [] => []
  | c :: p' => if bool_decide ("/"%char ∈ p) then c :: path_dir p' else []
  end.

(** The target [Redirect] names: a target without scheme and host is
    made absolute with the directory of the request's path, and its path
    (what is before the first question mark) is cleaned, a trailing slash
    being kept. *)
Definition redirect_url (r : Request) (url : string) : string :=
  match url_Parse url with
  | Some (scheme, host) =>
      if decide (scheme = EmptyString /\ host = EmptyString) then
        let oldpath :=
          if decide (URL_Path r = EmptyString) then "/" else URL_Path r in
        let url :=
          if decide (first_byte url <> Some "/"%char)
          then string_of_bytes (path_dir (bytes_of_string oldpath)) +:+ url
          else url in
        let '(url, query) :=
          match Bytes.Index (bytes_of_string url) ["?"%char] with
          | Some i => (string_of_bytes (take i (bytes_of_string url)),
                       string_of_bytes (drop i (bytes_of_string url)))
          | None => (url, EmptyString)
          end in
        let trailing := bool_decide (last_byte url = Some "/"%char) in
        let url := path_Clean url in
        let url :=
          if trailing && negb (bool_decide (last_byte url = Some "/"%char))
          then url +:+ "/" else url in
        url +:+ query
      else url
  | None => url
  end.

(** [Redirect], as [RedirectHandler(url, code)] calls it (the text of the
    status is that of 301, the only code this server redirects with). *)
Definition RedirectHandler (url : string) (code : Z) : Handler := fun r st =>
  let url := redirect_url r url in
  let hadCT := bool_decide (is_Some (header (st_w st) !! "Content-Type")) in
  (Header_Set "Location" (hexEscapeNonASCII url);;
   (if negb hadCT
       && (bool_decide (Method r = "GET") || bool_decide (Method r = "HEAD"))
    then Header_Set "Content-Type" "text/html; charset=utf-8" else mret tt);;
   WriteHeader code;;
   (if negb hadCT && bool_decide (Method r = "GET")
    then Write (Plain ("<a href=" +:+ DQ +:+ htmlEscape url +:+ DQ
                       +:+ ">Moved Permanently</a>." +:+ LF +:+ LF))
    else mret tt)) st.

(** [mux.handler] *)
Definition mux_handler (mux : ServeMux) (host path : string) : Handler :=
  let r := if hosts mux then mux_match mux (host +:+ path) else None in
  let r := match r with Some e => Some e | None => mux_match mux path end in
  match r with
  | Some e => h e
  | None => NotFoundHandler
  end.

Definition shouldRedirect (mux : ServeMux) (host path : string) : bool :=
  let p := [path; host +:+ path] in
  if bool_decide (Exists (fun c => is_Some (m mux !! c)) p) then false
  else if decide (String.length path = 0)%nat then false
  else if bool_decide (Exists (fun c => is_Some (m mux !! (c +:+ "/"))) p)
       then bool_decide (last_byte path <> Some "/"%char)
       else false.

(** The port of a host is left out when it has one. *)
Variable stripHostPort : string -> string.

(** [mux.Handler(r)] *)
Definition mux_Handler (mux : ServeMux) (r : Request) : Handler :=
  if decide (Method r = "CONNECT") then
    if shouldRedirect mux (URL_Host r) (URL_Path r) then
      RedirectHandler (url_String (URL_Path r +:+ "/") (URL_RawQuery r))
                      StatusMovedPermanently
    else mux_handler mux (Host r) (URL_Path r)
  else
    let host := stripHostPort (Host r) in
    let path := cleanPath (URL_Path r) in
    if shouldRedirect mux host path then
      RedirectHandler (url_String (path +:+ "/") (URL_RawQuery r))
                      StatusMovedPermanently
    else if decide (path <> URL_Path r) then
      RedirectHandler (url_String path (URL_RawQuery r)) StatusMovedPermanently
    else mux_handler mux host (URL_Path r).

(** [mux.ServeHTTP] *)
Definition ServeMux_ServeHTTP (mux : ServeMux) (r : Request) : SM St unit :=
  if decide (RequestURI r = "*") then
    (if Proto11 r then Header_Set "Connection" "close" else mret tt);;
    WriteHeader StatusBadRequest
  else mux_Handler mux r r.

(** The server's own answer to [OPTIONS *]. *)
Definition globalOptionsHandler : Handler := fun _ =>
  Header_Set "Content-Length" "0".

(** ** main *)

Definition NewServeMux : ServeMux := {| m := ∅; es := []; hosts := false |}.

(** The four registrations of [main] on the default multiplexer. *)
Definition DefaultServeMux : option ServeMux :=
  mux ← Handle NewServeMux "/" rootHandler;
  mux ← Handle mux "/health" healthHandler;
  mux ← Handle mux "/info" infoHandler;
  Handle mux "/execute" executeHandler.

(** A handler run on a new response writer: the response it wrote and
    the world afterwards. *)
Definition run (handler : SM St unit) (world : World)
  : option (Response * World) :=
  '(_, st) ← handler {| st_w := newResponseWriter; st_world := world |};
  Some (finish (st_w st), st_world st).

(** The server sends what the handler wrote. *)
Definition deliver (r : Request) (o : option (Response * World))
  : option (Response * World) :=
  '(resp, world) ← o;
  Some (sent r resp, world).

(** One request through the server started by [http.ListenAndServe(addr,
    nil)]: the response the client receives and the world afterwards;
    [None] when a panic ended the handler. *)
Definition serve (r : Request) (world : World) : option (Response * World) :=
  mux ← DefaultServeMux;
  let handler :=
    if bool_decide (RequestURI r = "*") && bool_decide (Method r = "OPTIONS")
    then globalOptionsHandler r
    else ServeMux_ServeHTTP mux r in
  deliver r (run handler world).

(** The state a handler starts in, and the multiplexer [main] builds. *)
Definition fresh (world : World) : St :=
  {| st_w := newResponseWriter; st_world := world |}.

Definition the_mux : ServeMux :=
  {| m := <["/execute" := {| h := executeHandler; pattern := "/execute" |}]>
          (<["/info" := {| h := infoHandler; pattern := "/info" |}]>
          (<["/health" := {| h := healthHandler; pattern := "/health" |}]>
          (<["/" := {| h := rootHandler; pattern := "/" |}]> ∅)));
     es := [ {| h := rootHandler; pattern := "/" |} ];
     hosts := false |}.

End Server.

Arguments St World : clear implicits.
Arguments Handler World : clear implicits.
Arguments ServeMux World : clear implicits.
Arguments muxEntry World : clear implicits.
Arguments st_w {World} s.
Arguments st_world {World} s.
Arguments h {World} m.
Arguments pattern {World} m.
Arguments m {World} s.
Arguments es {World} s.
Arguments hosts {World} s.
Arguments in_world {World A} f.
Arguments lift {World A} m.
Arguments on_writer {World} f.
Arguments Header_Set {World} key value.
Arguments WriteHeader {World} code.
Arguments Write {World} c.
Arguments Encode {World} j.
Arguments http_Error {World} error code.
Arguments rootHandler {World} r.
Arguments infoHandler {World} r.
Arguments healthHandler {World} time_Now r.
Arguments NotFoundHandler {World}.
Arguments RedirectHandler {World} url_Parse url code.
Arguments globalOptionsHandler {World}.
Arguments NewServeMux {World}.
Arguments fresh {World} world.
Arguments run {World} handler world.
Arguments deliver {World} r o.
Arguments Handle {World} mux pat handler.
Arguments mux_match {World} mux path.
Arguments mux_handler {World} mux host path.
Arguments shouldRedirect {World} mux host path.

(** ** Test doubles

    A world that counts the calls of the upstream client and advances its
    clock by 5 ms at every reading, an upstream that always gives the same
    reply, and decoders that know a few texts. *)

Record MockWorld := {
  calls : nat;
  clock : Z
}.

Definition mock_Now (w : MockWorld) : Time * MockWorld :=
  ({| unix := 1704654321; monotonic_ns := clock w |},
   {| calls := calls w; clock := clock w + 5000000 |}).

Definition mock_Do (reply : string + RawResponse) (timeout : Z)
    (req : OutRequest) (w : MockWorld) : (string + RawResponse) * MockWorld :=
  (reply, {| calls := S (calls w); clock := clock w |}).

Definition mock_range (c : gmap string any) (w : MockWorld)
  : list (string * any) * MockWorld :=
  (map_to_list c, w).

Definition mock_request (timeout : Z) : ExecuteRequest :=
  {| Input := {| Prompt := "hi"; Context := None |};
     Metadata := {| RequestID := "r1"; UserID := "u1"; Timeout := timeout |} |}.

(** The bodies [good] and [good30] decode to the same input with timeouts
    1000 and 30000; every other body is refused. *)
Definition mock_Decode (body : string) : string + ExecuteRequest :=
  if decide (body = "good") then inr (mock_request 1000)
  else if decide (body = "good30") then inr (mock_request 30000)
  else inl "unexpected end of JSON input".

Definition mock_Marshal (r : ClaudeRequest) : string + string := inr "{}".

(** The reply's body is taken as the generated text, with a usage of 95
    input tokens and 1 output token. *)
Definition mock_Unmarshal_ClaudeResponse (body : string)
  : string + ClaudeResponse :=
  inr {| ClaudeResponse_ID := "msg_1";
         ClaudeResponse_Type := "message";
         ClaudeResponse_Role := "assistant";
         ClaudeResponse_Content :=
           [ {| ClaudeContent_Type := "text"; Text := body |} ];
         ClaudeResponse_Model := "claude-sonnet-4-5-20250929";
         Usage := {| InputTokens := 95; OutputTokens := 1 |} |}.

(** Of all texts only [{}] is a JSON object, and [null] is accepted and
    leaves the map nil. *)
Definition mock_Unmarshal_map (s : string)
  : string + option (gmap string any) :=
  if decide (s = "{}") then inr (Some ∅)
  else if decide (s = "null") then inr None
  else inl "invalid character".

Definition mock_fmt_v (v : any) : string := "?".

Definition mock_agent : GoAgent := {| client := client_of "sk-test" |}.

(** Every target that starts at the root parses, without scheme and
    host. *)
Definition mock_Parse (url : string) : option (string * string) :=
  if strings_HasPrefix url "/" then Some (EmptyString, EmptyString) else None.

Definition mock_serve (reply : string + RawResponse)
  : Request -> MockWorld -> option (Response * MockWorld) :=
  serve MockWorld mock_Now (mock_Do reply) mock_range mock_Decode mock_Marshal
        mock_Unmarshal_ClaudeResponse mock_Unmarshal_map mock_fmt_v mock_agent
        mock_Parse id.

Definition mock_world : MockWorld := {| calls := 0; clock := 0 |}.

Definition request (method path body : string) : Request :=
  {| Method := method; RequestURI := path; Proto11 := true;
     Host := "localhost:8002"; URL_Host := EmptyString; URL_Path := path;
     URL_RawQuery := EmptyString; Body := body |}.

(** ** Responses the properties name *)

Definition json_header : gmap string string :=
  {[ "Content-Type" := "application/json" ]}.

Definition plain_header : gmap string string :=
  <["X-Content-Type-Options" := "nosniff"]>
    {[ "Content-Type" := "text/plain; charset=utf-8" ]}.

(** What [http.Error] sends. *)
Definition plain_error (message : string) (code : Z) : Response :=
  {| StatusCode := code; Header := plain_header;
     ResponseBody := [Plain (message +:+ LF)] |}.

Definition root_body : json :=
  JObject (list_to_map
    [ ("name", JString "Mindra Go Agent");
      ("version", JString "1.0.0");
      ("status", JString "running") ]).

Definition root_response : Response :=
  {| StatusCode := 200; Header := json_header;
     ResponseBody := [Encoded root_body] |}.

(** The body of a failed execution. *)
Definition error_envelope (message : string) : json :=
  JObject (list_to_map
    [ ("result", JNull);
      ("metadata", JObject (list_to_map
         [ ("cost", JNumber (S754_zero false));
           ("duration", JInteger 0) ]));
      ("error", JString message) ]).

Definition with_body (r : Request) (body : string) : Request :=
  {| Method := Method r; RequestURI := RequestURI r; Proto11 := Proto11 r;
     Host := Host r; URL_Host := URL_Host r; URL_Path := URL_Path r;
     URL_RawQuery := URL_RawQuery r; Body := body |}.

Definition error_response (message : string) : Response :=
  {| StatusCode := 500; Header := json_header;
     ResponseBody := [Encoded (error_envelope message)] |}.

(** A response that says it is JSON and whose body is one JSON document. *)
Definition json_reply (resp : Response) : Prop :=
  Header resp !! "Content-Type" = Some "application/json"
  /\ exists j, ResponseBody resp = [Encoded j].

(** The same, allowing for the encoder to refuse the value and leave the
    body empty. *)
Definition json_reply_or_empty (resp : Response) : Prop :=
  Header resp !! "Content-Type" = Some "application/json"
  /\ (ResponseBody resp = [] \/ exists j, ResponseBody resp = [Encoded j]).

Definition member (name : string) (j : json) : option json :=
  match j with
  | JObject m => m !! name
  | _ => None
  end.

(** The map a successful [Execute] returns. *)
Definition result_data (result : any) (cost : float64) (duration : Z)
    (model : string) (input output : Z) : gmap string any :=
  list_to_map
    [ ("result", result);
      ("cost", AFloat64 cost);
      ("duration", AInt64 duration);
      ("model", AString model);
      ("tokensUsed",
       AMapInt (list_to_map [ ("input", input); ("output", output) ])) ].

(** What the execute handler can answer. *)
Definition execute_reply (resp : Response) : Prop :=
  resp = plain_error "Method not allowed" StatusMethodNotAllowed
  \/ (exists err,
        resp = plain_error ("Invalid request body: " +:+ err) StatusBadRequest)
  \/ (exists msg, resp = error_response msg)
  \/ (StatusCode resp = StatusOK /\ Header resp = json_header /\
      (ResponseBody resp = [] \/
       exists j, ResponseBody resp = [Encoded j] /\ member "error" j = None)).

(** A path that starts at the root. *)
Definition rooted (s : string) : Prop := exists t, s = String "/" t.

(** The response struct the execute handler builds of the map a
    successful [Execute] returned. *)
Definition execute_response (result : any) (cost : float64) (duration : Z)
    (model : string) (input output : Z) : ExecuteResponse :=
  {| Result := result;
     ExecuteResponse_Metadata :=
       {| Cost := cost; Duration := duration; Model := model;
          TokensUsed := Some {| TokenUsage_Input := input;
                                TokenUsage_Output := output |} |};
     Error := None |}.

(** A JSON answer: the status, Content-Type application/json and the
    encoded value as the body; no body when the encoder refused the
    value. *)
Definition json_response (code : Z) (body : option json) : Response :=
  {| StatusCode := code; Header := json_header;
     ResponseBody := match body with Some j => [Encoded j] | None => [] end |}.

Definition upstream_ok : string + RawResponse :=
  inr {| raw_StatusCode := 200; raw_Body := inr "{}" |}.
Definition upstream_down : string + RawResponse := inl "context deadline exceeded".

Definition fenced_prose : string := "  Sure! ```json
not json at all
``` ".

(** ** Definitions for the further properties *)

(** ** Texts with a fenced block *)

Definition backtick : ascii := "`"%char.

(** A text with a block fenced as JSON, and one with a plain fence. *)
Definition wrap_json (pre body post : string) : string :=
  pre +:+ "```json" +:+ body +:+ "```" +:+ post.

Definition wrap (pre body post : string) : string :=
  pre +:+ "```" +:+ body +:+ "```" +:+ post.

(** [s] begins, or ends, with a white space character. *)
Definition starts_with_space (s : bytes) : Prop :=
  exists t, t ∈ Bytes.spaces /\ t `prefix_of` s.
Definition ends_with_space (s : bytes) : Prop :=
  exists t, t ∈ Bytes.spaces /\ t `suffix_of` s.

(** [r] is a piece of [s]. *)
Definition infix (r s : bytes) : Prop := exists a b, s = a ++ r ++ b.

(** The line of one context entry, and the message for the entries in the
    order the loop visits them. *)
Definition context_line (fmt_v : any -> string) (e : string * any) : string :=
  "- " +:+ e.1 +:+ ": " +:+ fmt_v e.2 +:+ LF.

Definition user_message (fmt_v : any -> string) (prompt : string)
    (entries : list (string * any)) : string :=
  "User Query: " +:+ prompt +:+ LF +:+ LF
  +:+ match entries with
      | [] => EmptyString
      | _ => "Additional Context:" +:+ LF
             +:+ foldr String.append EmptyString (context_line fmt_v <$> entries)
      end.

(** The body and the request [CreateMessage] builds; the header has the
    names as [Header.Set] canonicalises them. *)
Definition request_body (c : ClaudeClient) (system userMessage : string)
  : ClaudeRequest :=
  {| ClaudeRequest_Model := model c;
     MaxTokens := 4000;
     System := system;
     Messages := [ {| Role := "user"; Content := userMessage |} ] |}.

Definition upstream_request (c : ClaudeClient) (jsonData : string) : OutRequest :=
  {| out_Method := "POST";
     out_URL := "https://api.anthropic.com/v1/messages";
     out_Header :=
       <["Anthropic-Version" := "2023-06-01"]>
         (<["X-Api-Key" := apiKey c]>
            {[ "Content-Type" := "application/json" ]});
     out_Body := jsonData |}.

(** The replies of the upstream service that [CreateMessage] turns into an
    error, with the error's text. *)
Inductive upstream_failure (decode : string -> string + ClaudeResponse)
  : string + RawResponse -> string -> Prop :=
  | send_failed (err : string) :
      upstream_failure decode (inl err) ("failed to send request: " +:+ err)
  | read_failed (code : Z) (err : string) :
      upstream_failure decode
        (inr {| raw_StatusCode := code; raw_Body := inl err |})
        ("failed to read response: " +:+ err)
  | status_not_ok (code : Z) (body : string) :
      code <> StatusOK ->
      upstream_failure decode
        (inr {| raw_StatusCode := code; raw_Body := inr body |})
        ("Claude API error (" +:+ pretty code +:+ "): " +:+ body)
  | unmarshal_failed (body err : string) :
      decode body = inl err ->
      upstream_failure decode
        (inr {| raw_StatusCode := StatusOK; raw_Body := inr body |})
        ("failed to unmarshal response: " +:+ err).

(** The text of the first content block, empty when there is none. *)
Definition resultText (response : ClaudeResponse) : string :=
  match ClaudeResponse_Content response with
  | c :: _ => Text c
  | [] => EmptyString
  end.

(** The body of a successful execution. *)
Definition success_envelope (result : json) (cost : float64) (duration : Z)
    (model : string) (input output : Z) : json :=
  JObject (list_to_map
    [ ("result", result);
      ("metadata", JObject (list_to_map
         [ ("cost", JNumber cost);
           ("duration", JInteger duration);
           ("model", JString model);
           ("tokensUsed", JObject (list_to_map
              [ ("input", JInteger input); ("output", JInteger output) ])) ])) ]).

Definition success_response (body : json) : Response :=
  {| StatusCode := 200; Header := json_header; ResponseBody := [Encoded body] |}.

(** What the multiplexer answers to a request for [*] that is not the
    server's own [OPTIONS *]. *)
Definition badRequestHandler {World} (r : Request) : SM (St World) unit :=
  (if Proto11 r then Header_Set "Connection" "close" else mret tt);;
  WriteHeader StatusBadRequest.

(** Where the multiplexer that [main] sets up sends a request. *)
Inductive route :=
  | ToOptions
  | ToBadRequest
  | ToRedirect (url : string)
  | ToNotFound
  | ToRoot
  | ToHealth
  | ToInfo
  | ToExecute.

#[global] Instance route_eq_dec : EqDecision route.
Proof. solve_decision. Defined.

Definition path_route (p : string) : route :=
  if decide (p = "/execute") then ToExecute
  else if decide (p = "/health") then ToHealth
  else if decide (p = "/info") then ToInfo
  else if strings_HasPrefix p "/" then ToRoot
  else ToNotFound.

Definition route_of (r : Request) : route :=
  if decide (RequestURI r = "*") then
    if decide (Method r = "OPTIONS") then ToOptions else ToBadRequest
  else if decide (Method r = "CONNECT") then path_route (URL_Path r)
  else if decide (cleanPath (URL_Path r) <> URL_Path r) then
    ToRedirect (url_String (cleanPath (URL_Path r)) (URL_RawQuery r))
  else path_route (URL_Path r).

Section Routes.

Variable World : Type.
Variable time_Now : World -> Time * World.
Variable http_Do : Z -> OutRequest -> World -> (string + RawResponse) * World.
Variable map_range : gmap string any -> World -> list (string * any) * World.
Variable json_Decode_ExecuteRequest : string -> string + ExecuteRequest.
Variable json_Marshal_ClaudeRequest : ClaudeRequest -> string + string.
Variable json_Unmarshal_ClaudeResponse : string -> string + ClaudeResponse.
Variable json_Unmarshal_map : string -> string + option (gmap string any).
Variable fmt_v : any -> string.
Variable agent : GoAgent.
Variable url_Parse : string -> option (string * string).

(** The handler at the end of a route. *)
Definition handler_of (k : route) : Handler World :=
  match k with
  | ToOptions => globalOptionsHandler
  | ToBadRequest => badRequestHandler
  | ToRedirect url => RedirectHandler url_Parse url StatusMovedPermanently
  | ToNotFound => NotFoundHandler
  | ToRoot => rootHandler
  | ToHealth => healthHandler time_Now
  | ToInfo => infoHandler
  | ToExecute =>
      executeHandler World time_Now http_Do map_range
        json_Decode_ExecuteRequest json_Marshal_ClaudeRequest
        json_Unmarshal_ClaudeResponse json_Unmarshal_map fmt_v agent
  end.

End Routes.

Definition health_body (unix : Z) : json :=
  JObject (list_to_map
    [ ("status", JString "healthy"); ("timestamp", JNumber (of_int unix)) ]).

(** A world that keeps a log of the calls of the transport, in order: the
    timeout and the request of each. *)
Definition Recorded (World : Type) : Type := World * list (Z * OutRequest).

Definition recording {World A : Type} (f : World -> A * World)
  : Recorded World -> A * Recorded World :=
  fun w => ((f w.1).1, ((f w.1).2, w.2)).

Definition recording_Do {World : Type}
    (http_Do : Z -> OutRequest -> World -> (string + RawResponse) * World)
    (timeout : Z) (req : OutRequest)
  : Recorded World -> (string + RawResponse) * Recorded World :=
  fun w => ((http_Do timeout req w.1).1,
            ((http_Do timeout req w.1).2, w.2 ++ [(timeout, req)])).

(** ** strconv.Atoi *)

Module Strconv.

(** The [Err] of the [*NumError] a conversion returns. *)
Inductive error :=
  | ErrSyntax
  | ErrRange.

(** Arithmetic on [byte]: the difference wraps around. *)
Definition byte_sub (c : ascii) (k : Z) : Z := (Z.of_N (N_of_ascii c) - k) mod 256.

Definition byte_le (c d : ascii) : bool := (N_of_ascii c <=? N_of_ascii d)%N.

Definition lower (c : ascii) : ascii := ascii_of_N (N.lor (N_of_ascii c) 32).

Definition int64 (z : Z) : Z := (z + 2 ^ 63) mod 2 ^ 64 - 2 ^ 63.

Definition maxUint64 : Z := 2 ^ 64 - 1.

(** The loop of [ParseUint] for base 10 and 64 bits: a byte that is not a
    digit is a syntax error, a value that does not fit is a range error,
    whatever comes after it. *)
Fixpoint parseUint_loop (n : Z) (s : bytes) : Z * option error :=
  match s with
  | [] => (n, None)
  | c :: s' =>
      let d :=
        if byte_le "0" c && byte_le c "9" then Some (byte_sub c 48)
        else if byte_le "a" (lower c) && byte_le (lower c) "z"
             then Some (byte_sub (lower c) 97 + 10)
             else None in
      match d with
      | None => (0, Some ErrSyntax)
      | Some d =>
          if 10 <=? d then (0, Some ErrSyntax)
          else if maxUint64 / 10 + 1 <=? n then (maxUint64, Some ErrRange)
          else
            let n1 := n * 10 + d in
            if maxUint64 <? n1 then (maxUint64, Some ErrRange)
            else parseUint_loop n1 s'
      end
  end.

Definition ParseUint (s : bytes) : Z * option error :=
  match s with
  | [] => (0, Some ErrSyntax)
  | _ => parseUint_loop 0 s
  end.

(** [ParseInt(s, 10, 0)] *)
Definition ParseInt (s : bytes) : Z * option error :=
  match s with
  | [] => (0, Some ErrSyntax)
  | c :: s' =>
      let neg := bool_decide (c = "-"%char) in
      let s1 := if bool_decide (c = "+"%char) || neg then s' else s in
      let '(un, err) := ParseUint s1 in
      match err with
      | Some ErrSyntax => (0, Some ErrSyntax)
      | _ =>
          let cutoff := 2 ^ 63 in
          if negb neg && (cutoff <=? un) then (cutoff - 1, Some ErrRange)
          else if neg && (cutoff <? un) then (- cutoff, Some ErrRange)
          else
            let n := int64 un in
            (if neg then int64 (- n) else n, None)
      end
  end.

(** The loop of the fast path of [Atoi]. *)
Fixpoint atoi_loop (n : Z) (s : bytes) : option Z :=
  match s with
  | [] => Some n
  | ch :: s' =>
      let ch := byte_sub ch 48 in
      if 9 <? ch then None else atoi_loop (n * 10 + ch) s'
  end.

(** [Atoi(s)] where [int] has 64 bits: the value and the error. *)
Definition Atoi (s : string) : Z * option error :=
  let b := bytes_of_string s in
  if (0 <? length b)%nat && (length b <? 19)%nat then
    match b with
    | [] => (0, Some ErrSyntax)
    | c :: rest =>
        let signed := bool_decide (c = "-"%char) || bool_decide (c = "+"%char) in
        let s1 := if signed then rest else b in
        if signed && (length s1 <? 1)%nat then (0, Some ErrSyntax)
        else
          match atoi_loop 0 s1 with
          | None => (0, Some ErrSyntax)
          | Some n => (if bool_decide (c = "-"%char) then - n else n, None)
          end
    end
  else ParseInt b.

End Strconv.

(** ** main *)

(** What the process writes: to the standard output, and to the log. *)
Inductive output :=
  | Stdout (s : string)
  | Log (s : string).

Section Main.

Variable World : Type.
Variable time_Now : World -> Time * World.
Variable http_Do : Z -> OutRequest -> World -> (string + RawResponse) * World.
Variable map_range : gmap string any -> World -> list (string * any) * World.
Variable json_Decode_ExecuteRequest : string -> string + ExecuteRequest.
Variable json_Marshal_ClaudeRequest : ClaudeRequest -> string + string.
Variable json_Unmarshal_ClaudeResponse : string -> string + ClaudeResponse.
Variable json_Unmarshal_map : string -> string + option (gmap string any).
Variable fmt_v : any -> string.

(** The environment, the text of the start banner for a port, and the
    error [http.ListenAndServe] returns for an address ([None] when it
    serves and does not return). *)
Variable os_Getenv : string -> string.
Variable banner : string -> string -> string.
Variable http_ListenAndServe : string -> option string.

(** How [main] ends: [log.Fatalf] exits with status 1; a registration
    panics; or the server serves at an address with the agent and the
    multiplexer [main] set up. *)
Inductive started :=
  | Fatal (outputs : list output)
  | Panicked
  | Serving (outputs : list output) (addr : string) (agent : GoAgent)
            (mux : ServeMux World).

Definition main : started :=
  match NewGoAgent (os_Getenv "ANTHROPIC_API_KEY") with
  | inl err => Fatal [ Log ("Failed to initialize agent: " +:+ err) ]
  | inr agent =>
      let port := os_Getenv "PORT" in
      let port := if decide (port = EmptyString) then "8002" else port in
      match DefaultServeMux World time_Now http_Do map_range
              json_Decode_ExecuteRequest json_Marshal_ClaudeRequest
              json_Unmarshal_ClaudeResponse json_Unmarshal_map fmt_v agent with
      | None => Panicked
      | Some mux =>
          let outputs := [ Stdout (banner port port) ] in
          let portNum := (Strconv.Atoi port).1 in
          let addr := ":" +:+ pretty portNum in
          let outputs := outputs ++ [ Log ("Server listening on " +:+ addr) ] in
          match http_ListenAndServe addr with
          | Some err => Fatal (outputs ++ [ Log ("Server failed: " +:+ err) ])
          | None => Serving outputs addr agent mux
          end
      end
  end.

End Main.

(** Half a unit in the last place, relative to the value: [2^-53]. *)
Definition unit_roundoff : Q := 1 # 9007199254740992.

Definition with_path (r : Request) (path : string) : Request :=
  {| Method := Method r; RequestURI := RequestURI r; Proto11 := Proto11 r;
     Host := Host r; URL_Host := URL_Host r; URL_Path := path;
     URL_RawQuery := URL_RawQuery r; Body := Body r |}.

(** The elements [path.Clean] keeps, and the path they make. *)
Definition slash : ascii := "/"%char.
Definition question : ascii := "?"%char.

Definition segment (e : bytes) : Prop :=
  e <> [] /\ e <> ["."%char] /\ e <> ["."%char; "."%char] /\ slash ∉ e.

Definition join (stack : list bytes) : bytes :=
  concat ((fun e => slash :: e) <$> stack).

(** A path in the form the multiplexer leaves as it is: a slash before
    each element, no element empty, [.] or [..], and possibly one more
    slash at the end. *)
Definition clean (p : string) : Prop :=
  exists stack,
    Forall segment stack
    /\ (bytes_of_string p = join stack ++ [slash]
        \/ (stack <> [] /\ bytes_of_string p = join stack)).

(** ** Start-up in the mock world *)

(** An environment with a key and a port, the banner reduced to its port,
    and a listener that serves at every address but [:1]. *)
Definition mock_Getenv (key port name : string) : string :=
  if decide (name = "ANTHROPIC_API_KEY") then key
  else if decide (name = "PORT") then port
  else EmptyString.

Definition mock_banner (port1 port2 : string) : string := "Port: " +:+ port1.

Definition mock_ListenAndServe (addr : string) : option string :=
  if decide (addr = ":1") then Some "listen tcp :1: bind: permission denied"
  else None.

Definition mock_main (key port : string) : started MockWorld :=
  main MockWorld mock_Now (mock_Do upstream_ok) mock_range mock_Decode
    mock_Marshal mock_Unmarshal_ClaudeResponse mock_Unmarshal_map mock_fmt_v
    (mock_Getenv key port) mock_banner mock_ListenAndServe.

Definition mock_context : gmap string any :=
  {[ "user" := AString "ann"; "tier" := AString "pro" ]}.

Definition with_query (r : Request) (query : string) : Request :=
  {| Method := Method r; RequestURI := RequestURI r +:+ "?" +:+ query;
     Proto11 := Proto11 r; Host := Host r; URL_Host := URL_Host r;
     URL_Path := URL_Path r; URL_RawQuery := query; Body := Body r |}.

Definition upstream_overloaded : string + RawResponse :=
  inr {| raw_StatusCode := 503; raw_Body := inr "overloaded" |}.

(* ===================================================================== *)
(** * Part II: properties                                                  *)
(* ===================================================================== *)

(** ** Byte slices *)

Lemma HasPrefix_prefix_of (s p : bytes) :
  Bytes.HasPrefix s p = true <-> p `prefix_of` s.
Proof.
  revert s; induction p as [|c p IH]; intros s; simpl.
  - split; [intros _; apply prefix_nil | done].
  - destruct s as [|d s].
    + split; [done | intros [k Hk]; discriminate].
    + rewrite andb_true_iff, bool_decide_eq_true, IH. split.
      * intros [-> Hp]. by apply prefix_cons.
      * intros [k Hk]. simplify_eq/=. split; [done | by exists k].
Qed.

Lemma HasPrefix_nil_false (sep : bytes) :
  sep <> [] -> Bytes.HasPrefix [] sep = false.
Proof. by destruct sep. Qed.

Lemma Index_Some_bound (s sep : bytes) (m : nat) :
  Bytes.Index s sep = Some m -> (m + length sep <= length s)%nat.
Proof.
  revert m; induction s as [|c s IH]; intros m; simpl.
  - destruct (Bytes.HasPrefix [] sep) eqn:Hp; [|done].
    intros [= <-]. apply HasPrefix_prefix_of, prefix_length in Hp. simpl in *; lia.
  - destruct (Bytes.HasPrefix (c :: s) sep) eqn:Hp.
    + intros [= <-]. apply HasPrefix_prefix_of, prefix_length in Hp. simpl in *; lia.
    + destruct (Bytes.Index s sep) as [m'|] eqn:Hi; [|done].
      intros [= <-]. specialize (IH _ eq_refl). simpl; lia.
Qed.

(** [Index] finds an instance, and the first one. *)
Lemma Index_Some_spec (s sep : bytes) (m : nat) :
  Bytes.Index s sep = Some m ->
  sep `prefix_of` drop m s /\
  forall i, (i < m)%nat -> ~ sep `prefix_of` drop i s.
Proof.
  revert m; induction s as [|c s IH]; intros m; simpl.
  - destruct (Bytes.HasPrefix [] sep) eqn:Hp; [|done].
    intros [= <-]. split; [by apply HasPrefix_prefix_of | lia].
  - destruct (Bytes.HasPrefix (c :: s) sep) eqn:Hp.
    + intros [= <-]. split; [by apply HasPrefix_prefix_of | lia].
    + destruct (Bytes.Index s sep) as [m'|] eqn:Hi; [|done].
      intros [= <-]. destruct (IH _ eq_refl) as [H1 H2]. split; [done|].
      intros [|i] Hi'; simpl.
      * intros Hq%HasPrefix_prefix_of. congruence.
      * apply H2. lia.
Qed.

Lemma Index_None_spec (s sep : bytes) :
  Bytes.Index s sep = None -> forall i, ~ sep `prefix_of` drop i s.
Proof.
  induction s as [|c s IH]; simpl.
  - destruct (Bytes.HasPrefix [] sep) eqn:Hp; [done|]. intros _ i.
    rewrite drop_nil. intros Hq%HasPrefix_prefix_of. congruence.
  - destruct (Bytes.HasPrefix (c :: s) sep) eqn:Hp; [done|].
    destruct (Bytes.Index s sep) as [m'|] eqn:Hi; [done|]. intros _ [|i]; simpl.
    + intros Hq%HasPrefix_prefix_of. congruence.
    + by apply IH.
Qed.

(** [Cut] splits around the first instance. *)
Lemma Cut_Some_spec (s sep a b : bytes) :
  Bytes.Cut s sep = Some (a, b) ->
  s = a ++ sep ++ b /\
  forall i, (i < length a)%nat -> ~ sep `prefix_of` drop i s.
Proof.
  unfold Bytes.Cut. destruct (Bytes.Index s sep) as [m|] eqn:Hi; [|done].
  intros [= <- <-]. pose proof (Index_Some_bound _ _ _ Hi) as Hb.
  destruct (Index_Some_spec _ _ _ Hi) as [[k Hk] Hfirst]. split.
  - rewrite <- (take_drop m s) at 1. f_equal. rewrite Hk. f_equal.
    rewrite <- drop_drop, Hk. by rewrite drop_app_length.
  - intros i Hi'. apply Hfirst. rewrite length_take in Hi'. lia.
Qed.

Lemma genSplit_fuel (sep : bytes) (n1 n2 : nat) (s : bytes) :
  sep <> [] -> (length s <= n1)%nat -> (length s <= n2)%nat ->
  Bytes.genSplit n1 s sep = Bytes.genSplit n2 s sep.
Proof.
  intros Hsep. revert n2 s. induction n1 as [|n1 IH]; intros n2 s H1 H2.
  - destruct s; [|simpl in H1; lia]. destruct n2; simpl; [done|].
    by rewrite HasPrefix_nil_false.
  - destruct n2 as [|n2].
    + destruct s; [|simpl in H2; lia]. simpl. by rewrite HasPrefix_nil_false.
    + simpl. destruct (Bytes.Index s sep) as [m|] eqn:Hi; [|done].
      f_equal. pose proof (Index_Some_bound _ _ _ Hi).
      assert (0 < length sep)%nat by (destruct sep; [done | simpl; lia]).
      apply IH; rewrite length_drop; lia.
Qed.

Lemma Split_unfold (s sep : bytes) :
  sep <> [] ->
  Bytes.Split s sep =
    match Bytes.Index s sep with
    | None => [s]
    | Some m => take m s :: Bytes.Split (drop (m + length sep) s) sep
    end.
Proof.
  intros Hsep. unfold Bytes.Split. destruct s as [|c s].
  - simpl. by rewrite HasPrefix_nil_false.
  - cbn [length Bytes.genSplit].
    destruct (Bytes.Index (c :: s) sep) as [m|] eqn:Hi; [|done].
    f_equal. pose proof (Index_Some_bound _ _ _ Hi) as Hb.
    assert (0 < length sep)%nat by (destruct sep; [done | simpl; lia]).
    apply genSplit_fuel; [done | rewrite length_drop; simpl in *; lia | done].
Qed.

Lemma Split_head (s sep : bytes) :
  sep <> [] -> Bytes.Split s sep !! 0%nat = Some (before sep s).
Proof.
  intros Hsep. rewrite Split_unfold by done. unfold before, Bytes.Cut.
  by destruct (Bytes.Index s sep).
Qed.

Lemma Split_length_pos (s sep : bytes) :
  sep <> [] -> (0 < length (Bytes.Split s sep))%nat.
Proof.
  intros Hsep. rewrite Split_unfold by done.
  destruct (Bytes.Index s sep); simpl; lia.
Qed.

Lemma fence_nonempty : fence <> [].
Proof. done. Qed.

Lemma fence_json_nonempty : fence_json <> [].
Proof. done. Qed.

(** ** The result interpreter *)

Lemma cleanText_attempted (text : string) :
  cleanText text = Some (attempted text).
Proof.
  unfold cleanText, attempted, Bytes.Contains, Bytes.Cut.
  set (s := bytes_of_string text).
  destruct (Bytes.Index s fence_json) as [m|] eqn:Hj.
  - rewrite (Split_unfold s) by apply fence_json_nonempty. rewrite Hj.
    set (rest := drop (m + length fence_json) s).
    pose proof (Split_length_pos rest fence_json fence_json_nonempty).
    rewrite decide_True by (cbn [length]; lia).
    cbn [lookup list_lookup]. rewrite Split_head by apply fence_json_nonempty.
    cbn [mbind option_bind].
    pose proof (Split_length_pos (before fence_json rest) fence fence_nonempty).
    rewrite decide_True by done.
    rewrite Split_head by apply fence_nonempty. done.
  - destruct (Bytes.Index s fence) as [m|] eqn:Hf; [|done].
    rewrite (Split_unfold s) by apply fence_nonempty. rewrite Hf.
    set (rest := drop (m + length fence) s).
    rewrite (Split_unfold rest) by apply fence_nonempty.
    destruct (Bytes.Index rest fence) as [m'|] eqn:Hf'.
    + pose proof (Split_length_pos (drop (m' + length fence) rest) fence
                    fence_nonempty).
      rewrite decide_True by (cbn [length]; lia). done.
    + rewrite decide_False by (cbn [length]; lia). done.
Qed.

(** C3.  The result interpreter is total: for every input string (the
    empty string and malformed JSON included), and whatever the JSON
    decoder answers, [parseResult] returns a value; none of its slice
    indexings is out of range. *)
Theorem parseResult_total
    (json_Unmarshal_map : string -> string + option (gmap string any))
    (text : string) :
  exists result, parseResult json_Unmarshal_map text = Some result.
Proof.
  unfold parseResult. rewrite cleanText_attempted. cbn [mbind option_bind].
  destruct (json_Unmarshal_map (attempted text)); by eexists.
Qed.

(** C4 as stated fails.  A text whose [```json] fence is never closed
    contains no fenced block, so the claim has the original string
    attempted; the code attempts the text after the marker.  And of a
    closed block the code attempts the content without the white space
    around it, not the content. *)
Lemma unterminated_json_fence :
  (cleanText "```json{}" = Some "{}"
   /\ attempted_spec "```json{}" = "```json{}"
   /\ cleanText "```json{}" <> Some (attempted_spec "```json{}"))
  /\ (cleanText "```json {} ```" = Some "{}"
      /\ attempted_spec "```json {} ```" = " {} "
      /\ cleanText "```json {} ```" <> Some (attempted_spec "```json {} ```")).
Proof.
  split; (split; [|split]; [vm_compute; reflexivity..|vm_compute; discriminate]).
Qed.

(** C4, amended.  If the input contains the marker [```json], the text
    attempted as JSON is the text after the first such marker, up to the
    next [```json] marker or the end of the string, cut at its first
    [```] fence when it has one, and with leading and trailing white space
    removed; otherwise, if the input contains a [```] fence followed by a
    second one, it is the text between the first two, with leading and
    trailing white space removed; otherwise it is the original string.
    That text is what [parseResult] hands to the decoder. *)
Theorem attempted_text_by_cut
    (json_Unmarshal_map : string -> string + option (gmap string any))
    (text : string) :
  cleanText text = Some (attempted text)
  /\ parseResult json_Unmarshal_map text =
       Some (match json_Unmarshal_map (attempted text) with
             | inr jsonResult => AMapAny jsonResult
             | inl _ => AMapString {[ "text" := text ]}
             end).
Proof.
  split; [apply cleanText_attempted|].
  unfold parseResult. rewrite cleanText_attempted. cbn [mbind option_bind].
  by destruct (json_Unmarshal_map (attempted text)).
Qed.

(** C5 as stated fails.  The text [null] is not a JSON object, yet
    [json.Unmarshal] accepts it for a map without an error and leaves the
    map nil; the code returns that nil map, not the record [{text: null}].
    The same holds for a fenced [null]. *)
Lemma null_is_returned_as_parsed :
  mock_Unmarshal_map "null" = inr None
  /\ parseResult mock_Unmarshal_map "null" = Some (AMapAny None)
  /\ parseResult mock_Unmarshal_map "null"
     <> Some (AMapString {[ "text" := "null" ]})
  /\ parseResult mock_Unmarshal_map "```json null ```" = Some (AMapAny None).
Proof.
  split; [reflexivity|]. split; [vm_compute; reflexivity|].
  split; [vm_compute; discriminate | vm_compute; reflexivity].
Qed.

(** C5, amended.  For every input on which decoding the text handed to
    the decoder (the fence-extracted fragment, or the input itself) into a
    string-keyed map reports an error, the result is the single-field
    record whose [text] is exactly the original input: untrimmed, and not
    the fragment. *)
Theorem fallback_keeps_raw_text
    (json_Unmarshal_map : string -> string + option (gmap string any))
    (text extracted err : string) :
  cleanText text = Some extracted ->
  json_Unmarshal_map extracted = inl err ->
  parseResult json_Unmarshal_map text = Some (AMapString {[ "text" := text ]}).
Proof.
  intros Hc Hu. unfold parseResult. rewrite Hc. cbn [mbind option_bind].
  by rewrite Hu.
Qed.


Lemma fallback_keeps_raw_text_witness :
  cleanText fenced_prose = Some "not json at all"
  /\ parseResult mock_Unmarshal_map fenced_prose
     = Some (AMapString {[ "text" := fenced_prose ]}).
Proof.
  split; [vm_compute; reflexivity|].
  apply (fallback_keeps_raw_text mock_Unmarshal_map fenced_prose
           "not json at all" "invalid character");
    [vm_compute; reflexivity | reflexivity].
Defined.


(** ** The HTTP surface *)

Section ServerProperties.

Context {World : Type}.
Context (time_Now : World -> Time * World).
Context (http_Do : Z -> OutRequest -> World -> (string + RawResponse) * World).
Context (map_range : gmap string any -> World -> list (string * any) * World).
Context (json_Decode_ExecuteRequest : string -> string + ExecuteRequest).
Context (json_Marshal_ClaudeRequest : ClaudeRequest -> string + string).
Context (json_Unmarshal_ClaudeResponse : string -> string + ClaudeResponse).
Context (json_Unmarshal_map : string -> string + option (gmap string any)).
Context (fmt_v : any -> string).
Context (agent : GoAgent).
Context (url_Parse : string -> option (string * string)).
Context (stripHostPort : string -> string).

Local Abbreviation executeHandler' :=
  (executeHandler World time_Now http_Do map_range json_Decode_ExecuteRequest
     json_Marshal_ClaudeRequest json_Unmarshal_ClaudeResponse
     json_Unmarshal_map fmt_v agent).
Local Abbreviation Execute' :=
  (Execute World time_Now http_Do map_range json_Marshal_ClaudeRequest
     json_Unmarshal_ClaudeResponse json_Unmarshal_map fmt_v agent).
Local Abbreviation serve' :=
  (serve World time_Now http_Do map_range json_Decode_ExecuteRequest
     json_Marshal_ClaudeRequest json_Unmarshal_ClaudeResponse
     json_Unmarshal_map fmt_v agent url_Parse stripHostPort).
Local Abbreviation DefaultServeMux' :=
  (DefaultServeMux World time_Now http_Do map_range json_Decode_ExecuteRequest
     json_Marshal_ClaudeRequest json_Unmarshal_ClaudeResponse
     json_Unmarshal_map fmt_v agent).

Local Abbreviation the_mux' :=
  (the_mux World time_Now http_Do map_range json_Decode_ExecuteRequest
     json_Marshal_ClaudeRequest json_Unmarshal_ClaudeResponse
     json_Unmarshal_map fmt_v agent).

Lemma DefaultServeMux_eq : DefaultServeMux' = Some the_mux'.
Proof. reflexivity. Qed.

Lemma run_http_Error (msg : string) (code : Z) (w : World) :
  run (http_Error msg code) w = Some (plain_error msg code, w).
Proof. reflexivity. Qed.

Lemma run_rootHandler (r : Request) (w : World) :
  run (rootHandler r) w = Some (root_response, w).
Proof. reflexivity. Qed.


Lemma bytes_of_string_app (a b : string) :
  bytes_of_string (a +:+ b) = bytes_of_string a ++ bytes_of_string b.
Proof. induction a as [|c a IH]; simpl; [done | by rewrite IH]. Qed.

Lemma last_byte_app_slash (c : string) : last_byte (c +:+ "/") = Some "/"%char.
Proof. unfold last_byte. rewrite bytes_of_string_app. apply last_snoc. Qed.

Lemma app_slash_is_slash (c : string) : c +:+ "/" = "/" -> c = EmptyString.
Proof.
  destruct c as [|a c]; [done|]. simpl. intros [= -> Hc].
  by destruct c.
Qed.

Lemma the_mux_keys (k : string) :
  is_Some (m the_mux' !! k) ->
  k = "/execute" \/ k = "/info" \/ k = "/health" \/ k = "/".
Proof.
  unfold the_mux; cbn [m].
  rewrite !lookup_insert_is_Some, lookup_empty. intros H.
  destruct H as [H|[_ [H|[_ [H|[_ [H|[_ H]]]]]]]]; auto.
  by destruct H.
Qed.

Lemma the_mux_slash_key (c : string) :
  is_Some (m the_mux' !! (c +:+ "/")) -> c = EmptyString.
Proof.
  intros H%the_mux_keys. pose proof (last_byte_app_slash c) as Hl.
  destruct H as [H|[H|[H|H]]]; rewrite H in Hl; try discriminate Hl.
  by apply app_slash_is_slash.
Qed.

Lemma string_app_empty (a b : string) : a +:+ b = EmptyString -> b = EmptyString.
Proof. destruct a; [done | discriminate]. Qed.

Lemma shouldRedirect_false (host path : string) :
  shouldRedirect the_mux' host path = false.
Proof.
  unfold shouldRedirect. case_bool_decide; [done|].
  case_decide as Hlen; [done|]. case_bool_decide as Hex; [|done].
  exfalso. apply Hlen. rewrite !Exists_cons, Exists_nil in Hex.
  destruct Hex as [Hc|[Hc|[]]]; apply the_mux_slash_key in Hc.
  - by rewrite Hc.
  - apply string_app_empty in Hc. by rewrite Hc.
Qed.

Lemma sent_not_head (r : Request) (resp : Response) :
  Method r <> "HEAD" -> sent r resp = resp.
Proof. intros Hm. unfold sent. by rewrite decide_False. Qed.

Lemma sent_status (r : Request) (resp : Response) :
  StatusCode (sent r resp) = StatusCode resp.
Proof. unfold sent. by case_decide. Qed.

Lemma sent_header (r : Request) (resp : Response) :
  Header (sent r resp) = Header resp.
Proof. unfold sent. by case_decide. Qed.

Lemma deliver_not_head (r : Request) (o : option (Response * World)) :
  Method r <> "HEAD" -> deliver r o = o.
Proof.
  intros Hm. destruct o as [[resp w]|]; [|done].
  unfold deliver. cbn [mbind option_bind]. by rewrite sent_not_head.
Qed.

Lemma deliver_Some (r : Request) (o : option (Response * World))
    (resp : Response) (w : World) :
  deliver r o = Some (resp, w) ->
  exists resp', o = Some (resp', w) /\ resp = sent r resp'.
Proof.
  destruct o as [[resp' w']|]; [|done]. intros [= <- <-]. by eexists.
Qed.

Lemma deliver_post (r : Request) (o : option (Response * World)) :
  Method r = MethodPost -> deliver r o = o.
Proof. intros Hm. apply deliver_not_head. by rewrite Hm. Qed.

Lemma serve_unfold (r : Request) (w : World) :
  RequestURI r <> "*" ->
  serve' r w
  = deliver r (run (mux_Handler World url_Parse stripHostPort the_mux' r r) w).
Proof.
  intros Huri. unfold serve. rewrite DefaultServeMux_eq. cbn [mbind option_bind].
  rewrite (bool_decide_eq_false_2 _ Huri). cbn [andb].
  unfold ServeMux_ServeHTTP. by rewrite decide_False by done.
Qed.

Lemma mux_handler_key (host path : string) (e : muxEntry World) :
  m the_mux' !! path = Some e -> mux_handler the_mux' host path = h e.
Proof. intros He. unfold mux_handler, mux_match. unfold the_mux in *; cbn [hosts m] in *. by rewrite He. Qed.

Lemma route_key (r : Request) (e : muxEntry World) :
  m the_mux' !! URL_Path r = Some e ->
  cleanPath (URL_Path r) = URL_Path r ->
  mux_Handler World url_Parse stripHostPort the_mux' r = h e.
Proof.
  intros He Hc. unfold mux_Handler. rewrite !shouldRedirect_false, Hc.
  destruct (decide (Method r = "CONNECT")); [by apply mux_handler_key|].
  rewrite decide_False by (intros H; by apply H). by apply mux_handler_key.
Qed.

Lemma route_execute (r : Request) :
  URL_Path r = "/execute" ->
  mux_Handler World url_Parse stripHostPort the_mux' r = executeHandler'.
Proof.
  intros Hp. rewrite (route_key r {| h := executeHandler'; pattern := "/execute" |});
    [done | by rewrite Hp | by rewrite Hp].
Qed.


Lemma executeHandler_not_post (r : Request) :
  Method r <> MethodPost ->
  executeHandler' r = http_Error "Method not allowed" StatusMethodNotAllowed.
Proof. intros Hm. unfold executeHandler. by rewrite decide_True. Qed.

Lemma executeHandler_bad_body (r : Request) (err : string) :
  Method r = MethodPost ->
  json_Decode_ExecuteRequest (Body r) = inl err ->
  executeHandler' r =
    http_Error ("Invalid request body: " +:+ err) StatusBadRequest.
Proof.
  intros Hm Hd. unfold executeHandler.
  rewrite decide_False by (intros H; by apply H). by rewrite Hd.
Qed.

Lemma run_executeHandler_failure (r : Request) (req : ExecuteRequest)
    (msg : string) (w w' : World) :
  Method r = MethodPost ->
  json_Decode_ExecuteRequest (Body r) = inr req ->
  Execute' (Prompt (Input req)) (Context (Input req)) w = Some (inl msg, w') ->
  run (executeHandler' r) w = Some (error_response msg, w').
Proof.
  intros Hm Hd He. unfold executeHandler.
  rewrite decide_False by (intros H; by apply H). rewrite Hd.
  unfold run, mbind at 2, SM_bind, lift. cbn [st_world st_w]. rewrite He.
  reflexivity.
Qed.


Local Abbreviation buildUserMessage' :=
  (buildUserMessage World map_range fmt_v).
Local Abbreviation CreateMessage' :=
  (CreateMessage World http_Do json_Marshal_ClaudeRequest
     json_Unmarshal_ClaudeResponse).

Lemma buildUserMessage_returns (prompt : string)
    (context : option (gmap string any)) (w : World) :
  exists msg w', buildUserMessage' prompt context w = Some (msg, w').
Proof.
  unfold buildUserMessage. destruct context as [c|]; [|by eexists _, _].
  case_decide; [|by eexists _, _].
  unfold mbind, SM_bind, in_world. destruct (map_range c w) as [l w'].
  by eexists _, _.
Qed.

Lemma CreateMessage_returns (c : ClaudeClient) (system msg : string) (w : World) :
  exists res w', CreateMessage' c system msg w = Some (res, w').
Proof.
  unfold CreateMessage.
  destruct (json_Marshal_ClaudeRequest _) as [e|data]; [by eexists _, _|].
  cbn [http_NewRequest]. unfold mbind, SM_bind, in_world.
  destruct (http_Do _ _ w) as [[e|resp] w']; [by eexists _, _|].
  destruct (raw_Body resp) as [e|body]; [by eexists _, _|].
  case_decide; [by eexists _, _|].
  destruct (json_Unmarshal_ClaudeResponse body); by eexists _, _.
Qed.


Lemma Execute_returns (prompt : string) (context : option (gmap string any))
    (w : World) :
  exists res w',
    Execute' prompt context w = Some (res, w') /\
    match res with
    | inl _ => True
    | inr d => exists result cost duration model input output,
                 d = result_data result cost duration model input output
    end.
Proof.
  unfold Execute. unfold mbind at 1, SM_bind at 1, in_world at 1.
  destruct (time_Now w) as [t0 w0].
  unfold mbind at 1, SM_bind at 1.
  destruct (buildUserMessage_returns prompt context w0) as (msg & w1 & ->).
  unfold mbind at 1, SM_bind at 1.
  destruct (CreateMessage_returns (client agent) buildSystemPrompt msg w1)
    as (res & w2 & ->).
  destruct res as [e|response]; [by eexists _, _|].
  unfold mbind at 1, SM_bind at 1.
  assert (exists text,
    (if decide (0 < length (ClaudeResponse_Content response))%nat
     then c ← assert (ClaudeResponse_Content response !! 0%nat); mret (Text c)
     else mret EmptyString) w2 = Some (text, w2)) as [text ->].
  { destruct (ClaudeResponse_Content response) as [|c l]; [by eexists|].
    rewrite decide_True by (simpl; lia). by eexists. }
  unfold parseResult. rewrite cleanText_attempted. cbn [mbind option_bind].
  unfold mbind, SM_bind, in_world.
  destruct (json_Unmarshal_map (attempted text)) as [e|jsonResult];
    cbn [assert mret SM_ret]; destruct (time_Now w2) as [t1 w3];
    eexists _, _; (split; [reflexivity|]); by eexists _, _, _, _, _, _.
Qed.

Lemma marshal_no_error (r : ExecuteResponse) (j : json) :
  Error r = None -> marshal_ExecuteResponse r = Some j -> member "error" j = None.
Proof.
  intros He. unfold marshal_ExecuteResponse. rewrite He.
  destruct (marshal_any (Result r)) as [a|]; [|done].
  destruct (marshal_ResultMetadata _) as [b|]; [|done].
  intros [= <-]. reflexivity.
Qed.


Lemma run_executeHandler (r : Request) (w : World) :
  exists resp w', run (executeHandler' r) w = Some (resp, w') /\ execute_reply resp.
Proof.
  destruct (decide (Method r = MethodPost)) as [Hm|Hm].
  2:{ rewrite executeHandler_not_post by done. eexists _, _.
      split; [apply run_http_Error | by left]. }
  destruct (json_Decode_ExecuteRequest (Body r)) as [err|req] eqn:Hd.
  { rewrite (executeHandler_bad_body _ err) by done. eexists _, _.
    split; [apply run_http_Error | right; left; by eexists]. }
  destruct (Execute_returns (Prompt (Input req)) (Context (Input req)) w)
    as (res & w' & He & Hres).
  destruct res as [msg|d].
  { eexists _, _. split; [by eapply run_executeHandler_failure|].
    right; right; left; by eexists. }
  destruct Hres as (result & cost & duration & model & input & output & ->).
  unfold executeHandler. rewrite decide_False by (intros H; by apply H).
  rewrite Hd. unfold run, mbind at 2, SM_bind, lift. cbn [st_world st_w].
  rewrite He.
  replace (result_data result cost duration model input output !! "tokensUsed")
    with (Some (AMapInt (list_to_map [ ("input", input); ("output", output) ])))
    by reflexivity.
  replace (result_data result cost duration model input output !! "cost")
    with (Some (AFloat64 cost)) by reflexivity.
  replace (result_data result cost duration model input output !! "duration")
    with (Some (AInt64 duration)) by reflexivity.
  replace (result_data result cost duration model input output !! "model")
    with (Some (AString model)) by reflexivity.
  replace (result_data result cost duration model input output !! "result")
    with (Some result) by reflexivity.
  cbn [as_map_int as_float64 as_int64 as_string assert default].
  unfold mbind, SM_bind, mret, SM_ret. cbn beta iota.
  match goal with
  | |- context [marshal_ExecuteResponse ?x] =>
      pose proof (marshal_no_error x) as Hne;
      destruct (marshal_ExecuteResponse x) as [j|]
  end.
  - eexists _, _. split; [reflexivity|]. right; right; right.
    split; [done|]. split; [done|]. right. exists j. split; [done|].
    by apply Hne.
  - eexists _, _. split; [reflexivity|]. right; right; right.
    split; [done|]. split; [done|]. by left.
Qed.


Lemma serve_execute (r : Request) (w : World) :
  URL_Path r = "/execute" -> RequestURI r <> "*" ->
  serve' r w = deliver r (run (executeHandler' r) w).
Proof. intros Hp Hu. by rewrite serve_unfold, route_execute. Qed.


(** C7.  For every POST /execute request whose body decodes and whose
    orchestrator call fails with a message, the answer has status 500 and
    the JSON body whose [result] is null, whose [metadata] has [cost] 0
    and [duration] 0 and nothing else, and whose [error] is the message:
    an error and no result. *)
Theorem execute_failure_envelope (r : Request) (req : ExecuteRequest)
    (msg : string) (w w' : World) :
  URL_Path r = "/execute" -> RequestURI r <> "*" ->
  Method r = MethodPost ->
  json_Decode_ExecuteRequest (Body r) = inr req ->
  Execute' (Prompt (Input req)) (Context (Input req)) w = Some (inl msg, w') ->
  serve' r w = Some (error_response msg, w')
  /\ StatusCode (error_response msg) = 500
  /\ json_reply (error_response msg)
  /\ member "result" (error_envelope msg) = Some JNull
  /\ member "metadata" (error_envelope msg) =
       Some (JObject (list_to_map [ ("cost", JNumber (S754_zero false));
                                    ("duration", JInteger 0) ]))
  /\ member "error" (error_envelope msg) = Some (JString msg).
Proof.
  intros Hp Hu Hm Hd He. rewrite serve_execute, deliver_post by done. split.
  - by eapply run_executeHandler_failure.
  - repeat split. by eexists.
Qed.

Lemma run_healthHandler (r : Request) (w : World) :
  exists resp w',
    run (healthHandler time_Now r) w = Some (resp, w')
    /\ StatusCode resp = 200 /\ json_reply_or_empty resp.
Proof.
  unfold run, healthHandler, mbind at 2, SM_bind, Header_Set, on_writer.
  unfold mbind at 2, SM_bind, lift, in_world. cbn [st_world st_w].
  destruct (time_Now w) as [now w'].
  destruct (marshal_HealthResponse
              {| HealthResponse_Status := "healthy";
                 Timestamp := of_int (unix now) |}) as [j|].
  - eexists _, _. split; [reflexivity|]. split; [done|]. split; [done|].
    right. by eexists.
  - eexists _, _. split; [reflexivity|]. split; [done|]. split; [done|].
    by left.
Qed.

Lemma run_infoHandler (r : Request) (w : World) :
  exists resp,
    run (infoHandler r) w = Some (resp, w)
    /\ StatusCode resp = 200 /\ json_reply resp.
Proof.
  eexists. split; [vm_compute; reflexivity|]. split; [done|]. split; [done|].
  by eexists.
Qed.

Lemma execute_reply_status (resp : Response) :
  execute_reply resp ->
  StatusCode resp = 405 \/ StatusCode resp = 400 \/ StatusCode resp = 500
  \/ StatusCode resp = 200.
Proof.
  intros [->|[[err ->]|[[msg ->]|[H _]]]]; auto.
Qed.




Lemma path_Clean_of_rooted (p : string) :
  first_byte p = Some "/"%char -> path_Clean p = Clean_rooted p.
Proof.
  intros Hp. unfold path_Clean. rewrite decide_False by (by intros ->).
  by rewrite decide_True.
Qed.

Lemma cleanPath_unfold (p : string) :
  cleanPath p =
  if decide (p = EmptyString) then "/"
  else
    if decide (last_byte (if decide (first_byte p <> Some "/"%char)
                          then "/" +:+ p else p) = Some "/"%char
               /\ Clean_rooted (if decide (first_byte p <> Some "/"%char)
                                then "/" +:+ p else p) <> "/") then
      if bool_decide
           (String.length (if decide (first_byte p <> Some "/"%char)
                           then "/" +:+ p else p)
            = String.length
                (Clean_rooted (if decide (first_byte p <> Some "/"%char)
                               then "/" +:+ p else p)) + 1)%nat
         && strings_HasPrefix
              (if decide (first_byte p <> Some "/"%char) then "/" +:+ p else p)
              (Clean_rooted (if decide (first_byte p <> Some "/"%char)
                             then "/" +:+ p else p))
      then if decide (first_byte p <> Some "/"%char) then "/" +:+ p else p
      else Clean_rooted (if decide (first_byte p <> Some "/"%char)
                         then "/" +:+ p else p) +:+ "/"
    else Clean_rooted (if decide (first_byte p <> Some "/"%char)
                       then "/" +:+ p else p).
Proof.
  unfold cleanPath. case_decide; [done|].
  rewrite path_Clean_of_rooted; [done|].
  case_decide as Hf; done.
Qed.

Lemma Clean_rooted_rooted (p : string) : rooted (Clean_rooted p).
Proof.
  unfold Clean_rooted.
  destruct (foldl clean_step [] _) as [|e stack]; [by eexists|].
  by eexists.
Qed.

Lemma rooted_app (s t : string) : rooted s -> rooted (s +:+ t).
Proof. intros [u ->]. by eexists. Qed.

Lemma cleanPath_rooted (p : string) : rooted (cleanPath p).
Proof.
  rewrite cleanPath_unfold. case_decide; [by eexists|].
  pose proof (Clean_rooted_rooted
    (if decide (first_byte p <> Some "/"%char) then "/" +:+ p else p)) as Hnp.
  assert (rooted (if decide (first_byte p <> Some "/"%char) then "/" +:+ p else p))
    as Hp.
  { case_decide as Hf; [by eexists|]. destruct p as [|c p]; [done|].
    injection Hf as ->. by eexists. }
  set (p' := if decide (first_byte p <> Some "/"%char) then "/" +:+ p else p) in *.
  destruct (decide (last_byte p' = Some "/"%char /\ Clean_rooted p' <> "/"));
    [|done].
  destruct (_ && _); [done | by apply rooted_app].
Qed.

Lemma rooted_HasPrefix (p : string) : rooted p -> strings_HasPrefix p "/" = true.
Proof. by intros [t ->]. Qed.

Lemma mux_handler_cases (host p : string) :
  rooted p ->
  mux_handler the_mux' host p = rootHandler
  \/ mux_handler the_mux' host p = healthHandler time_Now
  \/ mux_handler the_mux' host p = infoHandler
  \/ mux_handler the_mux' host p = executeHandler'.
Proof.
  intros Hr. destruct (m the_mux' !! p) as [e|] eqn:He.
  - rewrite (mux_handler_key host p e He).
    destruct (the_mux_keys p (mk_is_Some _ _ He)) as [Hk|[Hk|[Hk|Hk]]];
      subst p; injection He as <-; auto.
  - left. unfold mux_handler, mux_match, the_mux in *. cbn [hosts m es] in *.
    rewrite He. cbn [filter list_filter pattern].
    rewrite decide_True by (apply Is_true_true, rooted_HasPrefix, Hr). done.
Qed.

Lemma mux_handler_unregistered (host p : string) :
  rooted p -> p <> "/health" -> p <> "/info" -> p <> "/execute" ->
  mux_handler the_mux' host p = rootHandler.
Proof.
  intros Hr H1 H2 H3. destruct (m the_mux' !! p) as [e|] eqn:He.
  - rewrite (mux_handler_key host p e He).
    destruct (the_mux_keys p (mk_is_Some _ _ He)) as [Hk|[Hk|[Hk|Hk]]];
      subst p; [done..|]. by injection He as <-.
  - unfold mux_handler, mux_match, the_mux in *. cbn [hosts m es] in *.
    rewrite He. cbn [filter list_filter pattern].
    rewrite decide_True by (apply Is_true_true, rooted_HasPrefix, Hr). done.
Qed.

Lemma run_RedirectHandler (url : string) (code : Z) (r : Request) (w : World) :
  exists resp,
    run (RedirectHandler url_Parse url code r) w = Some (resp, w)
    /\ StatusCode resp = code
    /\ Header resp !! "Location"
       = Some (hexEscapeNonASCII (redirect_url url_Parse r url))
    /\ Header resp !! "Content-Type" <> Some "application/json"
    /\ forall j, Encoded j ∉ ResponseBody resp.
Proof.
  unfold run, RedirectHandler. cbn [st_w newResponseWriter header].
  rewrite lookup_empty.
  rewrite (bool_decide_eq_false_2 (is_Some None)) by (by intros [? [=]]).
  cbn [negb andb].
  destruct (bool_decide (Method r = "GET")), (bool_decide (Method r = "HEAD"));
    eexists; (split; [reflexivity|]); (split; [done|]);
    (split; [reflexivity|]); (split; [done|]); intros j; cbn;
    first [ apply not_elem_of_nil
          | intros ?%list_elem_of_singleton; discriminate ].
Qed.


End ServerProperties.

Section Timeout.

Context {World : Type}.
Context (time_Now : World -> Time * World).
Context (http_Do http_Do2 : Z -> OutRequest -> World -> (string + RawResponse) * World).
Context (map_range : gmap string any -> World -> list (string * any) * World).
Context (json_Decode_ExecuteRequest : string -> string + ExecuteRequest).
Context (json_Marshal_ClaudeRequest : ClaudeRequest -> string + string).
Context (json_Unmarshal_ClaudeResponse : string -> string + ClaudeResponse).
Context (json_Unmarshal_map : string -> string + option (gmap string any)).
Context (fmt_v : any -> string).
Context (agent : GoAgent).
Context (url_Parse : string -> option (string * string)).
Context (stripHostPort : string -> string).

Local Abbreviation executeHandler_with Do :=
  (executeHandler World time_Now Do map_range json_Decode_ExecuteRequest
     json_Marshal_ClaudeRequest json_Unmarshal_ClaudeResponse
     json_Unmarshal_map fmt_v agent).
Local Abbreviation Execute_with Do :=
  (Execute World time_Now Do map_range json_Marshal_ClaudeRequest
     json_Unmarshal_ClaudeResponse json_Unmarshal_map fmt_v agent).
Local Abbreviation serve_with Do :=
  (serve World time_Now Do map_range json_Decode_ExecuteRequest
     json_Marshal_ClaudeRequest json_Unmarshal_ClaudeResponse
     json_Unmarshal_map fmt_v agent url_Parse stripHostPort).

(** The only timeout the upstream call is ever made with is 60 seconds. *)
Hypothesis same_at_60 : forall req w, http_Do2 60 req w = http_Do 60 req w.

Lemma CreateMessage_timeout (c : ClaudeClient) (system msg : string) (w : World) :
  CreateMessage World http_Do2 json_Marshal_ClaudeRequest
    json_Unmarshal_ClaudeResponse c system msg w =
  CreateMessage World http_Do json_Marshal_ClaudeRequest
    json_Unmarshal_ClaudeResponse c system msg w.
Proof.
  unfold CreateMessage.
  destruct (json_Marshal_ClaudeRequest _) as [e|data]; [done|].
  cbn [http_NewRequest]. unfold mbind, SM_bind, in_world.
  by rewrite same_at_60.
Qed.

Lemma Execute_timeout (prompt : string) (context : option (gmap string any))
    (w : World) :
  Execute_with http_Do2 prompt context w = Execute_with http_Do prompt context w.
Proof.
  unfold Execute, mbind, SM_bind.
  destruct (in_world time_Now w) as [[t0 w0]|]; [|done].
  destruct (buildUserMessage World map_range fmt_v prompt context w0)
    as [[msg w1]|]; [|done].
  by rewrite CreateMessage_timeout.
Qed.

Lemma executeHandler_timeout (r : Request) (st : St World) :
  executeHandler_with http_Do2 r st = executeHandler_with http_Do r st.
Proof.
  unfold executeHandler. case_decide; [done|].
  destruct (json_Decode_ExecuteRequest (Body r)) as [e|req]; [done|].
  unfold mbind, SM_bind, lift. by rewrite Execute_timeout.
Qed.

End Timeout.

Section Metadata.

Context {World : Type}.
Context (time_Now : World -> Time * World).
Context (http_Do : Z -> OutRequest -> World -> (string + RawResponse) * World).
Context (map_range : gmap string any -> World -> list (string * any) * World).
Context (json_Decode_ExecuteRequest : string -> string + ExecuteRequest).
Context (json_Marshal_ClaudeRequest : ClaudeRequest -> string + string).
Context (json_Unmarshal_ClaudeResponse : string -> string + ClaudeResponse).
Context (json_Unmarshal_map : string -> string + option (gmap string any)).
Context (fmt_v : any -> string).
Context (agent : GoAgent).
Context (url_Parse : string -> option (string * string)).
Context (stripHostPort : string -> string).

Local Abbreviation executeHandler_with Do :=
  (executeHandler World time_Now Do map_range json_Decode_ExecuteRequest
     json_Marshal_ClaudeRequest json_Unmarshal_ClaudeResponse
     json_Unmarshal_map fmt_v agent).
Local Abbreviation serve_with Do :=
  (serve World time_Now Do map_range json_Decode_ExecuteRequest
     json_Marshal_ClaudeRequest json_Unmarshal_ClaudeResponse
     json_Unmarshal_map fmt_v agent url_Parse stripHostPort).

Lemma executeHandler_same_input (r : Request) (body2 : string)
    (q1 q2 : ExecuteRequest) :
  json_Decode_ExecuteRequest (Body r) = inr q1 ->
  json_Decode_ExecuteRequest body2 = inr q2 ->
  Input q1 = Input q2 ->
  executeHandler_with http_Do (with_body r body2) = executeHandler_with http_Do r.
Proof.
  intros H1 H2 Hin. unfold executeHandler. cbn [with_body Method Body].
  case_decide; [done|]. by rewrite H1, H2, Hin.
Qed.

(** C9.  Two POST /execute requests that differ only in their bodies,
    where both bodies decode and the decoded requests have the same input
    (so they differ in the metadata only: request id, user id, timeout),
    get identical responses in the same world.  And the upstream call is
    only ever made with the 60 second timeout: two transports that agree
    at that timeout give identical responses. *)
Theorem metadata_has_no_effect (r : Request) (body2 : string)
    (q1 q2 : ExecuteRequest) (w : World) :
  URL_Path r = "/execute" -> RequestURI r <> "*" -> Method r = MethodPost ->
  json_Decode_ExecuteRequest (Body r) = inr q1 ->
  json_Decode_ExecuteRequest body2 = inr q2 ->
  Input q1 = Input q2 ->
  serve_with http_Do (with_body r body2) w = serve_with http_Do r w
  /\ (forall http_Do2,
        (forall req w0, http_Do2 60 req w0 = http_Do 60 req w0) ->
        serve_with http_Do2 r w = serve_with http_Do r w).
Proof.
  intros Hp Hu Hm H1 H2 Hin. split.
  - rewrite !serve_execute by done.
    by rewrite (executeHandler_same_input r body2 q1 q2).
  - intros http_Do2 H60. rewrite !serve_execute by done. unfold run.
    by rewrite (executeHandler_timeout time_Now http_Do http_Do2).
Qed.

End Metadata.


Lemma metadata_has_no_effect_witness :
  mock_serve upstream_ok (with_body (request "POST" "/execute" "good") "good30")
    mock_world
  = mock_serve upstream_ok (request "POST" "/execute" "good") mock_world
  /\ (forall http_Do2,
        (forall req w0, http_Do2 60 req w0 = mock_Do upstream_ok 60 req w0) ->
        serve MockWorld mock_Now http_Do2 mock_range mock_Decode mock_Marshal
          mock_Unmarshal_ClaudeResponse mock_Unmarshal_map mock_fmt_v mock_agent
          mock_Parse id (request "POST" "/execute" "good") mock_world
        = mock_serve upstream_ok (request "POST" "/execute" "good") mock_world).
Proof.
  apply (metadata_has_no_effect mock_Now (mock_Do upstream_ok) mock_range
           mock_Decode mock_Marshal mock_Unmarshal_ClaudeResponse
           mock_Unmarshal_map mock_fmt_v mock_agent mock_Parse id
           (request "POST" "/execute" "good") "good30"
           (mock_request 1000) (mock_request 30000) mock_world);
    [reflexivity | discriminate | reflexivity | reflexivity | reflexivity
    | reflexivity].
Defined.


Lemma execute_failure_envelope_witness :
  mock_serve upstream_down (request "POST" "/execute" "good") mock_world
  = Some (error_response
            "Claude API call failed: failed to send request: context deadline exceeded",
          {| calls := 1; clock := 5000000 |}).
Proof.
  apply (execute_failure_envelope mock_Now (mock_Do upstream_down) mock_range
           mock_Decode mock_Marshal mock_Unmarshal_ClaudeResponse
           mock_Unmarshal_map mock_fmt_v mock_agent mock_Parse id
           (request "POST" "/execute" "good") (mock_request 1000));
    [reflexivity | discriminate | reflexivity | reflexivity | reflexivity].
Defined.


(** C8 as stated fails.  The answer to GET /execute is the plain text of
    [http.Error], with Content-Type text/plain, not a JSON body. *)
Lemma rejection_is_plain_text :
  mock_serve upstream_ok (request "GET" "/execute" "") mock_world
  = Some (plain_error "Method not allowed" 405, mock_world)
  /\ Header (plain_error "Method not allowed" 405) !! "Content-Type"
     = Some "text/plain; charset=utf-8"
  /\ ~ json_reply (plain_error "Method not allowed" 405).
Proof.
  split; [vm_compute; reflexivity|]. split; [reflexivity|].
  intros [H _]. vm_compute in H. discriminate H.
Qed.

(** C10 as stated fails.  GET //health is not served by the root handler:
    the multiplexer redirects it (301) to /health.  And a CONNECT request
    in authority form has an empty path, which no pattern matches: 404. *)
Lemma unclean_path_is_redirected :
  (exists resp,
     mock_serve upstream_ok (request "GET" "//health" "") mock_world
     = Some (resp, mock_world)
     /\ StatusCode resp = 301
     /\ Header resp !! "Location" = Some "/health"
     /\ resp <> root_response)
  /\ (exists resp,
        mock_serve upstream_ok (request "CONNECT" "" "") mock_world
        = Some (resp, mock_world)
        /\ StatusCode resp = 404).
Proof.
  split; eexists; (split; [vm_compute; reflexivity|]).
  - split; [reflexivity|]. split; [reflexivity | discriminate].
  - reflexivity.
Qed.

(** ** Cost accounting: binary64 rounding *)

Lemma fexp_eq (e : Z) : fexp prec emax e = Z.max (e - 53) (-1074).
Proof. reflexivity. Qed.

Lemma digits2_pos_spec (p : positive) :
  2 ^ (Z.pos (digits2_pos p) - 1) <= Z.pos p < 2 ^ Z.pos (digits2_pos p).
Proof.
  induction p as [p IH|p IH|]; cbn [digits2_pos].
  - rewrite Pos2Z.inj_succ, Z.pow_succ_r by lia.
    replace (Z.succ (Z.pos (digits2_pos p)) - 1) with (Z.succ (Z.pos (digits2_pos p) - 1)) by lia.
    rewrite Z.pow_succ_r by lia. lia.
  - rewrite Pos2Z.inj_succ, Z.pow_succ_r by lia.
    replace (Z.succ (Z.pos (digits2_pos p)) - 1) with (Z.succ (Z.pos (digits2_pos p) - 1)) by lia.
    rewrite Z.pow_succ_r by lia. lia.
  - simpl. lia.
Qed.

Lemma Zdigits2_spec (m : Z) :
  0 < m -> 2 ^ (Zdigits2 m - 1) <= m < 2 ^ Zdigits2 m.
Proof. destruct m as [|p|p]; [lia | intros _; apply digits2_pos_spec | lia]. Qed.

Lemma Zdigits2_pos (m : Z) : 0 < m -> 0 < Zdigits2 m.
Proof. destruct m; simpl; lia. Qed.

(** The number of digits is the only exponent that brackets [m]. *)
Lemma Zdigits2_unique (m d : Z) :
  0 < m -> 2 ^ (d - 1) <= m < 2 ^ d -> Zdigits2 m = d.
Proof.
  intros Hm [H1 H2]. pose proof (Zdigits2_spec m Hm) as [H3 H4].
  pose proof (Zdigits2_pos m Hm).
  assert (0 < d).
  { destruct (Z_lt_le_dec 0 d) as [|Hd]; [done|]. assert (2 ^ d <= 1); [|lia].
    destruct (Z.eq_dec d 0) as [->|]; [simpl; lia|].
    rewrite Z.pow_neg_r by lia; lia. }
  destruct (Z.lt_trichotomy (Zdigits2 m) d) as [Hlt|[Heq|Hgt]]; [|done|].
  - assert (2 ^ Zdigits2 m <= 2 ^ (d - 1)) by (apply Z.pow_le_mono_r; lia). lia.
  - assert (2 ^ d <= 2 ^ (Zdigits2 m - 1)) by (apply Z.pow_le_mono_r; lia). lia.
Qed.

Lemma shr_1_eq (q : Z) (rb sb : bool) :
  0 <= q ->
  shr_1 {| shr_m := q; shr_r := rb; shr_s := sb |} =
  {| shr_m := q / 2; shr_r := Z.odd q; shr_s := rb || sb |}.
Proof.
  intros Hq. destruct q as [|p|p]; [reflexivity| |lia].
  destruct p as [p|p|]; cbn [shr_1 Z.odd]; f_equal.
  - rewrite Pos2Z.inj_xI. apply Z.div_unique with 1; lia.
  - rewrite Pos2Z.inj_xO. apply Z.div_unique with 0; lia.
Qed.

Lemma div_mod_2K (N K : Z) :
  0 <= N -> 0 < K ->
  N / (2 * K) = (N / K) / 2 /\
  N mod (2 * K) = K * ((N / K) mod 2) + N mod K.
Proof.
  intros HN HK. split.
  - rewrite (Z.mul_comm 2 K). by rewrite Z.div_div by lia.
  - rewrite (Z.mul_comm 2 K). rewrite Z.rem_mul_r by lia. lia.
Qed.

Lemma shr_1_ideal (N K : Z) :
  0 <= N -> 0 < K -> shr_1 (ideal N K) = ideal N (2 * K).
Proof.
  intros HN HK. unfold ideal. rewrite shr_1_eq by (apply Z.div_pos; lia).
  destruct (div_mod_2K N K HN HK) as [-> ->].
  pose proof (Z.mod_pos_bound N K HK) as Hr.
  rewrite (Zmod_odd (N / K)).
  destruct (Z.odd (N / K)); f_equal.
  - symmetry. apply Z.leb_le. lia.
  - destruct (Z.leb_spec K (2 * (N mod K))), (Z.eqb_spec (N mod K) 0),
      (Z.eqb_spec (2 * (N mod K)) K),
      (Z.eqb_spec (K * 1 + N mod K) 0),
      (Z.eqb_spec (2 * (K * 1 + N mod K)) (2 * K)); simpl; lia.
  - symmetry. apply Z.leb_gt. lia.
  - destruct (Z.leb_spec K (2 * (N mod K))), (Z.eqb_spec (N mod K) 0),
      (Z.eqb_spec (2 * (N mod K)) K),
      (Z.eqb_spec (K * 0 + N mod K) 0),
      (Z.eqb_spec (2 * (K * 0 + N mod K)) (2 * K)); simpl; lia.
Qed.

Lemma pow2_xO (p : positive) : 2 ^ Z.pos p~0 = 2 ^ Z.pos p * 2 ^ Z.pos p.
Proof.
  replace (Z.pos p~0) with (Z.pos p + Z.pos p) by lia.
  apply Z.pow_add_r; lia.
Qed.

Lemma pow2_xI (p : positive) : 2 ^ Z.pos p~1 = 2 * (2 ^ Z.pos p * 2 ^ Z.pos p).
Proof.
  replace (Z.pos p~1) with (1 + (Z.pos p + Z.pos p)) by lia.
  rewrite !Z.pow_add_r by lia. reflexivity.
Qed.

Lemma iter_pos_ideal (p : positive) (N K : Z) :
  0 <= N -> 0 < K ->
  iter_pos shr_1 p (ideal N K) = ideal N (2 ^ Z.pos p * K).
Proof.
  intros HN. revert K. induction p as [p IH|p IH|]; intros K HK; cbn [iter_pos].
  - assert (0 < 2 ^ Z.pos p) by lia.
    rewrite shr_1_ideal, IH, IH by nia. f_equal. rewrite pow2_xI. lia.
  - assert (0 < 2 ^ Z.pos p) by lia.
    rewrite IH, IH by nia. f_equal. rewrite pow2_xO. lia.
  - by apply shr_1_ideal.
Qed.

Lemma shr_ideal (N K e n : Z) :
  0 <= N -> 0 < K -> 0 <= n ->
  shr (ideal N K) e n = (ideal N (2 ^ n * K), e + n).
Proof.
  intros HN HK Hn. destruct n as [|p|p]; [|by unfold shr; rewrite iter_pos_ideal|lia].
  unfold shr. by rewrite Z.add_0_r, Z.pow_0_r, Z.mul_1_l.
Qed.

Lemma round_ideal (N K : Z) :
  0 < K ->
  round_nearest_even (shr_m (ideal N K)) (loc_of_shr_record (ideal N K)) = rne N K.
Proof.
  intros HK. unfold ideal, rne, loc_of_shr_record, round_nearest_even.
  cbn [shr_m shr_r shr_s].
  pose proof (Z.mod_pos_bound N K HK) as Hr.
  destruct (Z.compare_spec (2 * (N mod K)) K) as [Hc|Hc|Hc];
    destruct (Z.leb_spec K (2 * (N mod K))); try lia;
    destruct (Z.eqb_spec (N mod K) 0); try lia;
    destruct (Z.eqb_spec (2 * (N mod K)) K); try lia; reflexivity.
Qed.

Lemma shr_record_exact (m : Z) : shr_record_of_loc m loc_Exact = ideal m 1.
Proof.
  unfold ideal. rewrite Z.div_1_r, Z.mod_1_r. reflexivity.
Qed.

Lemma rne_exact (m : Z) : rne m 1 = m.
Proof. unfold rne. by rewrite Z.div_1_r, Z.mod_1_r. Qed.

Lemma rne_between (N K : Z) : 0 < K -> N / K <= rne N K <= N / K + 1.
Proof.
  intros HK. unfold rne.
  destruct (2 * (N mod K) ?= K); [destruct (Z.even (N / K))|..]; lia.
Qed.

Lemma rne_multiple (j K : Z) : 0 < K -> rne (j * K) K = j.
Proof.
  intros HK. unfold rne. rewrite Z.mod_mul, Z.div_mul by lia.
  replace (2 * 0) with 0 by lia. by destruct K.
Qed.

Lemma rne_mono (N N' K : Z) : 0 < K -> N <= N' -> rne N K <= rne N' K.
Proof.
  intros HK HN.
  pose proof (Z.div_le_mono N N' K HK HN) as Hq.
  pose proof (Z.mod_pos_bound N K HK) as Hr.
  pose proof (Z.mod_pos_bound N' K HK) as Hr'.
  pose proof (Z.div_mod N K ltac:(lia)) as E.
  pose proof (Z.div_mod N' K ltac:(lia)) as E'.
  destruct (Z.eq_dec (N / K) (N' / K)) as [Heq|Hne].
  - unfold rne. rewrite <- Heq in *.
    assert (N mod K <= N' mod K) by lia.
    destruct (Z.compare_spec (2 * (N mod K)) K),
      (Z.compare_spec (2 * (N' mod K)) K); destruct (Z.even (N / K)); lia.
  - pose proof (rne_between N K HK). pose proof (rne_between N' K HK). lia.
Qed.

Lemma rne_scale (t N K : Z) : 0 < t -> 0 < K -> rne (t * N) (t * K) = rne N K.
Proof.
  intros Ht HK. unfold rne.
  rewrite Z.mul_mod_distr_l, Z.div_mul_cancel_l by lia.
  replace (2 * (t * (N mod K))) with (t * (2 * (N mod K))) by lia.
  by rewrite <- Zmult_compare_compat_l by lia.
Qed.

Lemma rne_cross (N K N' K' : Z) :
  0 < K -> 0 < K' -> N * K' = N' * K -> rne N K = rne N' K'.
Proof.
  intros HK HK' E.
  rewrite <- (rne_scale K' N K), <- (rne_scale K N' K') by lia.
  f_equal; lia.
Qed.

Lemma rneQ_proper (x y : Q) : (x == y)%Q -> rneQ x = rneQ y.
Proof. intros E. apply rne_cross; [lia..|exact E]. Qed.

Lemma rneQ_mono (x y : Q) : (x <= y)%Q -> rneQ x <= rneQ y.
Proof.
  intros H. unfold rneQ, Qle in *.
  rewrite <- (rne_scale (Z.pos (Qden y)) (Qnum x)), <- (rne_scale (Z.pos (Qden x)) (Qnum y)) by lia.
  replace (Z.pos (Qden y) * Z.pos (Qden x)) with (Z.pos (Qden x) * Z.pos (Qden y)) by lia.
  apply rne_mono; lia.
Qed.

Lemma rneQ_inject (z : Z) : rneQ (inject_Z z) = z.
Proof. apply rne_exact. Qed.

Lemma rneQ_frac (N K : Z) : 0 < K -> rneQ (inject_Z N / inject_Z K) = rne N K.
Proof.
  intros HK. destruct K as [|p|p]; [lia| |lia].
  unfold rneQ. cbn. rewrite Z.mul_1_r. reflexivity.
Qed.

Lemma pow2_pos (e : Z) : (0 < pow2 e)%Q.
Proof. by apply Qpower_0_lt. Qed.

Lemma pow2_add (a b : Z) : (pow2 (a + b) == pow2 a * pow2 b)%Q.
Proof. by apply Qpower_plus. Qed.

Lemma pow2_le (a b : Z) : a <= b -> (pow2 a <= pow2 b)%Q.
Proof. intros H. by apply Qpower_le_compat_l. Qed.

Lemma pow2_lt (a b : Z) : a < b -> (pow2 a < pow2 b)%Q.
Proof. intros H. by apply Qpower_lt_compat_l. Qed.

Lemma pow2_lt_inv (a b : Z) : (pow2 a < pow2 b)%Q -> a < b.
Proof. intros H. by apply (Qpower_lt_compat_l_inv 2). Qed.

Lemma pow2_inject (n : Z) : 0 <= n -> (inject_Z (2 ^ n) == pow2 n)%Q.
Proof. intros H. by apply Zpower_Qpower. Qed.

Lemma pow2_sub (a b : Z) : (pow2 (a - b) == pow2 a / pow2 b)%Q.
Proof.
  unfold Z.sub. rewrite pow2_add. unfold pow2. rewrite Qpower_opp. reflexivity.
Qed.

Lemma shr_nonpos (mrs : shr_record) (e n : Z) : n <= 0 -> shr mrs e n = (mrs, e).
Proof. intros Hn. destruct n; [done | lia | done]. Qed.

Lemma binary_round_aux_ideal (N K e mx : Z) (lx : location) :
  0 <= N -> 0 < K ->
  shr_record_of_loc mx lx = ideal N K ->
  let c := fexp prec emax (Zdigits2 mx + e) in
  e <= c -> c <= 970 ->
  rne N (2 ^ (c - e) * K) <= 2 ^ 53 ->
  binary_round_aux prec emax false mx e lx
  = round_result (rne N (2 ^ (c - e) * K)) c.
Proof.
  intros HN HK Hrec c Hec Hc970 Hm1.
  unfold binary_round_aux, shr_fexp. fold c. rewrite Hrec.
  rewrite shr_ideal by lia. replace (e + (c - e)) with c by lia.
  assert (0 < 2 ^ (c - e)) by (apply Z.pow_pos_nonneg; lia).
  rewrite round_ideal by nia.
  set (m1 := rne N (2 ^ (c - e) * K)) in *.
  assert (0 <= m1) as Hm0.
  { pose proof (rne_between N (2 ^ (c - e) * K) ltac:(nia)).
    assert (0 <= N / (2 ^ (c - e) * K)) by (apply Z.div_pos; nia). lia. }
  assert (-1074 <= c) as Hcmin by (unfold c; rewrite fexp_eq; lia).
  rewrite shr_record_exact, fexp_eq.
  destruct (Z.eq_dec m1 0) as [E0|N0].
  { rewrite E0. cbn [Zdigits2]. rewrite shr_nonpos by lia. reflexivity. }
  destruct (Z.eq_dec m1 (2 ^ 53)) as [E53|N53].
  { rewrite E53. change (Zdigits2 (2 ^ 53)) with 54.
    replace (Z.max (54 + c - 53) (-1074) - c) with 1 by lia.
    rewrite shr_ideal by lia.
    replace (shr_m (ideal (2 ^ 53) (2 ^ 1 * 1))) with (Z.pos (2 ^ 52))
      by (vm_compute; reflexivity).
    change (emax - prec) with 971.
    replace (c + 1 <=? 971) with true by (symmetry; apply Z.leb_le; lia).
    reflexivity. }
  assert (Zdigits2 m1 <= 53) as Hd.
  { pose proof (Zdigits2_spec m1 ltac:(lia)) as [Hd1 _].
    destruct (Z_lt_le_dec 53 (Zdigits2 m1)) as [Hgt|]; [|done].
    assert (2 ^ 53 <= 2 ^ (Zdigits2 m1 - 1)) by (apply Z.pow_le_mono_r; lia).
    lia. }
  rewrite shr_nonpos by lia. unfold ideal. rewrite Z.div_1_r. cbn [fst snd shr_m].
  unfold round_result. destruct m1 as [|p|p]; [lia| |lia].
  replace (Z.pos p =? 2 ^ 53) with false by (symmetry; apply Z.eqb_neq; lia).
  change (emax - prec) with 971.
  replace (c <=? 971) with true by (symmetry; apply Z.leb_le; lia).
  reflexivity.
Qed.

Lemma bounded_iff (m : positive) (e : Z) :
  bounded prec emax m e = true <->
  Z.max (Z.pos (digits2_pos m) + e - 53) (-1074) = e /\ e <= 971.
Proof.
  unfold bounded, canonical_mantissa. rewrite andb_true_iff, Z.eqb_eq, Z.leb_le.
  rewrite fexp_eq. reflexivity.
Qed.

Lemma to_Q_finite (m : positive) (e : Z) :
  to_Q (S754_finite false m e) = (inject_Z (Z.pos m) * pow2 e)%Q.
Proof. reflexivity. Qed.

Lemma round_result_valid (m1 c : Z) :
  0 <= m1 <= 2 ^ 53 -> -1074 <= c <= 970 ->
  (m1 = 0 \/ c = -1074 \/ 2 ^ 52 <= m1) ->
  valid_nonneg (round_result m1 c).
Proof.
  intros Hm Hc Hcan. unfold round_result.
  destruct m1 as [|p|p]; [done| |lia].
  destruct (Z.eqb_spec (Z.pos p) (2 ^ 53)) as [E|NE].
  - cbn [valid_nonneg]. apply bounded_iff.
    change (Z.pos (digits2_pos (2 ^ 52))) with 53. lia.
  - cbn [valid_nonneg]. apply bounded_iff.
    pose proof (digits2_pos_spec p) as [H1 H2].
    assert (Z.pos (digits2_pos p) <= 53).
    { destruct (Z_lt_le_dec 53 (Z.pos (digits2_pos p))); [|done].
      assert (2 ^ 53 <= 2 ^ (Z.pos (digits2_pos p) - 1))
        by (apply Z.pow_le_mono_r; lia). lia. }
    destruct Hcan as [?|[->|H52]]; [lia|lia|].
    assert (53 <= Z.pos (digits2_pos p)).
    { destruct (Z_lt_le_dec (Z.pos (digits2_pos p)) 53); [|done].
      assert (2 ^ Z.pos (digits2_pos p) <= 2 ^ 52)
        by (apply Z.pow_le_mono_r; lia). lia. }
    lia.
Qed.

Lemma round_result_value (m1 c : Z) :
  0 <= m1 -> (to_Q (round_result m1 c) == inject_Z m1 * pow2 c)%Q.
Proof.
  intros Hm. unfold round_result. destruct m1 as [|p|p]; [|
    |lia].
  - cbn [to_Q]. ring.
  - destruct (Z.eqb_spec (Z.pos p) (2 ^ 53)) as [E|NE]; [|reflexivity].
    rewrite to_Q_finite, E, (Z.add_comm c 1), pow2_add.
    assert (inject_Z (2 ^ 53) == inject_Z (Z.pos (2 ^ 52)) * pow2 1)%Q as E2
      by reflexivity.
    rewrite E2. ring.
Qed.

Lemma inject_Z_pos (K : Z) : 0 < K -> (0 < inject_Z K)%Q.
Proof. intros H. change 0%Q with (inject_Z 0). by rewrite <- Zlt_Qlt. Qed.

Lemma frac_ge (A N K : Z) :
  0 < K -> A * K <= N -> (inject_Z A <= inject_Z N / inject_Z K)%Q.
Proof.
  intros HK H. apply Qle_shift_div_l; [by apply inject_Z_pos|].
  rewrite <- inject_Z_mult. by rewrite <- Zle_Qle.
Qed.

Lemma frac_lt (A N K : Z) :
  0 < K -> N < A * K -> (inject_Z N / inject_Z K < inject_Z A)%Q.
Proof.
  intros HK H. apply Qlt_shift_div_r; [by apply inject_Z_pos|].
  rewrite <- inject_Z_mult. by rewrite <- Zlt_Qlt.
Qed.

Lemma frac_scale (N K e c : Z) :
  0 < K -> e <= c ->
  (inject_Z N / inject_Z K * pow2 e / pow2 c
   == inject_Z N / inject_Z (2 ^ (c - e) * K))%Q.
Proof.
  intros HK Hec. rewrite inject_Z_mult, pow2_inject by lia.
  rewrite pow2_sub.
  pose proof (pow2_pos e). pose proof (pow2_pos c).
  pose proof (inject_Z_pos K HK).
  field. repeat split; lra.
Qed.

Lemma binary_round_aux_rounds (N K e mx : Z) (lx : location) :
  0 < K -> K <= N ->
  shr_record_of_loc mx lx = ideal N K ->
  e <= fexp prec emax (Zdigits2 mx + e) ->
  fexp prec emax (Zdigits2 mx + e) <= 970 ->
  rounds_to (inject_Z N / inject_Z K * pow2 e)
            (binary_round_aux prec emax false mx e lx).
Proof.
  intros HK HN Hrec Hec Hc970.
  assert (mx = N / K) as Hmx.
  { destruct lx as [|[]]; injection Hrec; auto. }
  assert (0 < mx) as Hpos.
  { rewrite Hmx. apply Z.div_str_pos. lia. }
  pose proof (Zdigits2_spec mx Hpos) as [Hd1 Hd2].
  pose proof (Zdigits2_pos mx Hpos) as Hd0.
  set (d := Zdigits2 mx) in *.
  set (c := fexp prec emax (d + e)) in *.
  assert (c = cexp (d + e)) as Hc by reflexivity.
  assert (mx * K <= N < (mx + 1) * K) as [HN1 HN2].
  { rewrite Hmx. pose proof (Z.div_mod N K ltac:(lia)).
    pose proof (Z.mod_pos_bound N K HK). nia. }
  assert (2 ^ (d - 1) * K <= N) as HNlo by nia.
  assert (N < 2 ^ d * K) as HNhi by nia.
  assert (0 < 2 ^ (c - e)) as Hpn by (apply Z.pow_pos_nonneg; lia).
  set (K' := 2 ^ (c - e) * K) in *.
  assert (0 < K') as HK' by (unfold K'; nia).
  assert (rne N K' <= 2 ^ 53) as Hm53.
  { destruct (Z_le_gt_dec (c - e) d) as [Hle|Hgt].
    - assert (2 ^ d * K = 2 ^ (d - (c - e)) * K') as E.
      { unfold K'. rewrite Z.mul_assoc, <- Z.pow_add_r by lia. f_equal. f_equal. lia. }
      transitivity (rne (2 ^ (d - (c - e)) * K') K').
      + apply rne_mono; lia.
      + rewrite rne_multiple by lia. apply Z.pow_le_mono_r; [lia|].
        unfold cexp in Hc. lia.
    - assert (2 ^ d <= 2 ^ (c - e)) by (apply Z.pow_le_mono_r; lia).
      assert (N / K' = 0) by (apply Z.div_small; unfold K'; nia).
      pose proof (rne_between N K' HK'). lia. }
  assert (0 <= rne N K') as Hm0.
  { pose proof (rne_between N K' HK').
    assert (0 <= N / K') by (apply Z.div_pos; lia). lia. }
  assert (-1074 <= c) as Hcmin by (rewrite Hc; unfold cexp; lia).
  rewrite (binary_round_aux_ideal N K e mx lx) by (fold d c K'; first [lia|done]).
  fold d c K'. split.
  - apply round_result_valid; [lia|lia|].
    destruct (Z.eq_dec c (-1074)) as [|Hne]; [auto|]. right; right.
    assert (c - e = d - 53) as En by (unfold cexp in Hc; lia).
    assert (2 ^ (d - 1) * K = 2 ^ 52 * K') as E.
    { unfold K'. rewrite En, Z.mul_assoc, <- Z.pow_add_r by lia.
      f_equal. f_equal. lia. }
    rewrite <- (rne_multiple (2 ^ 52) K') by lia. apply rne_mono; lia.
  - right. exists (d + e). split.
    + replace (d + e - 1) with ((d - 1) + e) by lia. rewrite !pow2_add.
      rewrite <- (pow2_inject (d - 1)), <- (pow2_inject d) by lia.
      pose proof (pow2_pos e). split.
      * apply Qmult_le_compat_r; [|lra]. by apply frac_ge.
      * apply Qmult_lt_compat_r; [lra|]. by apply frac_lt.
    + rewrite round_result_value by done. rewrite <- Hc.
      rewrite (rneQ_proper _ _ (frac_scale N K e c HK Hec)).
      fold K'. by rewrite rneQ_frac.
Qed.

Lemma valid_nonneg_to_Q (f : float64) : valid_nonneg f -> (0 <= to_Q f)%Q.
Proof.
  destruct f as [[]| | |[] m e]; try done; intros _.
  rewrite to_Q_finite. pose proof (pow2_pos e).
  apply Qmult_le_0_compat; [|lra]. change 0%Q with (inject_Z 0).
  rewrite <- Zle_Qle. lia.
Qed.

Lemma Qdiv_pow2_lt (x : Q) (k c : Z) :
  (x < pow2 k)%Q -> (x / pow2 c < pow2 (k - c))%Q.
Proof.
  intros H. rewrite pow2_sub. pose proof (pow2_pos c).
  apply Qlt_shift_div_l; [done|]. 
  assert (x / pow2 c * pow2 c == x)%Q as E by (field; lra).
  by rewrite E.
Qed.

Lemma Qdiv_pow2_le (x : Q) (k c : Z) :
  (pow2 k <= x)%Q -> (pow2 (k - c) <= x / pow2 c)%Q.
Proof.
  intros H. rewrite pow2_sub. pose proof (pow2_pos c).
  apply Qle_shift_div_l; [done|].
  assert (pow2 k / pow2 c * pow2 c == pow2 k)%Q as E by (field; lra).
  by rewrite E.
Qed.

Lemma rounded_upper (x : Q) (k c : Z) :
  (x < pow2 k)%Q ->
  (inject_Z (rneQ (x / pow2 c)) * pow2 c <= pow2 (Z.max k c))%Q.
Proof.
  intros Hx. pose proof (pow2_pos c).
  assert (rneQ (x / pow2 c) <= 2 ^ (Z.max k c - c)) as Hr.
  { rewrite <- (rneQ_inject (2 ^ (Z.max k c - c))). apply rneQ_mono.
    rewrite pow2_inject by lia. apply Qlt_le_weak.
    apply Qlt_le_trans with (pow2 (k - c)); [by apply Qdiv_pow2_lt|].
    apply pow2_le. lia. }
  replace (Z.max k c) with ((Z.max k c - c) + c) at 1 by lia.
  rewrite pow2_add, <- (pow2_inject (Z.max k c - c)) by lia.
  apply Qmult_le_compat_r; [|lra]. by rewrite <- Zle_Qle.
Qed.

Lemma rounded_lower (x : Q) (k c : Z) :
  c <= k -> (pow2 k <= x)%Q ->
  (pow2 k <= inject_Z (rneQ (x / pow2 c)) * pow2 c)%Q.
Proof.
  intros Hc Hx. pose proof (pow2_pos c).
  assert (2 ^ (k - c) <= rneQ (x / pow2 c)) as Hr.
  { rewrite <- (rneQ_inject (2 ^ (k - c))). apply rneQ_mono.
    rewrite pow2_inject by lia. by apply Qdiv_pow2_le. }
  replace k with ((k - c) + c) at 1 by lia.
  rewrite pow2_add, <- (pow2_inject (k - c)) by lia.
  apply Qmult_le_compat_r; [|lra]. by rewrite <- Zle_Qle.
Qed.

(** Rounding is monotone. *)
Lemma rounds_to_mono (x y : Q) (f g : float64) :
  rounds_to x f -> rounds_to y g -> (x <= y)%Q -> (to_Q f <= to_Q g)%Q.
Proof.
  intros [Vf Hf] [Vg Hg] Hxy.
  pose proof (valid_nonneg_to_Q g Vg) as Hg0.
  destruct Hf as [[Hx0 Hf0]|(kx & [Hx1 Hx2] & Hfx)]; [lra|].
  pose proof (pow2_pos (kx - 1)).
  destruct Hg as [[Hy0 _]|(ky & [Hy1 Hy2] & Hgy)]; [lra|].
  rewrite Hfx, Hgy.
  assert (kx <= ky) as Hk.
  { assert (kx - 1 < ky); [|lia]. apply pow2_lt_inv. lra. }
  destruct (Z.eq_dec (cexp kx) (cexp ky)) as [Ec|Nc].
  - rewrite Ec. pose proof (pow2_pos (cexp ky)).
    apply Qmult_le_compat_r; [|lra]. rewrite <- Zle_Qle. apply rneQ_mono.
    apply Qmult_le_compat_r; [done|]. apply Qlt_le_weak, Qinv_lt_0_compat. done.
  - unfold cexp in Nc.
    apply Qle_trans with (pow2 (Z.max kx (cexp kx))); [by apply rounded_upper|].
    apply Qle_trans with (pow2 (ky - 1)).
    + apply pow2_le. unfold cexp. lia.
    + apply rounded_lower; [unfold cexp; lia | done].
Qed.

Lemma rounds_to_proper (x y : Q) (f : float64) :
  (x == y)%Q -> rounds_to x f -> rounds_to y f.
Proof.
  intros E [Vf Hf]. split; [done|].
  destruct Hf as [[Hx0 Hf0]|(k & Hx & Hfx)].
  - left. split; [|done]. by rewrite <- E, Hx0.
  - right. exists k. split; [by rewrite <- E|].
    rewrite Hfx.
    assert (x / pow2 (cexp k) == y / pow2 (cexp k))%Q as E' by (by rewrite E).
    by rewrite (rneQ_proper _ _ E').
Qed.

(** A rounded value stays below a power of two that bounds the exact one. *)
Lemma rounds_to_upper (x : Q) (f : float64) (B : Z) :
  rounds_to x f -> -1074 <= B -> (x < pow2 B)%Q -> (to_Q f <= pow2 B)%Q.
Proof.
  intros [Vf Hf] HB Hx. pose proof (pow2_pos B).
  destruct Hf as [[Hx0 Hf0]|(k & [Hx1 Hx2] & Hfx)]; [lra|].
  rewrite Hfx.
  assert (k <= B).
  { assert (k - 1 < B); [|lia]. apply pow2_lt_inv. lra. }
  apply Qle_trans with (pow2 (Z.max k (cexp k))); [by apply rounded_upper|].
  apply pow2_le. unfold cexp. lia.
Qed.

Lemma rounds_to_lower (x : Q) (f : float64) (B : Z) :
  rounds_to x f -> -1074 <= B -> (pow2 B <= x)%Q -> (pow2 B <= to_Q f)%Q.
Proof.
  intros [Vf Hf] HB Hx. pose proof (pow2_pos B).
  destruct Hf as [[Hx0 Hf0]|(k & [Hx1 Hx2] & Hfx)]; [lra|].
  rewrite Hfx.
  assert (B < k) by (apply pow2_lt_inv; lra).
  apply Qle_trans with (pow2 (k - 1)); [apply pow2_le; lia|].
  apply rounded_lower; [unfold cexp; lia | done].
Qed.

(** ** Valid floats: order and exactness *)

Lemma bounded_digits (m : positive) (e : Z) :
  bounded prec emax m e = true ->
  -1074 <= e <= 971 /\ Z.pos (digits2_pos m) <= 53 /\
  (-1074 < e -> Z.pos (digits2_pos m) = 53).
Proof. rewrite bounded_iff. lia. Qed.

Lemma finite_value_bounds (m : positive) (e : Z) :
  (pow2 (Z.pos (digits2_pos m) - 1 + e) <= to_Q (S754_finite false m e)
   < pow2 (Z.pos (digits2_pos m) + e))%Q.
Proof.
  rewrite to_Q_finite, !pow2_add. pose proof (pow2_pos e).
  pose proof (digits2_pos_spec m) as [H1 H2].
  rewrite <- (pow2_inject (Z.pos (digits2_pos m) - 1)) by lia.
  rewrite <- (pow2_inject (Z.pos (digits2_pos m))) by lia. split.
  - apply Qmult_le_compat_r; [|lra]. by rewrite <- Zle_Qle.
  - apply Qmult_lt_compat_r; [lra|]. by rewrite <- Zlt_Qlt.
Qed.

Lemma valid_exponent_lt (m1 m2 : positive) (e1 e2 : Z) :
  bounded prec emax m1 e1 = true -> bounded prec emax m2 e2 = true ->
  e1 < e2 ->
  (to_Q (S754_finite false m1 e1) < to_Q (S754_finite false m2 e2))%Q.
Proof.
  intros (He1 & Hd1 & _)%bounded_digits (He2 & _ & Hd2)%bounded_digits Hlt.
  pose proof (finite_value_bounds m1 e1) as [_ H1].
  pose proof (finite_value_bounds m2 e2) as [H2 _].
  rewrite Hd2 in H2 by lia.
  apply Qlt_le_trans with (pow2 (Z.pos (digits2_pos m1) + e1)); [done|].
  apply Qle_trans with (pow2 (53 - 1 + e2)); [|done]. apply pow2_le. lia.
Qed.

Lemma leb_of_Qle (f g : float64) :
  valid_nonneg f -> valid_nonneg g -> (to_Q f <= to_Q g)%Q -> leb f g = true.
Proof.
  destruct f as [[]| | |[] m1 e1]; try done;
    destruct g as [[]| | |[] m2 e2]; try done; intros Vf Vg H.
  - exfalso. pose proof (finite_value_bounds m1 e1) as [H1 _].
    pose proof (pow2_pos (Z.pos (digits2_pos m1) - 1 + e1)).
    change (to_Q (S754_zero false)) with 0%Q in H. lra.
  - unfold leb, SFleb, SFcompare.
    destruct (Z.compare_spec e1 e2) as [E|Hlt|Hgt]; [|done|].
    + subst e2. rewrite !to_Q_finite in H. pose proof (pow2_pos e1).
      apply Qmult_le_r in H; [|done]. rewrite <- Zle_Qle in H.
      change (Pos.compare_cont Eq m1 m2) with (m1 ?= m2)%positive.
      destruct (Pos.compare_spec m1 m2); [done|done|lia].
    + exfalso. pose proof (valid_exponent_lt m2 m1 e2 e1 Vg Vf Hgt). lra.
Qed.

(** A valid float is what its own value rounds to. *)
Lemma rounds_to_self (f : float64) : valid_nonneg f -> rounds_to (to_Q f) f.
Proof.
  intros Vf. split; [done|].
  destruct f as [[]| | |[] m e]; try done; [by left|]. right.
  exists (Z.pos (digits2_pos m) + e). split.
  - replace (Z.pos (digits2_pos m) + e - 1) with (Z.pos (digits2_pos m) - 1 + e)
      by lia. apply finite_value_bounds.
  - apply bounded_iff in Vf as [Hc _]. unfold cexp. rewrite Hc.
    rewrite to_Q_finite. pose proof (pow2_pos e).
    assert (inject_Z (Z.pos m) * pow2 e / pow2 e == inject_Z (Z.pos m))%Q as E
      by (field; lra).
    by rewrite (rneQ_proper _ _ E), rneQ_inject.
Qed.

(** If [x] is a multiple of the last place it rounds to itself. *)
Lemma rounds_to_exact (x : Q) (f : float64) (j k : Z) :
  rounds_to x f ->
  (pow2 (k - 1) <= x < pow2 k)%Q -> (x == inject_Z j * pow2 (cexp k))%Q ->
  (to_Q f == x)%Q.
Proof.
  intros [Vf Hf] [Hk1 Hk2] Hj. pose proof (pow2_pos (k - 1)).
  destruct Hf as [[Hx0 Hf0]|(k' & [Hx1 Hx2] & Hfx)]; [lra|].
  assert (k' = k) as ->.
  { assert (k' - 1 < k) by (apply pow2_lt_inv; lra).
    assert (k - 1 < k') by (apply pow2_lt_inv; lra). lia. }
  rewrite Hfx. pose proof (pow2_pos (cexp k)).
  assert (x / pow2 (cexp k) == inject_Z j)%Q as E by (rewrite Hj; field; lra).
  by rewrite (rneQ_proper _ _ E), rneQ_inject, Hj.
Qed.

(** ** The operations round the exact result *)

Lemma iter_xO (d m : positive) : Z.pos (Pos.iter xO m d) = Z.pos m * 2 ^ Z.pos d.
Proof.
  induction d as [|d IH] using Pos.peano_ind.
  - simpl. lia.
  - rewrite Pos.iter_succ, Pos2Z.inj_xO, IH, Pos2Z.inj_succ, Z.pow_succ_r by lia.
    lia.
Qed.

Lemma shl_align_spec (mx : positive) (ex ex' : Z) :
  snd (shl_align mx ex ex') = Z.min ex ex' /\
  Z.pos (fst (shl_align mx ex ex')) = Z.pos mx * 2 ^ (ex - Z.min ex ex').
Proof.
  unfold shl_align. destruct (ex' - ex) as [|d|d] eqn:E; cbn [fst snd].
  - replace (Z.min ex ex') with ex by lia. rewrite Z.sub_diag. simpl. lia.
  - replace (Z.min ex ex') with ex by lia. rewrite Z.sub_diag. simpl. lia.
  - replace (Z.min ex ex') with ex' by lia. split; [done|].
    rewrite iter_xO. f_equal. f_equal. lia.
Qed.

Lemma Zdigits2_shift (m s : Z) :
  0 < m -> 0 <= s -> Zdigits2 (m * 2 ^ s) = Zdigits2 m + s.
Proof.
  intros Hm Hs. pose proof (Zdigits2_spec m Hm) as [H1 H2].
  pose proof (Zdigits2_pos m Hm).
  assert (0 < 2 ^ s) by (apply Z.pow_pos_nonneg; lia).
  apply Zdigits2_unique; [nia|].
  replace (Zdigits2 m + s - 1) with (Zdigits2 m - 1 + s) by lia.
  rewrite !Z.pow_add_r by lia. nia.
Qed.

Lemma inject_pow2_shift (m e s : Z) :
  0 <= s ->
  (inject_Z (m * 2 ^ s) * pow2 (e - s) == inject_Z m * pow2 e)%Q.
Proof.
  intros Hs. rewrite inject_Z_mult, pow2_inject, pow2_sub by done.
  pose proof (pow2_pos s). field. lra.
Qed.

Lemma binary_round_rounds (p : positive) (e : Z) :
  fexp prec emax (Z.pos (digits2_pos p) + e) <= 970 ->
  rounds_to (inject_Z (Z.pos p) * pow2 e) (binary_round prec emax false p e).
Proof.
  intros Hc. unfold binary_round.
  set (c := fexp prec emax (Z.pos (digits2_pos p) + e)) in *.
  pose proof (shl_align_spec p e c) as [Hez Hmz].
  destruct (shl_align p e c) as [mz ez]. cbn [fst snd] in Hez, Hmz. subst ez.
  assert (Zdigits2 (Z.pos mz) + Z.min e c = Z.pos (digits2_pos p) + e) as Hd.
  { rewrite Hmz, Zdigits2_shift by lia. cbn [Zdigits2]. lia. }
  eapply rounds_to_proper;
    [|apply (binary_round_aux_rounds (Z.pos mz) 1 (Z.min e c) (Z.pos mz) loc_Exact)].
  - rewrite Hmz. rewrite <- (inject_pow2_shift (Z.pos p) e (e - Z.min e c)) by lia.
    replace (e - (e - Z.min e c)) with (Z.min e c) by lia.
    change (inject_Z 1) with 1%Q. field.
  - lia.
  - lia.
  - apply shr_record_exact.
  - rewrite Hd. fold c. lia.
  - rewrite Hd. by fold c.
Qed.

Lemma of_int_rounds (n : Z) :
  0 <= n < 2 ^ 1023 -> rounds_to (inject_Z n) (of_int n).
Proof.
  intros [Hn0 Hn]. destruct n as [|p|p]; [|
    |lia].
  - split; [done|]. by left.
  - unfold of_int, binary_normalize.
    eapply rounds_to_proper; [|apply binary_round_rounds].
    + change (pow2 0) with 1%Q. ring.
    + rewrite fexp_eq. pose proof (digits2_pos_spec p) as [H1 _].
      assert (Z.pos (digits2_pos p) - 1 < 1023); [|lia].
      apply (Z.pow_lt_mono_r_iff 2); lia.
Qed.

(** The exponent of the last place is small when the value is. *)
Lemma digits_bound (m : positive) (e B : Z) :
  (to_Q (S754_finite false m e) < pow2 B)%Q -> Z.pos (digits2_pos m) + e <= B.
Proof.
  intros H. pose proof (finite_value_bounds m e) as [H1 _].
  assert (Z.pos (digits2_pos m) - 1 + e < B); [|lia].
  apply pow2_lt_inv. lra.
Qed.

Lemma mul_rounds (x : float64) (my : positive) (ey : Z) :
  valid_nonneg x ->
  Z.pos (digits2_pos my) = 53 ->
  (to_Q x * to_Q (S754_finite false my ey) < pow2 1023)%Q ->
  rounds_to (to_Q x * to_Q (S754_finite false my ey))
            (mul x (S754_finite false my ey)).
Proof.
  intros Vx Hdy Hlt.
  destruct x as [[]| | |[] mx ex]; try done.
  { split; [done|]. left. split; [|reflexivity]. cbn [to_Q]. ring. }
  unfold mul, SFmul. cbn [xorb].
  assert (to_Q (S754_finite false mx ex) * to_Q (S754_finite false my ey)
          == to_Q (S754_finite false (mx * my) (ex + ey)))%Q as E.
  { rewrite !to_Q_finite, Pos2Z.inj_mul, inject_Z_mult, pow2_add. ring. }
  rewrite E in Hlt. apply digits_bound in Hlt.
  assert (53 <= Z.pos (digits2_pos (mx * my))) as Hd.
  { pose proof (digits2_pos_spec my) as [H1 _]. rewrite Hdy in H1.
    pose proof (digits2_pos_spec (mx * my)) as [_ H2].
    destruct (Z_lt_le_dec (Z.pos (digits2_pos (mx * my))) 53); [|done].
    assert (2 ^ Z.pos (digits2_pos (mx * my)) <= 2 ^ 52)
      by (apply Z.pow_le_mono_r; lia).
    rewrite Pos2Z.inj_mul in H2. nia. }
  eapply rounds_to_proper;
    [|apply (binary_round_aux_rounds (Z.pos (mx * my)) 1 (ex + ey)
               (Z.pos (mx * my)) loc_Exact)].
  - rewrite E, to_Q_finite. change (inject_Z 1) with 1%Q. field.
  - lia.
  - lia.
  - apply shr_record_exact.
  - rewrite fexp_eq. cbn [Zdigits2]. lia.
  - rewrite fexp_eq. cbn [Zdigits2]. lia.
Qed.

Lemma add_rounds (x y : float64) :
  valid_nonneg x -> valid_nonneg y ->
  (to_Q x + to_Q y < pow2 1023)%Q ->
  rounds_to (to_Q x + to_Q y) (add x y).
Proof.
  intros Vx Vy Hlt.
  destruct x as [[]| | |[] mx ex]; try done;
    destruct y as [[]| | |[] my ey]; try done.
  - split; [done|]. left. split; reflexivity.
  - eapply rounds_to_proper; [|by apply (rounds_to_self (S754_finite false my ey))].
    cbn [to_Q]. ring.
  - eapply rounds_to_proper; [|by apply (rounds_to_self (S754_finite false mx ex))].
    cbn [to_Q]. ring.
  - unfold add, SFadd, cond_Zopp.
    pose proof (shl_align_spec mx ex (Z.min ex ey)) as [_ Hx].
    pose proof (shl_align_spec my ey (Z.min ex ey)) as [_ Hy].
    replace (Z.min ex (Z.min ex ey)) with (Z.min ex ey) in Hx by lia.
    replace (Z.min ey (Z.min ex ey)) with (Z.min ex ey) in Hy by lia.
    set (ax := fst (shl_align mx ex (Z.min ex ey))) in *.
    set (ay := fst (shl_align my ey (Z.min ex ey))) in *.
    set (ez := Z.min ex ey) in *.
    change (Z.pos ax + Z.pos ay) with (Z.pos (ax + ay)). cbn [binary_normalize].
    assert (to_Q (S754_finite false mx ex) + to_Q (S754_finite false my ey)
            == to_Q (S754_finite false (ax + ay) ez))%Q as E.
    { rewrite !to_Q_finite, Pos2Z.inj_add, inject_Z_plus, Hx, Hy.
      rewrite <- (inject_pow2_shift (Z.pos mx) ex (ex - ez)) by lia.
      rewrite <- (inject_pow2_shift (Z.pos my) ey (ey - ez)) by lia.
      replace (ex - (ex - ez)) with ez by lia.
      replace (ey - (ey - ez)) with ez by lia. ring. }
    rewrite E in Hlt. apply digits_bound in Hlt.
    eapply rounds_to_proper; [|apply binary_round_rounds].
    + by rewrite E, to_Q_finite.
    + rewrite fexp_eq. lia.
Qed.

Lemma div_eucl_eq (N K : Z) : Z.div_eucl N K = (N / K, N mod K).
Proof. unfold Z.div, Z.modulo. by destruct (Z.div_eucl N K). Qed.

Lemma new_location_ideal (N K : Z) :
  0 < K -> shr_record_of_loc (N / K) (new_location K (N mod K)) = ideal N K.
Proof.
  intros HK. pose proof (Z.mod_pos_bound N K HK) as Hr.
  unfold ideal, new_location, new_location_even, new_location_odd.
  destruct (Z.even K) eqn:Ev.
  - destruct (Z.eqb_spec (N mod K) 0) as [E0|N0].
    + rewrite E0. cbn. f_equal. symmetry. apply Z.leb_gt. lia.
    + destruct (Z.compare_spec (2 * (N mod K)) K);
        destruct (Z.leb_spec K (2 * (N mod K))); try lia;
        destruct (Z.eqb_spec (2 * (N mod K)) K); try lia; reflexivity.
  - assert (2 * (N mod K) <> K) as Hodd.
    { intros E. rewrite <- E, Z.even_mul in Ev. discriminate. }
    destruct (Z.eqb_spec (N mod K) 0) as [E0|N0].
    + rewrite E0. cbn. f_equal. symmetry. apply Z.leb_gt. lia.
    + destruct (Z.compare_spec (2 * (N mod K) + 1) K);
        destruct (Z.leb_spec K (2 * (N mod K))); try lia;
        destruct (Z.eqb_spec (2 * (N mod K)) K); try lia; reflexivity.
Qed.

Lemma div_rounds (mx my : positive) (ex ey : Z) :
  Z.pos (digits2_pos mx) = 53 -> Z.pos (digits2_pos my) = 53 ->
  -1021 <= ex - ey <= 1000 ->
  rounds_to (to_Q (S754_finite false mx ex) / to_Q (S754_finite false my ey))
            (div (S754_finite false mx ex) (S754_finite false my ey)).
Proof.
  intros Hdx Hdy He. unfold div, SFdiv, SFdiv_core_binary. cbn [xorb Zdigits2].
  rewrite Hdx, Hdy, fexp_eq.
  replace (Z.min (Z.max (53 + ex - (53 + ey) - 53) (-1074)) (ex - ey))
    with (ex - ey - 53) by lia.
  replace (ex - ey - (ex - ey - 53)) with 53 by lia.
  rewrite Z.shiftl_mul_pow2 by lia. rewrite div_eucl_eq.
  pose proof (digits2_pos_spec mx) as [Hx1 Hx2].
  pose proof (digits2_pos_spec my) as [Hy1 Hy2].
  rewrite Hdx in Hx1, Hx2. rewrite Hdy in Hy1, Hy2.
  set (N := Z.pos mx * 2 ^ 53) in *. set (K := Z.pos my) in *.
  assert (2 ^ 52 <= N / K < 2 ^ 54) as [Hq1 Hq2].
  { split.
    - apply Z.div_le_lower_bound; [lia|]. unfold N. lia.
    - apply Z.div_lt_upper_bound; [lia|]. unfold N. lia. }
  assert (53 <= Zdigits2 (N / K) <= 54) as Hdq.
  { pose proof (Zdigits2_spec (N / K) ltac:(lia)) as [H1 H2]. split.
    - destruct (Z_lt_le_dec (Zdigits2 (N / K)) 53); [|done].
      assert (2 ^ Zdigits2 (N / K) <= 2 ^ 52)
        by (apply Z.pow_le_mono_r; lia). lia.
    - destruct (Z_lt_le_dec 54 (Zdigits2 (N / K))); [|done].
      assert (2 ^ 54 <= 2 ^ (Zdigits2 (N / K) - 1))
        by (apply Z.pow_le_mono_r; lia). lia. }
  eapply rounds_to_proper;
    [|apply (binary_round_aux_rounds N K (ex - ey - 53) (N / K)
               (new_location K (N mod K)))].
  - rewrite !to_Q_finite. unfold N. rewrite inject_Z_mult.
    change (inject_Z (2 ^ 53)) with (pow2 53).
    replace (ex - ey - 53) with (ex + (- ey + - (53))) by lia.
    rewrite !pow2_add. unfold pow2 at 3 4. rewrite !Qpower_opp. fold (pow2 ey).
    fold (pow2 53). pose proof (pow2_pos ey). pose proof (pow2_pos 53).
    assert (0 < inject_Z K)%Q as HK by (by apply inject_Z_pos).
    unfold K in *. clearbody N.
    generalize dependent (pow2 ey). generalize dependent (pow2 53).
    generalize (pow2 ex).
    generalize dependent (inject_Z (Z.pos my)). generalize (inject_Z (Z.pos mx)).
    intros a b Hb c d Hd g Hg. field. clear - Hb Hd Hg. repeat split; lra.
  - lia.
  - unfold N. lia.
  - by apply new_location_ideal.
  - rewrite fexp_eq. lia.
  - rewrite fexp_eq. lia.
Qed.

(** ** Conversion to an integer *)

Lemma to_int_spec (f : float64) :
  valid_nonneg f -> (to_Q f < pow2 63)%Q ->
  0 <= to_int f /\
  (inject_Z (to_int f) <= to_Q f < inject_Z (to_int f + 1))%Q.
Proof.
  intros Vf Hlt. destruct f as [[]| | |[] m e]; try done.
  cbn [to_int]. set (a := Z.shiftl (Z.pos m) e).
  assert (0 <= a /\
          (inject_Z a <= to_Q (S754_finite false m e) < inject_Z (a + 1))%Q)
    as [Ha0 [Ha1 Ha2]].
  { rewrite to_Q_finite. unfold a. destruct (Z_le_gt_dec 0 e) as [He|He].
    - rewrite Z.shiftl_mul_pow2 by done.
      assert (0 < 2 ^ e) by (apply Z.pow_pos_nonneg; lia). split; [lia|].
      rewrite inject_Z_plus, inject_Z_mult, pow2_inject by done.
      change (inject_Z 1) with 1%Q. split; lra.
    - rewrite Z.shiftl_div_pow2 by lia.
      assert (0 < 2 ^ (- e)) as Hp by (apply Z.pow_pos_nonneg; lia).
      pose proof (Z.div_mod (Z.pos m) (2 ^ (- e)) ltac:(lia)) as E.
      pose proof (Z.mod_pos_bound (Z.pos m) (2 ^ (- e)) Hp) as Hr.
      set (q := Z.pos m / 2 ^ (- e)) in *.
      assert (0 <= q) by (apply Z.div_pos; lia). split; [done|].
      assert (pow2 e == / pow2 (- e))%Q as Ee.
      { unfold pow2. rewrite <- Qpower_opp. by rewrite Z.opp_involutive. }
      rewrite Ee, <- pow2_inject by lia.
      pose proof (inject_Z_pos _ Hp) as HpQ. split.
      + apply Qle_shift_div_l; [done|]. rewrite <- inject_Z_mult, <- Zle_Qle. lia.
      + apply Qlt_shift_div_r; [done|]. rewrite <- inject_Z_mult, <- Zlt_Qlt. nia. }
  assert (a < 2 ^ 63).
  { rewrite Zlt_Qlt, pow2_inject by lia. lra. }
  unfold min_int64, max_int64.
  replace (- 2 ^ 63 <=? a) with true by (symmetry; apply Z.leb_le; lia).
  replace (a <=? 2 ^ 63 - 1) with true by (symmetry; apply Z.leb_le; lia).
  cbn [andb]. done.
Qed.

Lemma to_int_mono (f g : float64) :
  valid_nonneg f -> valid_nonneg g ->
  (to_Q f <= to_Q g)%Q -> (to_Q g < pow2 63)%Q ->
  to_int f <= to_int g.
Proof.
  intros Vf Vg Hle Hg.
  destruct (to_int_spec f Vf) as (_ & Hf1 & _); [lra|].
  destruct (to_int_spec g Vg Hg) as (_ & _ & Hg2).
  assert (to_int f < to_int g + 1); [|lia]. rewrite Zlt_Qlt. lra.
Qed.

(** ** The cost computation *)

Lemma CalculateCost_steps (key : string) (a b : Z) :
  CalculateCost (client_of key) a b
  = div (of_int (to_int (scaled_cost a b))) ten_thousand.
Proof. reflexivity. Qed.

Lemma Qmul_lt_pow2 (x y : Q) (A B : Z) :
  (0 <= x <= pow2 A)%Q -> (0 <= y < pow2 B)%Q -> (x * y < pow2 (A + B))%Q.
Proof.
  intros [Hx0 Hx] [Hy0 Hy]. rewrite pow2_add.
  pose proof (pow2_pos A). pose proof (pow2_pos B). nra.
Qed.

Lemma of_int_facts (n : Z) (B : Z) :
  0 <= n < 2 ^ B -> 0 <= B <= 1023 ->
  rounds_to (inject_Z n) (of_int n) /\ valid_nonneg (of_int n) /\
  (0 <= to_Q (of_int n) <= pow2 B)%Q.
Proof.
  intros Hn HB.
  assert (2 ^ B <= 2 ^ 1023) by (apply Z.pow_le_mono_r; lia).
  pose proof (of_int_rounds n ltac:(lia)) as Hr. split; [done|].
  split; [apply Hr|]. split; [apply valid_nonneg_to_Q, Hr|].
  apply (rounds_to_upper _ _ B Hr); [lia|].
  rewrite <- pow2_inject by lia. rewrite <- Zlt_Qlt. lia.
Qed.

Lemma price_in_bound : (0 <= to_Q price_in < pow2 (-18))%Q.
Proof. split; vm_compute; done. Qed.

Lemma price_out_bound : (0 <= to_Q price_out < pow2 (-16))%Q.
Proof. split; vm_compute; done. Qed.

Lemma ten_thousand_bound : (0 <= to_Q ten_thousand < pow2 14)%Q.
Proof. split; vm_compute; done. Qed.

Lemma ten_thousand_value : (to_Q ten_thousand == 10000)%Q.
Proof. vm_compute. reflexivity. Qed.

Lemma mul_facts (x : float64) (my : positive) (ey : Z) (A B : Z) :
  valid_nonneg x -> Z.pos (digits2_pos my) = 53 ->
  (to_Q x <= pow2 A)%Q ->
  (0 <= to_Q (S754_finite false my ey) < pow2 B)%Q ->
  -1074 <= A + B <= 1023 ->
  let r := mul x (S754_finite false my ey) in
  rounds_to (to_Q x * to_Q (S754_finite false my ey)) r /\ valid_nonneg r /\
  (to_Q r <= pow2 (A + B))%Q.
Proof.
  intros Vx Hd Hx Hy HAB r.
  pose proof (valid_nonneg_to_Q x Vx) as Hx0.
  pose proof (Qmul_lt_pow2 _ _ A B (conj Hx0 Hx) Hy) as Hlt.
  assert (rounds_to (to_Q x * to_Q (S754_finite false my ey)) r) as Hr.
  { apply mul_rounds; [done..|].
    apply Qlt_le_trans with (pow2 (A + B)); [done | apply pow2_le; lia]. }
  split; [done|]. split; [apply Hr|].
  by apply (rounds_to_upper _ _ (A + B) Hr); [lia|].
Qed.

Lemma scaled_cost_facts (a b : Z) :
  0 <= a <= max_int64 -> 0 <= b <= max_int64 ->
  valid_nonneg (scaled_cost a b) /\ (to_Q (scaled_cost a b) <= pow2 62)%Q.
Proof.
  intros Ha Hb. unfold max_int64 in *.
  destruct (of_int_facts a 63 ltac:(lia) ltac:(lia)) as (_ & Va & _ & Ba).
  destruct (of_int_facts b 63 ltac:(lia) ltac:(lia)) as (_ & Vb & _ & Bb).
  destruct (mul_facts (of_int a) 7083549724304468 (-71) 63 (-18) Va eq_refl Ba price_in_bound
              ltac:(lia)) as (_ & Via & Bia).
  destruct (mul_facts (of_int b) 8854437155380585 (-69) 63 (-16) Vb eq_refl Bb price_out_bound
              ltac:(lia)) as (_ & Vib & Bib).
  fold price_in in Via, Bia. fold price_out in Vib, Bib.
  set (ic := mul (of_int a) price_in) in *.
  set (oc := mul (of_int b) price_out) in *.
  assert (to_Q ic + to_Q oc < pow2 48)%Q as Hsum.
  { change (63 + -18) with 45 in Bia. change (63 + -16) with 47 in Bib.
    assert (pow2 45 + pow2 47 < pow2 48)%Q by (vm_compute; done). lra. }
  assert (rounds_to (to_Q ic + to_Q oc) (add ic oc)) as Hs.
  { apply add_rounds; [done..|].
    apply Qlt_le_trans with (pow2 48); [done | apply pow2_le; lia]. }
  pose proof (rounds_to_upper _ _ 48 Hs ltac:(lia) Hsum) as Bs.
  destruct (mul_facts (add ic oc) 5497558138880000 (-39) 48 14 (proj1 Hs) eq_refl Bs
              ten_thousand_bound ltac:(lia)) as (_ & Vt & Bt).
  split; [exact Vt | exact Bt].
Qed.

Lemma scaled_cost_mono (a a' b b' : Z) :
  0 <= a <= a' -> a' <= max_int64 -> 0 <= b <= b' -> b' <= max_int64 ->
  (to_Q (scaled_cost a b) <= to_Q (scaled_cost a' b'))%Q.
Proof.
  intros Ha Ha' Hb Hb'. unfold max_int64 in *.
  destruct (of_int_facts a 63 ltac:(lia) ltac:(lia)) as (Ra & Va & _ & Ba).
  destruct (of_int_facts a' 63 ltac:(lia) ltac:(lia)) as (Ra' & Va' & _ & Ba').
  destruct (of_int_facts b 63 ltac:(lia) ltac:(lia)) as (Rb & Vb & _ & Bb).
  destruct (of_int_facts b' 63 ltac:(lia) ltac:(lia)) as (Rb' & Vb' & _ & Bb').
  assert (to_Q (of_int a) <= to_Q (of_int a'))%Q as Maa.
  { apply (rounds_to_mono _ _ _ _ Ra Ra'). rewrite <- Zle_Qle. lia. }
  assert (to_Q (of_int b) <= to_Q (of_int b'))%Q as Mbb.
  { apply (rounds_to_mono _ _ _ _ Rb Rb'). rewrite <- Zle_Qle. lia. }
  destruct (mul_facts (of_int a) 7083549724304468 (-71) 63 (-18) Va eq_refl Ba price_in_bound
              ltac:(lia)) as (Ria & Via & Bia).
  destruct (mul_facts (of_int a') 7083549724304468 (-71) 63 (-18) Va' eq_refl Ba' price_in_bound
              ltac:(lia)) as (Ria' & Via' & Bia').
  destruct (mul_facts (of_int b) 8854437155380585 (-69) 63 (-16) Vb eq_refl Bb price_out_bound
              ltac:(lia)) as (Rib & Vib & Bib).
  destruct (mul_facts (of_int b') 8854437155380585 (-69) 63 (-16) Vb' eq_refl Bb' price_out_bound
              ltac:(lia)) as (Rib' & Vib' & Bib').
  fold price_in in *. fold price_out in *.
  set (ic := mul (of_int a) price_in) in *.
  set (ic' := mul (of_int a') price_in) in *.
  set (oc := mul (of_int b) price_out) in *.
  set (oc' := mul (of_int b') price_out) in *.
  pose proof price_in_bound as [Pi0 _]. pose proof price_out_bound as [Po0 _].
  assert (to_Q ic <= to_Q ic')%Q as Mi.
  { apply (rounds_to_mono _ _ _ _ Ria Ria'). by apply Qmult_le_compat_r. }
  assert (to_Q oc <= to_Q oc')%Q as Mo.
  { apply (rounds_to_mono _ _ _ _ Rib Rib'). by apply Qmult_le_compat_r. }
  change (63 + -18) with 45 in *. change (63 + -16) with 47 in *.
  assert (pow2 45 + pow2 47 < pow2 48)%Q as H48 by (vm_compute; done).
  assert (pow2 48 <= pow2 1023)%Q as H1023 by (apply pow2_le; lia).
  assert (rounds_to (to_Q ic + to_Q oc) (add ic oc)) as Rs
    by (apply add_rounds; [done..|lra]).
  assert (rounds_to (to_Q ic' + to_Q oc') (add ic' oc')) as Rs'
    by (apply add_rounds; [done..|lra]).
  assert (to_Q (add ic oc) <= to_Q (add ic' oc'))%Q as Ms.
  { apply (rounds_to_mono _ _ _ _ Rs Rs'). lra. }
  pose proof (rounds_to_upper _ _ 48 Rs ltac:(lia) ltac:(lra)) as Bs.
  pose proof (rounds_to_upper _ _ 48 Rs' ltac:(lia) ltac:(lra)) as Bs'.
  destruct (mul_facts (add ic oc) 5497558138880000 (-39) 48 14 (proj1 Rs) eq_refl Bs
              ten_thousand_bound ltac:(lia)) as (Rt & _).
  destruct (mul_facts (add ic' oc') 5497558138880000 (-39) 48 14 (proj1 Rs') eq_refl Bs'
              ten_thousand_bound ltac:(lia)) as (Rt' & _).
  apply (rounds_to_mono _ _ _ _ Rt Rt').
  pose proof ten_thousand_bound as [T0 _]. by apply Qmult_le_compat_r.
Qed.

Lemma of_int_zero : of_int 0 = S754_zero false.
Proof. reflexivity. Qed.

(** An integer of at least 1 converts to a normal number. *)
Lemma of_int_normal (n : Z) :
  1 <= n < 2 ^ 63 ->
  exists m e, of_int n = S754_finite false m e /\
              Z.pos (digits2_pos m) = 53 /\ -52 <= e <= 11.
Proof.
  intros Hn.
  destruct (of_int_facts n 63 ltac:(lia) ltac:(lia)) as (Rn & Vn & _ & Bn).
  assert (pow2 0 <= to_Q (of_int n))%Q as Ln.
  { apply (rounds_to_lower _ _ 0 Rn); [lia|]. change (pow2 0) with (inject_Z 1).
    rewrite <- Zle_Qle. lia. }
  destruct (of_int n) as [[]| | |[] m e]; try done.
  exists m, e. split; [done|].
  apply bounded_digits in Vn as (He & Hd & Hnorm).
  pose proof (finite_value_bounds m e) as [_ Hup].
  assert (0 < Z.pos (digits2_pos m) + e) by (apply pow2_lt_inv; lra).
  assert (Z.pos (digits2_pos m) + e <= 64).
  { apply digits_bound. apply Qle_lt_trans with (pow2 63); [done|].
    apply pow2_lt. lia. }
  split; [apply Hnorm; lia|]. rewrite Hnorm in * by lia. lia.
Qed.

Lemma decimal_valid (n : Z) :
  0 <= n < 2 ^ 63 -> valid_nonneg (div (of_int n) ten_thousand).
Proof.
  intros Hn. destruct (Z.eq_dec n 0) as [->|Hn0]; [done|].
  destruct (of_int_normal n ltac:(lia)) as (m & e & -> & Hd & He).
  apply (div_rounds m 5497558138880000 e (-39) Hd eq_refl). lia.
Qed.

Lemma decimal_mono (n n' : Z) :
  0 <= n <= n' -> n' < 2 ^ 63 ->
  (to_Q (div (of_int n) ten_thousand)
   <= to_Q (div (of_int n') ten_thousand))%Q.
Proof.
  intros Hn Hn'.
  destruct (Z.eq_dec n 0) as [->|Hn0].
  { apply (valid_nonneg_to_Q (div (of_int n') ten_thousand)).
    apply decimal_valid. lia. }
  destruct (of_int_facts n 63 ltac:(lia) ltac:(lia)) as (Rn & _).
  destruct (of_int_facts n' 63 ltac:(lia) ltac:(lia)) as (Rn' & _).
  assert (to_Q (of_int n) <= to_Q (of_int n'))%Q as Mn.
  { apply (rounds_to_mono _ _ _ _ Rn Rn'). rewrite <- Zle_Qle. lia. }
  destruct (of_int_normal n ltac:(lia)) as (m & e & E & Hd & He).
  destruct (of_int_normal n' ltac:(lia)) as (m' & e' & E' & Hd' & He').
  rewrite E, E' in *.
  pose proof (div_rounds m 5497558138880000 e (-39) Hd eq_refl ltac:(lia)) as R.
  pose proof (div_rounds m' 5497558138880000 e' (-39) Hd' eq_refl ltac:(lia)) as R'.
  apply (rounds_to_mono _ _ _ _ R R').
  apply Qmult_le_compat_r; [done|]. vm_compute. discriminate.
Qed.

Lemma to_int_scaled_cost (a b : Z) :
  0 <= a <= max_int64 -> 0 <= b <= max_int64 ->
  0 <= to_int (scaled_cost a b) < 2 ^ 63.
Proof.
  intros Ha Hb. destruct (scaled_cost_facts a b Ha Hb) as [Vt Bt].
  assert (to_Q (scaled_cost a b) < pow2 63)%Q as Hlt.
  { apply Qle_lt_trans with (pow2 62); [done | apply pow2_lt; lia]. }
  destruct (to_int_spec _ Vt Hlt) as (H0 & H1 & _). split; [done|].
  rewrite Zlt_Qlt, pow2_inject by lia. lra.
Qed.

Lemma CalculateCost_mono (key : string) (a a' b b' : Z) :
  0 <= a <= a' -> a' <= max_int64 -> 0 <= b <= b' -> b' <= max_int64 ->
  leb (CalculateCost (client_of key) a b) (CalculateCost (client_of key) a' b')
  = true.
Proof.
  intros Ha Ha' Hb Hb'. rewrite !CalculateCost_steps.
  pose proof (to_int_scaled_cost a b ltac:(lia) ltac:(lia)) as Hn.
  pose proof (to_int_scaled_cost a' b' ltac:(lia) ltac:(lia)) as Hn'.
  destruct (scaled_cost_facts a b ltac:(lia) ltac:(lia)) as [Vt Bt].
  destruct (scaled_cost_facts a' b' ltac:(lia) ltac:(lia)) as [Vt' Bt'].
  assert (to_int (scaled_cost a b) <= to_int (scaled_cost a' b')) as Mn.
  { apply to_int_mono; [done|done|by apply scaled_cost_mono|].
    apply Qle_lt_trans with (pow2 62); [done | apply pow2_lt; lia]. }
  apply leb_of_Qle; [apply decimal_valid; lia..|].
  apply decimal_mono; lia.
Qed.

(** ** The integer kept by the truncation converts back exactly *)

Lemma of_int_exact (n j s : Z) :
  n = j * 2 ^ s -> 0 <= j < 2 ^ 53 -> 0 <= s -> n < 2 ^ 1023 ->
  (to_Q (of_int n) == inject_Z n)%Q.
Proof.
  intros E Hj Hs Hn.
  assert (0 < 2 ^ s) as Hps by (apply Z.pow_pos_nonneg; lia).
  destruct (Z.eq_dec j 0) as [->|Hj0]; [by subst n|].
  assert (0 < n) as Hn0 by nia.
  pose proof (of_int_rounds n ltac:(lia)) as Rn.
  pose proof (Zdigits2_spec n Hn0) as [Hd1 Hd2].
  pose proof (Zdigits2_pos n Hn0) as Hd0.
  assert (Zdigits2 n = Zdigits2 j + s) as Ed by (subst n; apply Zdigits2_shift; lia).
  assert (Zdigits2 j <= 53) as Hdj.
  { pose proof (Zdigits2_spec j ltac:(lia)) as [H1 _].
    destruct (Z_lt_le_dec 53 (Zdigits2 j)); [|done].
    assert (2 ^ 53 <= 2 ^ (Zdigits2 j - 1)) by (apply Z.pow_le_mono_r; lia).
    lia. }
  apply (rounds_to_exact _ _ (j * 2 ^ (s - cexp (Zdigits2 n))) (Zdigits2 n) Rn).
  - rewrite <- (pow2_inject (Zdigits2 n - 1)), <- (pow2_inject (Zdigits2 n)) by lia.
    rewrite <- Zle_Qle, <- Zlt_Qlt. done.
  - assert (cexp (Zdigits2 n) <= s) as Hc by (unfold cexp; lia).
    set (c := cexp (Zdigits2 n)) in *.
    replace (pow2 c) with (pow2 (s - (s - c))) by (f_equal; lia).
    rewrite inject_pow2_shift by lia.
    rewrite E, inject_Z_mult, pow2_inject by lia. reflexivity.
Qed.

Lemma to_int_representable (f : float64) :
  valid_nonneg f -> (to_Q f < pow2 63)%Q ->
  exists j s, to_int f = j * 2 ^ s /\ 0 <= j < 2 ^ 53 /\ 0 <= s.
Proof.
  intros Vf Hlt. destruct (to_int_spec f Vf Hlt) as (H0 & H1 & H2).
  destruct f as [[]| | |[] m e]; try done.
  { exists 0, 0. cbn. lia. }
  assert (to_int (S754_finite false m e) < 2 ^ 63) as H63.
  { rewrite Zlt_Qlt, pow2_inject by lia. lra. }
  assert (to_int (S754_finite false m e) = Z.shiftl (Z.pos m) e) as E.
  { cbn [to_int]. destruct (_ && _) eqn:Hr; [done|].
    cbn [to_int] in H0. rewrite Hr in H0. unfold min_int64 in H0. lia. }
  apply bounded_digits in Vf as (He & Hd & _).
  pose proof (digits2_pos_spec m) as [_ Hm].
  assert (Z.pos m < 2 ^ 53).
  { assert (2 ^ Z.pos (digits2_pos m) <= 2 ^ 53) by (apply Z.pow_le_mono_r; lia).
    lia. }
  rewrite E. destruct (Z_le_gt_dec 0 e).
  - exists (Z.pos m), e. rewrite Z.shiftl_mul_pow2 by done. lia.
  - exists (Z.shiftl (Z.pos m) e), 0. rewrite Z.shiftl_div_pow2 by lia.
    assert (0 < 2 ^ (- e)) by (apply Z.pow_pos_nonneg; lia).
    assert (0 <= Z.pos m / 2 ^ (- e)) by (apply Z.div_pos; lia).
    assert (Z.pos m / 2 ^ (- e) <= Z.pos m) by (apply Z.div_le_upper_bound; nia).
    simpl (2 ^ 0). lia.
Qed.

Lemma to_int_scaled_cost_exact (a b : Z) :
  0 <= a <= max_int64 -> 0 <= b <= max_int64 ->
  (to_Q (of_int (to_int (scaled_cost a b)))
   == inject_Z (to_int (scaled_cost a b)))%Q.
Proof.
  intros Ha Hb. destruct (scaled_cost_facts a b Ha Hb) as [Vt Bt].
  assert (to_Q (scaled_cost a b) < pow2 63)%Q as Hlt.
  { apply Qle_lt_trans with (pow2 62); [done | apply pow2_lt; lia]. }
  destruct (to_int_representable _ Vt Hlt) as (j & s & E & Hj & Hs).
  pose proof (to_int_scaled_cost a b Ha Hb).
  assert (2 ^ 63 < 2 ^ 1023) by (apply Z.pow_lt_mono_r; lia).
  apply (of_int_exact _ j s); [done..|lia].
Qed.

Lemma NewClaudeClient_client_of (env_api_key : string) (c : ClaudeClient) :
  NewClaudeClient env_api_key = inr c -> c = client_of env_api_key.
Proof.
  unfold NewClaudeClient. case_decide; [done|]. by intros [= <-].
Qed.

(** C2.  For token counts in the range of Go's non-negative [int]s,
    [CalculateCost] does not decrease when either count grows (in Go's
    own [<=] on float64), and what it returns has at most four decimal
    digits: it is the float64 quotient [n / 10000] of a non-negative
    integer [n] that float64 represents exactly, that is, the binary64
    number nearest to the decimal [n / 10^4]. *)
Theorem CalculateCost_monotone_four_decimals (env_api_key : string)
    (c : ClaudeClient) (a a' b b' : Z) :
  NewClaudeClient env_api_key = inr c ->
  0 <= a <= a' -> a' <= max_int64 -> 0 <= b <= b' -> b' <= max_int64 ->
  leb (CalculateCost c a b) (CalculateCost c a' b) = true
  /\ leb (CalculateCost c a b) (CalculateCost c a b') = true
  /\ exists n,
       0 <= n /\ (to_Q (of_int n) == inject_Z n)%Q
       /\ CalculateCost c a b = div (of_int n) (of_int 10000).
Proof.
  intros ->%NewClaudeClient_client_of Ha Ha' Hb Hb'. split; [|split].
  - apply CalculateCost_mono; lia.
  - apply CalculateCost_mono; lia.
  - exists (to_int (scaled_cost a b)).
    pose proof (to_int_scaled_cost a b ltac:(lia) ltac:(lia)).
    split; [lia|]. split; [|reflexivity].
    apply to_int_scaled_cost_exact; lia.
Qed.

Lemma CalculateCost_monotone_four_decimals_witness :
  leb (CalculateCost (client_of "sk-test") 699 480)
      (CalculateCost (client_of "sk-test") 700 480) = true
  /\ leb (CalculateCost (client_of "sk-test") 699 480)
         (CalculateCost (client_of "sk-test") 699 481) = true
  /\ exists n,
       0 <= n /\ (to_Q (of_int n) == inject_Z n)%Q
       /\ CalculateCost (client_of "sk-test") 699 480
          = div (of_int n) (of_int 10000).
Proof.
  apply (CalculateCost_monotone_four_decimals "sk-test" (client_of "sk-test")
           699 700 480 481); [reflexivity | unfold max_int64; lia..].
Defined.

(** C1, at the failing input.  For 700 input tokens and 480 output tokens
    the exact cost is 0.0021 + 0.0072 = 0.0093, which has four decimal
    places already, so the specification's formula gives 0.0093.  In
    float64 the sum times 10000 falls just short of 93, the conversion to
    [int] keeps 92, and [CalculateCost] returns the float64 for 0.0092. *)
Theorem cost_of_700_and_480_is_one_short (env_api_key : string)
    (c : ClaudeClient) :
  NewClaudeClient env_api_key = inr c ->
  (to_Q (scaled_cost 700 480) < 93)%Q
  /\ to_int (scaled_cost 700 480) = 92
  /\ CalculateCost c 700 480 = div (of_int 92) (of_int 10000)
  /\ (to_Q (CalculateCost c 700 480) < 921 # 100000)%Q
  /\ (exact_cost 700 480 == 93 # 10000)%Q
  /\ (calculateCost_spec 700 480 == 93 # 10000)%Q.
Proof. intros ->%NewClaudeClient_client_of. repeat split. Qed.

Lemma cost_of_700_and_480_is_one_short_witness :
  CalculateCost (client_of "sk-test") 700 480 = div (of_int 92) (of_int 10000)
  /\ (calculateCost_spec 700 480 == 93 # 10000)%Q.
Proof.
  destruct (cost_of_700_and_480_is_one_short "sk-test" (client_of "sk-test")
              eq_refl) as (_ & _ & H1 & _ & _ & H2).
  exact (conj H1 H2).
Defined.

(* ===================================================================== *)
(** * Part III: further properties of the code                            *)
(* ===================================================================== *)

(** ** The result interpreter: what is extracted *)

Lemma bytes_string_bytes (b : bytes) : bytes_of_string (string_of_bytes b) = b.
Proof. apply String.list_ascii_of_string_of_list_ascii. Qed.

Lemma string_bytes_string (s : string) : string_of_bytes (bytes_of_string s) = s.
Proof. apply String.string_of_list_ascii_of_string. Qed.

Lemma Index_is_Some (s sep : bytes) (i : nat) :
  sep `prefix_of` drop i s -> (i <= length s)%nat -> is_Some (Bytes.Index s sep).
Proof.
  intros Hp Hi. destruct (Bytes.Index s sep) eqn:E; [by eexists|].
  by destruct (Index_None_spec _ _ E i).
Qed.

(** The first instance is where [Index] says. *)
Lemma Index_first (s sep : bytes) (n : nat) :
  sep `prefix_of` drop n s -> (n + length sep <= length s)%nat ->
  (forall i, (i < n)%nat -> ~ sep `prefix_of` drop i s) ->
  Bytes.Index s sep = Some n.
Proof.
  intros Hp Hn Hfirst. destruct (Bytes.Index s sep) as [m|] eqn:E.
  - destruct (Index_Some_spec _ _ _ E) as [Hm Hm']. f_equal.
    destruct (lt_eq_lt_dec m n) as [[Hlt| ->]|Hgt]; [|done|].
    + by destruct (Hfirst m Hlt).
    + by destruct (Hm' n Hgt).
  - by destruct (Index_None_spec _ _ E n).
Qed.

(** A text without the first byte of [sep] has no instance of it, and in
    front of an instance it is what [Index] skips. *)
Lemma fresh_no_prefix (c : ascii) (sep' pre rest : bytes) (i : nat) :
  c ∉ pre -> (i < length pre)%nat ->
  ~ (c :: sep') `prefix_of` drop i (pre ++ rest).
Proof.
  intros Hc Hi [k Hk]. apply Hc.
  assert (pre !! i = Some c) as Hl.
  { rewrite <- (lookup_app_l pre rest) by done.
    rewrite <- (Nat.add_0_r i), <- lookup_drop, Hk. done. }
  by eapply list_elem_of_lookup_2.
Qed.

Lemma Index_fresh (c : ascii) (sep' pre rest : bytes) :
  c ∉ pre ->
  Bytes.Index (pre ++ (c :: sep') ++ rest) (c :: sep') = Some (length pre).
Proof.
  intros Hc. apply Index_first.
  - rewrite drop_app_length. by apply prefix_app_r.
  - rewrite !length_app. lia.
  - intros i Hi. by apply fresh_no_prefix.
Qed.

Lemma Index_fresh_None (c : ascii) (sep' s : bytes) :
  c ∉ s -> Bytes.Index s (c :: sep') = None.
Proof.
  intros Hc. destruct (Bytes.Index s (c :: sep')) as [m|] eqn:E; [|done].
  pose proof (Index_Some_bound _ _ _ E) as Hb. cbn [length] in Hb.
  destruct (Index_Some_spec _ _ _ E) as [Hm _].
  destruct (fresh_no_prefix c sep' s [] m Hc ltac:(lia)).
  by rewrite app_nil_r.
Qed.

Lemma Cut_fresh (c : ascii) (sep' pre rest : bytes) :
  c ∉ pre ->
  Bytes.Cut (pre ++ (c :: sep') ++ rest) (c :: sep') = Some (pre, rest).
Proof.
  intros Hc. unfold Bytes.Cut. rewrite Index_fresh by done.
  rewrite take_app_length. f_equal. f_equal.
  rewrite <- drop_drop, drop_app_length. apply drop_app_length.
Qed.

Lemma before_fresh (c : ascii) (sep' pre rest : bytes) :
  c ∉ pre -> before (c :: sep') (pre ++ (c :: sep') ++ rest) = pre.
Proof. intros Hc. unfold before. by rewrite Cut_fresh. Qed.

Lemma before_fresh_None (c : ascii) (sep' s : bytes) :
  c ∉ s -> before (c :: sep') s = s.
Proof. intros Hc. unfold before, Bytes.Cut. by rewrite Index_fresh_None. Qed.

Lemma fence_eq : fence = backtick :: [backtick; backtick].
Proof. reflexivity. Qed.

Lemma fence_json_eq :
  fence_json = backtick :: [backtick; backtick; "j"; "s"; "o"; "n"]%char.
Proof. reflexivity. Qed.

(** After the body and its closing fence, the next [```json] marker (when
    there is one) is right at the closing fence or after it. *)
Lemma before_json_after_body (body post : bytes) :
  backtick ∉ body -> head post <> Some backtick ->
  before fence (before fence_json (body ++ fence ++ post)) = body.
Proof.
  intros Hb Hp. set (rest := body ++ fence ++ post).
  unfold before at 2, Bytes.Cut.
  destruct (Bytes.Index rest fence_json) as [m|] eqn:E.
  2:{ unfold rest. rewrite fence_eq. by apply before_fresh. }
  destruct (Index_Some_spec _ _ _ E) as [Hm _].
  pose proof (Index_Some_bound _ _ _ E) as Hbound.
  destruct (decide (m < length body)%nat) as [Hlt|Hge].
  { exfalso. revert Hm. unfold rest. rewrite fence_json_eq.
    by apply fresh_no_prefix. }
  assert (m = length body \/ m = S (length body) \/ m = S (S (length body))
          \/ (length body + 3 <= m)%nat) as Hcases by lia.
  destruct Hcases as [-> |[-> |[-> |Hm3]]].
  - unfold rest. rewrite take_app_length. rewrite fence_eq.
    by apply before_fresh_None.
  - exfalso. revert Hm. unfold rest.
    replace (S (length body)) with (length body + 1)%nat by lia.
    rewrite <- drop_drop, drop_app_length.
    destruct post as [|c post]; cbn; intros [k Hk]; simplify_eq/=;
      by apply Hp.
  - exfalso. revert Hm. unfold rest.
    replace (S (S (length body))) with (length body + 2)%nat by lia.
    rewrite <- drop_drop, drop_app_length.
    destruct post as [|c post]; cbn; intros [k Hk]; simplify_eq/=;
      by apply Hp.
  - unfold rest.
    replace m with (length body + (3 + (m - length body - 3)))%nat by lia.
    rewrite take_app_add. replace (take (3 + (m - length body - 3)) (fence ++ post)) with (fence ++ take (m - length body - 3) post) by reflexivity.
    rewrite fence_eq. by apply before_fresh.
Qed.

Lemma bytes_wrap_json (pre body post : string) :
  bytes_of_string (wrap_json pre body post)
  = bytes_of_string pre ++ fence_json ++ bytes_of_string body ++ fence
      ++ bytes_of_string post.
Proof. unfold wrap_json. by rewrite !bytes_of_string_app. Qed.

Lemma bytes_wrap (pre body post : string) :
  bytes_of_string (wrap pre body post)
  = bytes_of_string pre ++ fence ++ bytes_of_string body ++ fence
      ++ bytes_of_string post.
Proof. unfold wrap. by rewrite !bytes_of_string_app. Qed.

Lemma attempted_wrap_json (pre body post : string) :
  backtick ∉ bytes_of_string pre -> backtick ∉ bytes_of_string body ->
  head (bytes_of_string post) <> Some backtick ->
  attempted (wrap_json pre body post) = trimmed (bytes_of_string body).
Proof.
  intros Hpre Hbody Hpost. unfold attempted. rewrite bytes_wrap_json.
  rewrite fence_json_eq at 1 2. rewrite Cut_fresh by done.
  by rewrite before_json_after_body.
Qed.

Lemma attempted_wrap (pre body post : string) :
  backtick ∉ bytes_of_string pre -> backtick ∉ bytes_of_string body ->
  Bytes.Contains (bytes_of_string (wrap pre body post)) fence_json = false ->
  attempted (wrap pre body post) = trimmed (bytes_of_string body).
Proof.
  intros Hpre Hbody Hno. unfold attempted. unfold Bytes.Contains in Hno.
  unfold Bytes.Cut at 1.
  destruct (Bytes.Index (bytes_of_string (wrap pre body post)) fence_json);
    [done|].
  rewrite bytes_wrap. rewrite fence_eq at 1 2. rewrite Cut_fresh by done.
  rewrite fence_eq. by rewrite Cut_fresh.
Qed.

(** X1.  A text that holds one block between a [```json] fence and a
    closing fence, with no backtick before the block or inside it and none
    right after the closing fence, is cleaned to the block with the white
    space around it removed; when that decodes as a JSON object, the
    decoded object is the result. *)
Theorem fenced_json_is_extracted
    (json_Unmarshal_map : string -> string + option (gmap string any))
    (pre body post : string) :
  backtick ∉ bytes_of_string pre -> backtick ∉ bytes_of_string body ->
  head (bytes_of_string post) <> Some backtick ->
  cleanText (wrap_json pre body post) = Some (trimmed (bytes_of_string body))
  /\ forall m, json_Unmarshal_map (trimmed (bytes_of_string body)) = inr m ->
       parseResult json_Unmarshal_map (wrap_json pre body post)
       = Some (AMapAny m).
Proof.
  intros Hpre Hbody Hpost.
  assert (cleanText (wrap_json pre body post)
          = Some (trimmed (bytes_of_string body))) as Hc.
  { by rewrite cleanText_attempted, attempted_wrap_json. }
  split; [done|]. intros m Hm. unfold parseResult. rewrite Hc.
  cbn [mbind option_bind]. by rewrite Hm.
Qed.

(** X2.  A text without the marker [```json] that holds one block between
    two plain fences, with no backtick before the block or inside it, is
    cleaned to the block with the white space around it removed; when that
    decodes as a JSON object, the decoded object is the result. *)
Theorem fenced_block_is_extracted
    (json_Unmarshal_map : string -> string + option (gmap string any))
    (pre body post : string) :
  backtick ∉ bytes_of_string pre -> backtick ∉ bytes_of_string body ->
  Bytes.Contains (bytes_of_string (wrap pre body post)) fence_json = false ->
  cleanText (wrap pre body post) = Some (trimmed (bytes_of_string body))
  /\ forall m, json_Unmarshal_map (trimmed (bytes_of_string body)) = inr m ->
       parseResult json_Unmarshal_map (wrap pre body post) = Some (AMapAny m).
Proof.
  intros Hpre Hbody Hno.
  assert (cleanText (wrap pre body post)
          = Some (trimmed (bytes_of_string body))) as Hc.
  { by rewrite cleanText_attempted, attempted_wrap. }
  split; [done|]. intros m Hm. unfold parseResult. rewrite Hc.
  cbn [mbind option_bind]. by rewrite Hm.
Qed.

Lemma fenced_json_is_extracted_witness :
  cleanText (wrap_json "Sure! " " {} " " Bye.") = Some "{}"
  /\ parseResult mock_Unmarshal_map (wrap_json "Sure! " " {} " " Bye.")
     = Some (AMapAny (Some ∅)).
Proof.
  pose proof (fenced_json_is_extracted mock_Unmarshal_map
                "Sure! " " {} " " Bye."
                ltac:(apply (bool_decide_unpack _); vm_compute; exact I)
                ltac:(apply (bool_decide_unpack _); vm_compute; exact I)
                ltac:(discriminate)) as [Hc Hp].
  split; [exact Hc | apply Hp; reflexivity].
Defined.

Lemma fenced_block_is_extracted_witness :
  cleanText (wrap "Here: " "
{}
" " done") = Some "{}"
  /\ parseResult mock_Unmarshal_map (wrap "Here: " "
{}
" " done") = Some (AMapAny (Some ∅)).
Proof.
  pose proof (fenced_block_is_extracted mock_Unmarshal_map "Here: " "
{}
" " done"
                ltac:(apply (bool_decide_unpack _); vm_compute; exact I)
                ltac:(apply (bool_decide_unpack _); vm_compute; exact I)
                ltac:(vm_compute; reflexivity)) as [Hc Hp].
  split; [exact Hc | apply Hp; reflexivity].
Defined.


(** ** White space *)

Lemma strip_one_Some (tokens : list bytes) (s s' : bytes) :
  Bytes.strip_one tokens s = Some s' ->
  exists t, t ∈ tokens /\ s = t ++ s'.
Proof.
  induction tokens as [|t tokens IH]; simpl; [done|].
  destruct (Bytes.HasPrefix s t) eqn:Hp.
  - intros [= <-]. exists t. split; [left|].
    apply HasPrefix_prefix_of in Hp as [k ->]. by rewrite drop_app_length.
  - intros (t' & Ht & Hs)%IH. exists t'. split; [by right | done].
Qed.

Lemma strip_one_None (tokens : list bytes) (s : bytes) :
  Bytes.strip_one tokens s = None ->
  forall t, t ∈ tokens -> ~ t `prefix_of` s.
Proof.
  induction tokens as [|t tokens IH]; simpl; [by intros _ t Ht%elem_of_nil|].
  destruct (Bytes.HasPrefix s t) eqn:Hp; [done|].
  intros Hn t' [-> |Ht]%elem_of_cons.
  - intros Hq%HasPrefix_prefix_of. congruence.
  - by apply IH.
Qed.

Lemma trimLeft_suffix (n : nat) (tokens : list bytes) (s : bytes) :
  Bytes.trimLeft n tokens s `suffix_of` s.
Proof.
  revert s. induction n as [|n IH]; intros s; simpl; [done|].
  destruct (Bytes.strip_one tokens s) as [s'|] eqn:E; [|done].
  apply strip_one_Some in E as (t & _ & ->).
  etrans; [apply IH|]. by apply suffix_app_r.
Qed.

Lemma trimLeft_done (n : nat) (tokens : list bytes) (s : bytes) :
  Forall (fun t => t <> []) tokens -> (length s <= n)%nat ->
  Bytes.strip_one tokens (Bytes.trimLeft n tokens s) = None.
Proof.
  intros Hne. revert s. induction n as [|n IH]; intros s Hn; simpl.
  - destruct s; [|simpl in Hn; lia].
    clear Hn. induction Hne as [|t tokens Ht _ IH]; simpl; [done|].
    by rewrite HasPrefix_nil_false.
  - destruct (Bytes.strip_one tokens s) as [s'|] eqn:E; [|done].
    apply IH. apply strip_one_Some in E as (t & Ht & ->).
    rewrite Forall_forall in Hne. specialize (Hne t Ht).
    rewrite length_app in Hn. destruct t; [done | simpl in Hn; lia].
Qed.

Lemma spaces_nonempty : Forall (fun t => t <> []) Bytes.spaces.
Proof. vm_compute. repeat constructor; discriminate. Qed.

Lemma reverse_spaces_nonempty :
  Forall (fun t : bytes => t <> []) (reverse <$> Bytes.spaces).
Proof. vm_compute. repeat constructor; discriminate. Qed.

(** What [TrimSpace] returns is a piece of its argument with no white
    space at either end. *)
Lemma TrimSpace_infix (s : bytes) : infix (Bytes.TrimSpace s) s.
Proof.
  unfold Bytes.TrimSpace.
  set (s1 := Bytes.trimLeft (length s) Bytes.spaces s).
  destruct (trimLeft_suffix (length s) Bytes.spaces s) as [a Ha].
  fold s1 in Ha.
  destruct (trimLeft_suffix (length s1) (reverse <$> Bytes.spaces) (reverse s1))
    as [b Hb].
  exists a, (reverse b). rewrite <- reverse_app, <- Hb. by rewrite reverse_involutive.
Qed.

Lemma TrimSpace_no_leading (s : bytes) : ~ starts_with_space (Bytes.TrimSpace s).
Proof.
  intros (t & Ht & Hp). unfold Bytes.TrimSpace in Hp.
  set (s1 := Bytes.trimLeft (length s) Bytes.spaces s) in *.
  pose proof (trimLeft_done (length s) Bytes.spaces s spaces_nonempty
                ltac:(done)) as Hs1.
  fold s1 in Hs1. apply (strip_one_None _ _ Hs1 t Ht).
  etrans; [apply Hp|].
  apply prefix_suffix_reverse. rewrite reverse_involutive.
  apply trimLeft_suffix.
Qed.

Lemma TrimSpace_no_trailing (s : bytes) : ~ ends_with_space (Bytes.TrimSpace s).
Proof.
  intros (t & Ht & Hp). unfold Bytes.TrimSpace in Hp.
  set (s1 := Bytes.trimLeft (length s) Bytes.spaces s) in *.
  pose proof (trimLeft_done (length (reverse s1)) (reverse <$> Bytes.spaces)
                (reverse s1) reverse_spaces_nonempty ltac:(done)) as Hy.
  rewrite length_reverse in Hy.
  apply (strip_one_None _ _ Hy (reverse t)).
  - apply list_elem_of_fmap. by exists t.
  - apply suffix_prefix_reverse in Hp. by rewrite reverse_involutive in Hp.
Qed.

(** ** Instances of a separator in a piece *)

Lemma no_instance_infix (sep r s : bytes) :
  infix r s -> Bytes.Index s sep = None -> Bytes.Index r sep = None.
Proof.
  intros (a & b & ->) Hs.
  destruct (Bytes.Index r sep) as [m|] eqn:E; [|done].
  destruct (Index_Some_spec _ _ _ E) as [Hm _].
  pose proof (Index_Some_bound _ _ _ E) as Hb.
  destruct (Index_None_spec _ _ Hs (length a + m)%nat).
  rewrite <- drop_drop, drop_app_length, drop_app_le by lia.
  by apply prefix_app_r.
Qed.

Lemma take_Index_None (s sep : bytes) (m : nat) :
  sep <> [] -> Bytes.Index s sep = Some m -> Bytes.Index (take m s) sep = None.
Proof.
  intros Hsep Hi. destruct (Index_Some_spec _ _ _ Hi) as [_ Hfirst].
  destruct (Bytes.Index (take m s) sep) as [i|] eqn:E; [|done].
  destruct (Index_Some_spec _ _ _ E) as [Hp _].
  pose proof (Index_Some_bound _ _ _ E) as Hb. rewrite length_take in Hb.
  assert (0 < length sep)%nat by (destruct sep; [done | simpl; lia]).
  destruct (Hfirst i ltac:(lia)).
  etrans; [apply Hp|]. rewrite skipn_firstn_comm. apply prefix_take.
Qed.

Lemma before_no_instance (sep s : bytes) :
  sep <> [] -> Bytes.Index (before sep s) sep = None.
Proof.
  intros Hsep. unfold before, Bytes.Cut.
  destruct (Bytes.Index s sep) as [m|] eqn:E; [|done].
  by apply take_Index_None.
Qed.

Lemma no_fence_no_fence_json (s : bytes) :
  Bytes.Index s fence = None -> Bytes.Index s fence_json = None.
Proof.
  intros Hs. destruct (Bytes.Index s fence_json) as [m|] eqn:E; [|done].
  destruct (Index_Some_spec _ _ _ E) as [Hm _].
  destruct (Index_None_spec _ _ Hs m).
  etrans; [|apply Hm]. by exists (bytes_of_string "json").
Qed.

Lemma attempted_no_fence (t : string) :
  Bytes.Index (bytes_of_string t) fence = None -> attempted t = t.
Proof.
  intros Hs. unfold attempted, Bytes.Cut.
  by rewrite (no_fence_no_fence_json _ Hs), Hs.
Qed.

Lemma trimmed_no_fence (b : bytes) :
  Bytes.Index b fence = None ->
  Bytes.Index (bytes_of_string (trimmed b)) fence = None.
Proof.
  intros Hb. unfold trimmed. rewrite bytes_string_bytes.
  eapply no_instance_infix; [apply TrimSpace_infix | done].
Qed.

(** The three ways of [parseResult]'s extraction. *)
Lemma attempted_cases (text : string) :
  attempted text = text
  \/ exists b, attempted text = trimmed b /\ Bytes.Index b fence = None.
Proof.
  unfold attempted. set (s := bytes_of_string text).
  destruct (Bytes.Cut s fence_json) as [[a rest]|] eqn:Ej.
  { right. eexists. split; [done|]. by apply before_no_instance. }
  destruct (Bytes.Cut s fence) as [[a rest]|] eqn:Ef; [|by left].
  unfold Bytes.Cut.
  destruct (Bytes.Index rest fence) as [m|] eqn:Em; [|by left].
  right. eexists. split; [reflexivity|]. by apply take_Index_None.
Qed.

(** X3.  Whenever cleaning changes the text, what is left holds no fence
    and neither begins nor ends with white space. *)
Theorem extracted_text_is_clean (text t : string) :
  cleanText text = Some t -> t <> text ->
  Bytes.Contains (bytes_of_string t) fence = false
  /\ ~ starts_with_space (bytes_of_string t)
  /\ ~ ends_with_space (bytes_of_string t).
Proof.
  rewrite cleanText_attempted. intros [= <-] Hne.
  destruct (attempted_cases text) as [H|(b & -> & Hb)]; [done|].
  split; [|split].
  - unfold Bytes.Contains. by rewrite trimmed_no_fence.
  - unfold trimmed. rewrite bytes_string_bytes. apply TrimSpace_no_leading.
  - unfold trimmed. rewrite bytes_string_bytes. apply TrimSpace_no_trailing.
Qed.

(** X4.  Cleaning a cleaned text changes nothing, and a text that is
    interpreted as a decoded object gives the same object once cleaned. *)
Theorem extraction_is_idempotent
    (json_Unmarshal_map : string -> string + option (gmap string any))
    (text t : string) :
  cleanText text = Some t ->
  cleanText t = Some t
  /\ forall m, parseResult json_Unmarshal_map text = Some (AMapAny m) ->
       parseResult json_Unmarshal_map t = Some (AMapAny m).
Proof.
  rewrite cleanText_attempted. intros [= <-].
  assert (cleanText (attempted text) = Some (attempted text)) as Hc.
  { rewrite cleanText_attempted. f_equal.
    destruct (attempted_cases text) as [H|(b & H & Hb)]; rewrite H.
    - done.
    - by apply attempted_no_fence, trimmed_no_fence. }
  split; [done|]. intros m. unfold parseResult.
  rewrite Hc, cleanText_attempted. cbn [mbind option_bind].
  by destruct (json_Unmarshal_map (attempted text)).
Qed.

Lemma extracted_text_is_clean_witness :
  Bytes.Contains (bytes_of_string "not json at all") fence = false
  /\ ~ starts_with_space (bytes_of_string "not json at all")
  /\ ~ ends_with_space (bytes_of_string "not json at all").
Proof.
  apply (extracted_text_is_clean fenced_prose "not json at all");
    [vm_compute; reflexivity | discriminate].
Defined.

Lemma extraction_is_idempotent_witness :
  cleanText "{}" = Some "{}"
  /\ forall m,
       parseResult mock_Unmarshal_map (wrap_json "Sure! " " {} " " Bye.")
       = Some (AMapAny m) ->
       parseResult mock_Unmarshal_map "{}" = Some (AMapAny m).
Proof.
  apply (extraction_is_idempotent mock_Unmarshal_map
           (wrap_json "Sure! " " {} " " Bye.") "{}").
  vm_compute; reflexivity.
Defined.


(** ** The user message *)

Lemma string_app_assoc (a b c : string) : (a +:+ b) +:+ c = a +:+ (b +:+ c).
Proof.
  induction a as [|x a IH]; [done|].
  change (String x ((a +:+ b) +:+ c) = String x (a +:+ b +:+ c)). by rewrite IH.
Qed.

Lemma string_app_nil_r (a : string) : a +:+ EmptyString = a.
Proof.
  induction a as [|x a IH]; [done|].
  change (String x (a +:+ EmptyString) = String x a). by rewrite IH.
Qed.

Lemma context_loop (fmt_v : any -> string) (message : string)
    (entries : list (string * any)) :
  foldl (fun message '(key, value) =>
           message +:+ "- " +:+ key +:+ ": " +:+ fmt_v value +:+ LF)
        message entries
  = message +:+ foldr String.append EmptyString (context_line fmt_v <$> entries).
Proof.
  revert message. induction entries as [|[key value] entries IH]; intros message.
  - simpl. by rewrite string_app_nil_r.
  - cbn [foldl fmap list_fmap foldr]. rewrite IH.
    unfold context_line at 2. cbn [fst snd]. by rewrite string_app_assoc.
Qed.

Section UserMessage.

Context {World : Type}.
Context (map_range : gmap string any -> World -> list (string * any) * World).
Context (fmt_v : any -> string).

(** A [range] loop visits every entry of the map once, in some order. *)
Hypothesis range_visits_all :
  forall context w, (map_range context w).1 ≡ₚ map_to_list context.

(** X5.  If the loop over a map visits each entry once, the user message
    is the line [User Query: <prompt>] and an empty line, followed, when
    the context has entries, by the heading [Additional Context:] and one
    line [- <key>: <value>] for each entry, in the order in which the loop
    visits the entries, which has each entry of the context once.  A
    missing or empty context adds nothing and is not iterated. *)
Theorem buildUserMessage_lists_the_context (prompt : string)
    (context : option (gmap string any)) (w : World) :
  (default ∅ context = ∅ ->
   buildUserMessage World map_range fmt_v prompt context w
   = Some (user_message fmt_v prompt [], w))
  /\ (default ∅ context <> ∅ ->
      buildUserMessage World map_range fmt_v prompt context w
      = Some (user_message fmt_v prompt (map_range (default ∅ context) w).1,
              (map_range (default ∅ context) w).2)
      /\ (map_range (default ∅ context) w).1
         ≡ₚ map_to_list (default ∅ context)).
Proof.
  unfold buildUserMessage.
  destruct context as [c|]; cbn [from_option]; unfold id.
  2:{ split; [done|]. by intros []. }
  split.
  - intros ->. by rewrite decide_False by (rewrite map_size_empty; lia).
  - intros Hc. split; [|apply range_visits_all].
    assert (size c <> 0%nat) as Hsize by (by rewrite map_size_empty_iff).
    rewrite decide_True by lia.
    unfold mbind, SM_bind, in_world, mret, SM_ret.
    pose proof (range_visits_all c w) as Hperm.
    destruct (map_range c w) as [entries w'] eqn:Hr. cbn [fst snd] in *.
    assert (length entries = size c) as Hlen.
    { rewrite Hperm. apply length_map_to_list. }
    unfold user_message. rewrite context_loop. f_equal. f_equal.
    destruct entries as [|e entries]; [simpl in Hlen; lia|].
    by rewrite !string_app_assoc.
Qed.

End UserMessage.

Lemma buildUserMessage_lists_the_context_witness :
  buildUserMessage MockWorld mock_range mock_fmt_v "hi" (Some mock_context)
    mock_world
  = Some (user_message mock_fmt_v "hi" (map_to_list mock_context), mock_world)
  /\ map_to_list mock_context ≡ₚ map_to_list mock_context.
Proof.
  apply (proj2 (buildUserMessage_lists_the_context mock_range mock_fmt_v
                  ltac:(intros context w; reflexivity) "hi"
                  (Some mock_context) mock_world)).
  vm_compute. discriminate.
Defined.


(** ** The orchestration, end to end *)

Section Orchestration.

Context {World : Type}.
Context (time_Now : World -> Time * World).
Context (http_Do : Z -> OutRequest -> World -> (string + RawResponse) * World).
Context (map_range : gmap string any -> World -> list (string * any) * World).
Context (json_Decode_ExecuteRequest : string -> string + ExecuteRequest).
Context (json_Marshal_ClaudeRequest : ClaudeRequest -> string + string).
Context (json_Unmarshal_ClaudeResponse : string -> string + ClaudeResponse).
Context (json_Unmarshal_map : string -> string + option (gmap string any)).
Context (fmt_v : any -> string).
Context (agent : GoAgent).
Context (url_Parse : string -> option (string * string)).
Context (stripHostPort : string -> string).

Local Abbreviation executeHandler' :=
  (executeHandler World time_Now http_Do map_range json_Decode_ExecuteRequest
     json_Marshal_ClaudeRequest json_Unmarshal_ClaudeResponse
     json_Unmarshal_map fmt_v agent).
Local Abbreviation Execute' :=
  (Execute World time_Now http_Do map_range json_Marshal_ClaudeRequest
     json_Unmarshal_ClaudeResponse json_Unmarshal_map fmt_v agent).
Local Abbreviation serve' :=
  (serve World time_Now http_Do map_range json_Decode_ExecuteRequest
     json_Marshal_ClaudeRequest json_Unmarshal_ClaudeResponse
     json_Unmarshal_map fmt_v agent url_Parse stripHostPort).
Local Abbreviation buildUserMessage' :=
  (buildUserMessage World map_range fmt_v).
Local Abbreviation CreateMessage' :=
  (CreateMessage World http_Do json_Marshal_ClaudeRequest
     json_Unmarshal_ClaudeResponse).

(** The reply [CreateMessage] makes of what the transport gave. *)
Lemma CreateMessage_marshal_failed (c : ClaudeClient) (system msg err : string)
    (w : World) :
  json_Marshal_ClaudeRequest (request_body c system msg) = inl err ->
  CreateMessage' c system msg w
  = Some (inl ("failed to marshal request: " +:+ err), w).
Proof. intros H. unfold CreateMessage. fold (request_body c system msg). by rewrite H. Qed.

Lemma CreateMessage_sent (c : ClaudeClient) (system msg data : string)
    (w : World) :
  json_Marshal_ClaudeRequest (request_body c system msg) = inr data ->
  exists res,
    CreateMessage' c system msg w
    = Some (res, (http_Do 60 (upstream_request c data) w).2)
    /\ match res with
       | inl err =>
           upstream_failure json_Unmarshal_ClaudeResponse
             (http_Do 60 (upstream_request c data) w).1 err
       | inr response =>
           exists body,
             (http_Do 60 (upstream_request c data) w).1
             = inr {| raw_StatusCode := StatusOK; raw_Body := inr body |}
             /\ json_Unmarshal_ClaudeResponse body = inr response
       end.
Proof.
  intros H. unfold CreateMessage. fold (request_body c system msg). rewrite H.
  cbn [http_NewRequest]. unfold mbind, SM_bind, in_world.
  change (out_Header_Set _ _ (out_Header_Set _ _ (out_Header_Set _ _ _)))
    with (upstream_request c data).
  destruct (http_Do 60 (upstream_request c data) w) as [[err|[code body]] w'].
  { eexists. split; [reflexivity|]. constructor. }
  cbn [raw_Body raw_StatusCode fst snd]. destruct body as [err|body].
  { eexists. split; [reflexivity|]. constructor. }
  case_decide as Hc.
  { eexists. split; [reflexivity|]. by constructor. }
  subst code.
  destruct (json_Unmarshal_ClaudeResponse body) as [err|response] eqn:Hd.
  - eexists. split; [reflexivity|]. by constructor.
  - eexists. split; [reflexivity|]. by eexists.
Qed.

Lemma content_text (response : ClaudeResponse) (w : World) :
  (if decide (0 < length (ClaudeResponse_Content response))%nat
   then c ← assert (ClaudeResponse_Content response !! 0%nat); mret (Text c)
   else mret EmptyString) w = Some (resultText response, w).
Proof.
  unfold resultText. destruct (ClaudeResponse_Content response) as [|c l]; [done|].
  by rewrite decide_True by (simpl; lia).
Qed.

(** [Execute], step by step. *)
Lemma Execute_failed (prompt : string) (context : option (gmap string any))
    (w w0 w1 w2 : World) (t0 : Time) (msg err : string) :
  time_Now w = (t0, w0) ->
  buildUserMessage' prompt context w0 = Some (msg, w1) ->
  CreateMessage' (client agent) buildSystemPrompt msg w1 = Some (inl err, w2) ->
  Execute' prompt context w
  = Some (inl ("Claude API call failed: " +:+ err), w2).
Proof.
  intros H0 H1 H2. unfold Execute.
  unfold mbind at 1, SM_bind at 1, in_world at 1. rewrite H0.
  unfold mbind at 1, SM_bind at 1. rewrite H1.
  unfold mbind at 1, SM_bind at 1. by rewrite H2.
Qed.

Lemma Execute_succeeded (prompt : string) (context : option (gmap string any))
    (w w0 w1 w2 w3 : World) (t0 t1 : Time) (msg : string)
    (response : ClaudeResponse) (result : any) :
  time_Now w = (t0, w0) ->
  buildUserMessage' prompt context w0 = Some (msg, w1) ->
  CreateMessage' (client agent) buildSystemPrompt msg w1
    = Some (inr response, w2) ->
  parseResult json_Unmarshal_map (resultText response) = Some result ->
  time_Now w2 = (t1, w3) ->
  Execute' prompt context w
  = Some (inr (result_data result
                 (CalculateCost (client agent) (InputTokens (Usage response))
                    (OutputTokens (Usage response)))
                 (Z.quot (monotonic_ns t1 - monotonic_ns t0) 1000000)
                 (model (client agent))
                 (InputTokens (Usage response))
                 (OutputTokens (Usage response))), w3).
Proof.
  intros H0 H1 H2 Hp H3. unfold Execute.
  unfold mbind at 1, SM_bind at 1, in_world at 1. rewrite H0.
  unfold mbind at 1, SM_bind at 1. rewrite H1.
  unfold mbind at 1, SM_bind at 1. rewrite H2.
  unfold mbind at 1, SM_bind at 1. rewrite content_text.
  rewrite Hp. cbn [assert].
  unfold mbind, SM_bind, mret, SM_ret, in_world. by rewrite H3.
Qed.


Lemma CreateMessage_failure (c : ClaudeClient) (system msg data err : string)
    (w : World) :
  json_Marshal_ClaudeRequest (request_body c system msg) = inr data ->
  upstream_failure json_Unmarshal_ClaudeResponse
    (http_Do 60 (upstream_request c data) w).1 err ->
  CreateMessage' c system msg w
  = Some (inl err, (http_Do 60 (upstream_request c data) w).2).
Proof.
  intros H Hf. unfold CreateMessage. fold (request_body c system msg). rewrite H.
  cbn [http_NewRequest]. unfold mbind, SM_bind, in_world.
  change (out_Header_Set _ _ (out_Header_Set _ _ (out_Header_Set _ _ _)))
    with (upstream_request c data).
  destruct (http_Do 60 (upstream_request c data) w) as [reply w'].
  cbn [fst snd] in *. inversion Hf as [e|code e|code body Hc|body e Hd]; subst;
    cbn [raw_Body raw_StatusCode]; [done | done | |].
  - by rewrite decide_True.
  - rewrite decide_False by (intros Hc; by apply Hc). by rewrite Hd.
Qed.

Lemma CreateMessage_success (c : ClaudeClient) (system msg data body : string)
    (response : ClaudeResponse) (w : World) :
  json_Marshal_ClaudeRequest (request_body c system msg) = inr data ->
  (http_Do 60 (upstream_request c data) w).1
    = inr {| raw_StatusCode := StatusOK; raw_Body := inr body |} ->
  json_Unmarshal_ClaudeResponse body = inr response ->
  CreateMessage' c system msg w
  = Some (inr response, (http_Do 60 (upstream_request c data) w).2).
Proof.
  intros H Hr Hd. unfold CreateMessage. fold (request_body c system msg).
  rewrite H. cbn [http_NewRequest]. unfold mbind, SM_bind, in_world.
  change (out_Header_Set _ _ (out_Header_Set _ _ (out_Header_Set _ _ _)))
    with (upstream_request c data).
  destruct (http_Do 60 (upstream_request c data) w) as [reply w'].
  cbn [fst snd] in *. subst reply. cbn [raw_Body raw_StatusCode].
  rewrite decide_False by (intros Hc; by apply Hc). by rewrite Hd.
Qed.

Lemma run_executeHandler_success (r : Request) (req : ExecuteRequest)
    (w w' : World) (result : any) (jr : json) (cost : float64)
    (duration input output : Z) (model : string) :
  Method r = MethodPost ->
  json_Decode_ExecuteRequest (Body r) = inr req ->
  Execute' (Prompt (Input req)) (Context (Input req)) w
    = Some (inr (result_data result cost duration model input output), w') ->
  marshal_any result = Some jr -> is_finite cost = true -> model <> EmptyString ->
  run (executeHandler' r) w
  = Some (success_response
            (success_envelope jr cost duration model input output), w').
Proof.
  intros Hm Hd He Hj Hc Hmodel. unfold executeHandler.
  rewrite decide_False by (intros H; by apply H).
  rewrite Hd. unfold run, mbind at 2, SM_bind, lift. cbn [st_world st_w].
  rewrite He.
  replace (result_data result cost duration model input output !! "tokensUsed")
    with (Some (AMapInt (list_to_map [ ("input", input); ("output", output) ])))
    by reflexivity.
  replace (result_data result cost duration model input output !! "cost")
    with (Some (AFloat64 cost)) by reflexivity.
  replace (result_data result cost duration model input output !! "duration")
    with (Some (AInt64 duration)) by reflexivity.
  replace (result_data result cost duration model input output !! "model")
    with (Some (AString model)) by reflexivity.
  replace (result_data result cost duration model input output !! "result")
    with (Some result) by reflexivity.
  cbn [as_map_int as_float64 as_int64 as_string assert default].
  unfold mbind, SM_bind, mret, SM_ret. cbn beta iota.
  unfold marshal_ExecuteResponse, marshal_ResultMetadata, marshal_float64.
  cbn [Result ExecuteResponse_Metadata Error Cost Duration Model TokensUsed
       mbind option_bind].
  unfold id. rewrite Hj, Hc. cbn [mbind option_bind].
  rewrite decide_False by done. reflexivity.
Qed.


Lemma NewGoAgent_client (env_api_key : string) (a : GoAgent) :
  NewGoAgent env_api_key = inr a -> client a = client_of env_api_key.
Proof.
  unfold NewGoAgent.
  destruct (NewClaudeClient env_api_key) as [e|c] eqn:Hc; [done|].
  intros [= <-]. by apply NewClaudeClient_client_of in Hc.
Qed.

Lemma valid_nonneg_finite (f : float64) : valid_nonneg f -> is_finite f = true.
Proof. by destruct f as [[]| | |[]]. Qed.

Lemma CalculateCost_valid (key : string) (a b : Z) :
  0 <= a <= max_int64 -> 0 <= b <= max_int64 ->
  valid_nonneg (CalculateCost (client_of key) a b).
Proof.
  intros Ha Hb. rewrite CalculateCost_steps. apply decimal_valid.
  by apply to_int_scaled_cost.
Qed.

(** X6.  A POST /execute whose body decodes and whose request encodes is
    answered with status 500 and the error
    [Claude API call failed: <reason>] whenever the upstream call fails: the
    request cannot be sent, the reply's body cannot be read, the reply's
    status is not 200 (the reason then quotes the status and the body), or
    the reply does not decode.  The clock is read once, before the call,
    and not again. *)
Theorem upstream_failure_is_reported (r : Request) (req : ExecuteRequest)
    (w w0 w1 : World) (t0 : Time) (msg data err : string) :
  URL_Path r = "/execute" -> RequestURI r <> "*" -> Method r = MethodPost ->
  json_Decode_ExecuteRequest (Body r) = inr req ->
  time_Now w = (t0, w0) ->
  buildUserMessage' (Prompt (Input req)) (Context (Input req)) w0
    = Some (msg, w1) ->
  json_Marshal_ClaudeRequest
    (request_body (client agent) buildSystemPrompt msg) = inr data ->
  upstream_failure json_Unmarshal_ClaudeResponse
    (http_Do 60 (upstream_request (client agent) data) w1).1 err ->
  serve' r w
  = Some (error_response ("Claude API call failed: " +:+ err),
          (http_Do 60 (upstream_request (client agent) data) w1).2).
Proof.
  intros Hp Hu Hm Hd H0 H1 H2 Hf.
  rewrite (serve_execute time_Now http_Do map_range json_Decode_ExecuteRequest
             json_Marshal_ClaudeRequest json_Unmarshal_ClaudeResponse
             json_Unmarshal_map fmt_v agent url_Parse stripHostPort) by done.
  rewrite deliver_post by done.
  eapply run_executeHandler_failure; [done..|].
  eapply Execute_failed; [done..|]. by apply CreateMessage_failure.
Qed.

(** X7.  A POST /execute whose body decodes, whose upstream call is
    answered with status 200 and a reply that decodes, with token counts
    that are not negative, is answered with status 200 and the JSON body
    whose [result] is the interpreted text of the first content block and
    whose [metadata] holds the cost of the two token counts, the elapsed
    milliseconds between the two readings of the clock (rounded toward
    zero), the model name and the two token counts. *)
Theorem execute_success_envelope (env_api_key : string) (r : Request)
    (req : ExecuteRequest) (w w0 w1 w3 : World) (t0 t1 : Time)
    (msg data body : string) (response : ClaudeResponse) (result : any)
    (jr : json) :
  NewGoAgent env_api_key = inr agent ->
  URL_Path r = "/execute" -> RequestURI r <> "*" -> Method r = MethodPost ->
  json_Decode_ExecuteRequest (Body r) = inr req ->
  time_Now w = (t0, w0) ->
  buildUserMessage' (Prompt (Input req)) (Context (Input req)) w0
    = Some (msg, w1) ->
  json_Marshal_ClaudeRequest
    (request_body (client agent) buildSystemPrompt msg) = inr data ->
  (http_Do 60 (upstream_request (client agent) data) w1).1
    = inr {| raw_StatusCode := StatusOK; raw_Body := inr body |} ->
  json_Unmarshal_ClaudeResponse body = inr response ->
  0 <= InputTokens (Usage response) <= max_int64 ->
  0 <= OutputTokens (Usage response) <= max_int64 ->
  parseResult json_Unmarshal_map (resultText response) = Some result ->
  marshal_any result = Some jr ->
  time_Now (http_Do 60 (upstream_request (client agent) data) w1).2 = (t1, w3) ->
  serve' r w
  = Some (success_response
            (success_envelope jr
               (CalculateCost (client agent) (InputTokens (Usage response))
                  (OutputTokens (Usage response)))
               (Z.quot (monotonic_ns t1 - monotonic_ns t0) 1000000)
               "claude-sonnet-4-5-20250929"
               (InputTokens (Usage response))
               (OutputTokens (Usage response))), w3).
Proof.
  intros Ha Hp Hu Hm Hd H0 H1 H2 Hr Hdec Hin Hout Hres Hj H3.
  pose proof (NewGoAgent_client _ _ Ha) as Hc.
  rewrite (serve_execute time_Now http_Do map_range json_Decode_ExecuteRequest
             json_Marshal_ClaudeRequest json_Unmarshal_ClaudeResponse
             json_Unmarshal_map fmt_v agent url_Parse stripHostPort) by done.
  rewrite deliver_post by done.
  eapply run_executeHandler_success; [done | done | | done | |done].
  - replace "claude-sonnet-4-5-20250929" with (model (client agent))
      by (by rewrite Hc).
    eapply Execute_succeeded; [done | done | | done | done].
    by eapply CreateMessage_success.
  - rewrite Hc. by apply valid_nonneg_finite, CalculateCost_valid.
Qed.

End Orchestration.

Lemma upstream_failure_is_reported_witness :
  mock_serve upstream_overloaded (request "POST" "/execute" "good") mock_world
  = Some (error_response
            "Claude API call failed: Claude API error (503): overloaded",
          {| calls := 1; clock := 5000000 |}).
Proof.
  apply (upstream_failure_is_reported mock_Now (mock_Do upstream_overloaded)
           mock_range mock_Decode mock_Marshal mock_Unmarshal_ClaudeResponse
           mock_Unmarshal_map mock_fmt_v mock_agent mock_Parse id
           (request "POST" "/execute" "good") (mock_request 1000)
           mock_world {| calls := 0; clock := 5000000 |}
           {| calls := 0; clock := 5000000 |}
           {| unix := 1704654321; monotonic_ns := 0 |}
           (user_message mock_fmt_v "hi" []) "{}"
           "Claude API error (503): overloaded");
    [reflexivity | discriminate | reflexivity | reflexivity | reflexivity
    | reflexivity | reflexivity |].
  apply (status_not_ok mock_Unmarshal_ClaudeResponse 503 "overloaded").
  discriminate.
Defined.

Lemma execute_success_envelope_witness :
  mock_serve upstream_ok (request "POST" "/execute" "good") mock_world
  = Some (success_response
            (success_envelope (JObject ∅)
               (CalculateCost (client_of "sk-test") 95 1) 5
               "claude-sonnet-4-5-20250929" 95 1),
          {| calls := 1; clock := 10000000 |}).
Proof.
  apply (execute_success_envelope mock_Now (mock_Do upstream_ok) mock_range
           mock_Decode mock_Marshal mock_Unmarshal_ClaudeResponse
           mock_Unmarshal_map mock_fmt_v mock_agent mock_Parse id "sk-test"
           (request "POST" "/execute" "good") (mock_request 1000)
           mock_world {| calls := 0; clock := 5000000 |}
           {| calls := 0; clock := 5000000 |}
           {| calls := 1; clock := 10000000 |}
           {| unix := 1704654321; monotonic_ns := 0 |}
           {| unix := 1704654321; monotonic_ns := 5000000 |}
           (user_message mock_fmt_v "hi" []) "{}" "{}"
           {| ClaudeResponse_ID := "msg_1";
              ClaudeResponse_Type := "message";
              ClaudeResponse_Role := "assistant";
              ClaudeResponse_Content :=
                [ {| ClaudeContent_Type := "text"; Text := "{}" |} ];
              ClaudeResponse_Model := "claude-sonnet-4-5-20250929";
              Usage := {| InputTokens := 95; OutputTokens := 1 |} |}
           (AMapAny (Some ∅)) (JObject ∅));
    [reflexivity | reflexivity | discriminate | reflexivity | reflexivity
    | reflexivity | reflexivity | reflexivity | reflexivity | reflexivity
    | vm_compute; split; discriminate | vm_compute; split; discriminate
    | vm_compute; reflexivity | vm_compute; reflexivity | reflexivity].
Defined.


(** ** Routing *)

Section Routing.

Context {World : Type}.
Context (time_Now : World -> Time * World).
Context (http_Do : Z -> OutRequest -> World -> (string + RawResponse) * World).
Context (map_range : gmap string any -> World -> list (string * any) * World).
Context (json_Decode_ExecuteRequest : string -> string + ExecuteRequest).
Context (json_Marshal_ClaudeRequest : ClaudeRequest -> string + string).
Context (json_Unmarshal_ClaudeResponse : string -> string + ClaudeResponse).
Context (json_Unmarshal_map : string -> string + option (gmap string any)).
Context (fmt_v : any -> string).
Context (agent : GoAgent).
Context (url_Parse : string -> option (string * string)).
Context (stripHostPort : string -> string).

Local Abbreviation executeHandler' :=
  (executeHandler World time_Now http_Do map_range json_Decode_ExecuteRequest
     json_Marshal_ClaudeRequest json_Unmarshal_ClaudeResponse
     json_Unmarshal_map fmt_v agent).
Local Abbreviation serve' :=
  (serve World time_Now http_Do map_range json_Decode_ExecuteRequest
     json_Marshal_ClaudeRequest json_Unmarshal_ClaudeResponse
     json_Unmarshal_map fmt_v agent url_Parse stripHostPort).
Local Abbreviation the_mux' :=
  (the_mux World time_Now http_Do map_range json_Decode_ExecuteRequest
     json_Marshal_ClaudeRequest json_Unmarshal_ClaudeResponse
     json_Unmarshal_map fmt_v agent).

Local Abbreviation handler_of' :=
  (handler_of World time_Now http_Do map_range json_Decode_ExecuteRequest
     json_Marshal_ClaudeRequest json_Unmarshal_ClaudeResponse
     json_Unmarshal_map fmt_v agent url_Parse).

(** The handler the multiplexer of [main] finds for a host and a path. *)
Lemma mux_handler_route (host p : string) :
  mux_handler the_mux' host p = handler_of' (path_route p).
Proof.
  unfold path_route. destruct (m the_mux' !! p) as [e|] eqn:He.
  - rewrite (mux_handler_key _ _ _ _ _ _ _ _ _ host p e He).
    destruct (the_mux_keys _ _ _ _ _ _ _ _ _ p (mk_is_Some _ _ He))
      as [Hk|[Hk|[Hk|Hk]]]; subst p; by injection He as <-.
  - assert (p <> "/execute" /\ p <> "/health" /\ p <> "/info") as (H1 & H2 & H3).
    { repeat split; intros ->; discriminate He. }
    rewrite !decide_False by done.
    unfold mux_handler, mux_match, the_mux in *. cbn [hosts m es] in *.
    rewrite He. cbn [filter list_filter pattern].
    destruct (strings_HasPrefix p "/"); [by rewrite decide_True|].
    by rewrite decide_False by (by intros []).
Qed.

(** The server is its routing table. *)
Lemma serve_route (r : Request) (w : World) :
  serve' r w = deliver r (run (handler_of' (route_of r) r) w).
Proof.
  unfold serve, route_of.
  rewrite (DefaultServeMux_eq time_Now http_Do map_range
             json_Decode_ExecuteRequest json_Marshal_ClaudeRequest
             json_Unmarshal_ClaudeResponse json_Unmarshal_map fmt_v agent).
  cbn [mbind option_bind].
  destruct (decide (RequestURI r = "*")) as [Hu|Hu].
  { rewrite (bool_decide_eq_true_2 _ Hu). cbn [andb].
    unfold ServeMux_ServeHTTP. rewrite decide_True by done.
    case_bool_decide; [by rewrite decide_True | by rewrite decide_False]. }
  rewrite (bool_decide_eq_false_2 _ Hu). cbn [andb].
  unfold ServeMux_ServeHTTP. rewrite decide_False by done.
  unfold mux_Handler. rewrite !shouldRedirect_false.
  destruct (decide (Method r = "CONNECT")); [by rewrite mux_handler_route|].
  case_decide; [done|]. by rewrite mux_handler_route.
Qed.

(** What each handler does to the world. *)
Lemma run_handler_of (k : route) (r : Request) (w : World) :
  k <> ToExecute ->
  exists resp,
    run (handler_of' k r) w
    = Some (resp, match k with ToHealth => (time_Now w).2 | _ => w end).
Proof.
  intros Hk. destruct k as [| |url| | | | |]; cbn [handler_of]; [..|done].
  - by eexists.
  - unfold badRequestHandler. destruct (Proto11 r); by eexists.
  - destruct (run_RedirectHandler url_Parse url StatusMovedPermanently r w)
      as (resp & -> & _). by eexists.
  - unfold NotFoundHandler. rewrite run_http_Error. by eexists.
  - rewrite run_rootHandler. by eexists.
  - unfold run, healthHandler, mbind at 2, SM_bind, Header_Set, on_writer.
    unfold mbind at 2, SM_bind, lift, in_world. cbn [st_world st_w].
    destruct (time_Now w) as [now w'].
    destruct (marshal_HealthResponse
                {| HealthResponse_Status := "healthy";
                   Timestamp := of_int (unix now) |}) as [j|]; by eexists.
  - destruct (run_infoHandler r w) as (resp & -> & _). by eexists.
Qed.

Lemma route_of_execute (r : Request) :
  route_of r = ToExecute -> URL_Path r = "/execute".
Proof.
  unfold route_of, path_route.
  repeat case_decide; try done; by destruct (strings_HasPrefix _ _).
Qed.

(** The conversion of an integer to float64 is finite. *)
Lemma is_finite_binary_round_aux (s : bool) (mx ex : Z) (lx : location) :
  is_finite (binary_round_aux prec emax s mx ex lx)
  = is_finite (binary_round_aux prec emax false mx ex lx).
Proof.
  unfold binary_round_aux. destruct (shr_fexp prec emax mx ex lx) as [mrs' e'].
  destruct (shr_fexp _ _ _ e' loc_Exact) as [mrs'' e''].
  destruct (shr_m mrs''); [done | | done]. by destruct (e'' <=? emax - prec).
Qed.

Lemma of_int_finite (n : Z) :
  - 2 ^ 1023 < n < 2 ^ 1023 -> is_finite (of_int n) = true.
Proof.
  intros Hn. destruct n as [|p|p]; [done| |].
  - destruct (of_int_facts (Z.pos p) 1023 ltac:(lia) ltac:(lia))
      as (_ & Hv & _). by apply valid_nonneg_finite.
  - destruct (of_int_facts (Z.pos p) 1023 ltac:(lia) ltac:(lia))
      as (_ & Hv & _). apply valid_nonneg_finite in Hv. revert Hv.
    unfold of_int, binary_normalize, binary_round.
    destruct (shl_align p 0 _) as [mz ez].
    by rewrite (is_finite_binary_round_aux true).
Qed.

(** X8.  Whatever the method, the handler of /health (the request's
    target not being [*], and the clock's seconds being in the range of
    [int64]) writes status 200 and the JSON body whose [status] is
    [healthy] and whose [timestamp] is the clock's reading in seconds, and
    the clock is read once.  The server sends this answer as it is, but to
    a HEAD request without the body. *)
Theorem health_reports_the_clock (r : Request) (w : World) :
  URL_Path r = "/health" -> RequestURI r <> "*" ->
  min_int64 <= unix (time_Now w).1 <= max_int64 ->
  serve' r w
  = Some (sent r (success_response (health_body (unix (time_Now w).1))),
          (time_Now w).2)
  /\ (Method r <> "HEAD" ->
      sent r (success_response (health_body (unix (time_Now w).1)))
      = success_response (health_body (unix (time_Now w).1)))
  /\ (Method r = "HEAD" ->
      sent r (success_response (health_body (unix (time_Now w).1)))
      = {| StatusCode := 200; Header := json_header; ResponseBody := [] |}).
Proof.
  intros Hp Hu Hunix.
  rewrite (serve_unfold time_Now http_Do map_range json_Decode_ExecuteRequest
             json_Marshal_ClaudeRequest json_Unmarshal_ClaudeResponse
             json_Unmarshal_map fmt_v agent url_Parse stripHostPort) by done.
  rewrite (route_key time_Now http_Do map_range json_Decode_ExecuteRequest
             json_Marshal_ClaudeRequest json_Unmarshal_ClaudeResponse
             json_Unmarshal_map fmt_v agent url_Parse stripHostPort r
             {| h := healthHandler time_Now; pattern := "/health" |});
    [| by rewrite Hp | by rewrite Hp].
  cbn [h].
  unfold run, healthHandler, mbind at 2, SM_bind, Header_Set, on_writer.
  unfold mbind at 2, SM_bind, lift, in_world. cbn [st_world st_w].
  destruct (time_Now w) as [now w']. cbn [fst snd] in *.
  unfold marshal_HealthResponse, marshal_float64. cbn [Timestamp].
  rewrite of_int_finite by (unfold min_int64, max_int64 in Hunix; lia).
  split; [reflexivity|]. split.
  - intros Hm. by apply sent_not_head.
  - intros Hm. unfold sent. by rewrite decide_True.
Qed.

(** X9.  Apart from /execute, what the handler writes for a request with
    a clean path depends on the path alone: for two requests for the same
    path (neither being a CONNECT request nor a request for [*]) the
    handler writes the same response and leaves the same world, whatever
    their methods, bodies, queries and hosts.  The server sends each of
    them that response, without the body when the request is a HEAD
    request; so the two answers are equal when neither request, or each of
    them, is a HEAD request. *)
Theorem answer_depends_on_path_alone (r1 r2 : Request) (w : World) :
  URL_Path r1 = URL_Path r2 -> URL_Path r1 <> "/execute" ->
  cleanPath (URL_Path r1) = URL_Path r1 ->
  RequestURI r1 <> "*" -> RequestURI r2 <> "*" ->
  Method r1 <> "CONNECT" -> Method r2 <> "CONNECT" ->
  (exists resp w',
     serve' r1 w = Some (sent r1 resp, w')
     /\ serve' r2 w = Some (sent r2 resp, w'))
  /\ ((Method r1 = "HEAD" <-> Method r2 = "HEAD") -> serve' r1 w = serve' r2 w).
Proof.
  intros Hp Hne Hc Hu1 Hu2 Hm1 Hm2.
  assert (exists resp w',
            serve' r1 w = Some (sent r1 resp, w')
            /\ serve' r2 w = Some (sent r2 resp, w')) as (resp & w' & H1 & H2).
  2:{ split; [by eexists _, _|]. intros Hh. rewrite H1, H2. do 2 f_equal.
      unfold sent. destruct (decide (Method r1 = "HEAD")) as [Hd|Hd].
      - by rewrite decide_True by (by apply Hh).
      - rewrite decide_False; [done|]. intros H. by apply Hd, Hh. }
  rewrite !serve_route.
  assert (route_of r2 = route_of r1) as ->.
  { unfold route_of. rewrite <- Hp, Hc.
    rewrite !(decide_False (P := RequestURI _ = "*")) by done.
    rewrite !(decide_False (P := Method _ = "CONNECT")) by done.
    by rewrite !(decide_False (P := URL_Path r1 <> URL_Path r1))
      by (intros H; by apply H). }
  assert (route_of r1 = path_route (URL_Path r1)) as ->.
  { unfold route_of. rewrite Hc. rewrite !decide_False by done.
    by rewrite decide_False by (intros H; by apply H). }
  assert (path_route (URL_Path r1) <> ToExecute) as Hk.
  { unfold path_route. rewrite decide_False by done.
    repeat case_decide; try done. by destruct (strings_HasPrefix _ _). }
  destruct (run_handler_of _ r1 w Hk) as [resp Hr1].
  assert (run (handler_of' (path_route (URL_Path r1)) r2) w
          = run (handler_of' (path_route (URL_Path r1)) r1) w) as Hr2.
  { revert Hk. unfold path_route. repeat case_decide; try done.
    by destruct (strings_HasPrefix _ _). }
  rewrite Hr2, Hr1. by eexists _, _.
Qed.

(** X10.  No request makes the server panic: every request, whatever the
    upstream service and the decoders do, gets a response.  In particular
    the type assertions of the execute handler on the orchestrator's result
    never fail. *)
Theorem serve_never_panics (r : Request) (w : World) :
  exists resp w', serve' r w = Some (resp, w').
Proof.
  rewrite serve_route. destruct (decide (route_of r = ToExecute)) as [->|Hk].
  - cbn [handler_of].
    destruct (run_executeHandler time_Now http_Do map_range
                json_Decode_ExecuteRequest json_Marshal_ClaudeRequest
                json_Unmarshal_ClaudeResponse json_Unmarshal_map fmt_v agent r w)
      as (resp & w' & -> & _). by eexists _, _.
  - destruct (run_handler_of _ r w Hk) as [resp ->]. by eexists _, _.
Qed.

(** The world after the execute handler is the world after [Execute]. *)
Lemma run_executeHandler_world (r : Request) (req : ExecuteRequest)
    (res : string + gmap string any) (w w' w'' : World) (resp : Response) :
  Method r = MethodPost ->
  json_Decode_ExecuteRequest (Body r) = inr req ->
  Execute World time_Now http_Do map_range json_Marshal_ClaudeRequest
    json_Unmarshal_ClaudeResponse json_Unmarshal_map fmt_v agent
    (Prompt (Input req)) (Context (Input req)) w = Some (res, w') ->
  run (executeHandler' r) w = Some (resp, w'') -> w'' = w'.
Proof.
  intros Hm Hd He. unfold executeHandler.
  rewrite decide_False by (intros H; by apply H).
  rewrite Hd. unfold run, mbind at 2, SM_bind, lift. cbn [st_world st_w].
  rewrite He. destruct res as [msg|d].
  { by intros [= _ <-]. }
  unfold mbind, SM_bind, mret, SM_ret.
  destruct (as_map_int (d !! "tokensUsed")); [|done]. cbn [assert mret SM_ret].
  destruct (as_float64 (d !! "cost")); [|done]. cbn [assert mret SM_ret].
  destruct (as_int64 (d !! "duration")); [|done]. cbn [assert mret SM_ret].
  destruct (as_string (d !! "model")); [|done]. cbn [assert mret SM_ret].
  cbn beta iota.
  match goal with
  | |- context [marshal_ExecuteResponse ?x] =>
      destruct (marshal_ExecuteResponse x)
  end; by intros [= _ <-].
Qed.

End Routing.

Lemma parseResult_Some
    (json_Unmarshal_map : string -> string + option (gmap string any))
    (text : string) :
  is_Some (parseResult json_Unmarshal_map text).
Proof.
  unfold parseResult. rewrite cleanText_attempted. cbn [mbind option_bind].
  destruct (json_Unmarshal_map (attempted text)); by eexists.
Qed.

Section Recording.

Context {World : Type}.
Context (time_Now : World -> Time * World).
Context (http_Do : Z -> OutRequest -> World -> (string + RawResponse) * World).
Context (map_range : gmap string any -> World -> list (string * any) * World).
Context (json_Decode_ExecuteRequest : string -> string + ExecuteRequest).
Context (json_Marshal_ClaudeRequest : ClaudeRequest -> string + string).
Context (json_Unmarshal_ClaudeResponse : string -> string + ClaudeResponse).
Context (json_Unmarshal_map : string -> string + option (gmap string any)).
Context (fmt_v : any -> string).
Context (agent : GoAgent).
Context (url_Parse : string -> option (string * string)).
Context (stripHostPort : string -> string).

Local Abbreviation recorded_serve :=
  (serve (Recorded World) (recording time_Now) (recording_Do http_Do)
     (fun c => recording (map_range c)) json_Decode_ExecuteRequest
     json_Marshal_ClaudeRequest json_Unmarshal_ClaudeResponse
     json_Unmarshal_map fmt_v agent url_Parse stripHostPort).
Local Abbreviation recorded_Execute :=
  (Execute (Recorded World) (recording time_Now) (recording_Do http_Do)
     (fun c => recording (map_range c)) json_Marshal_ClaudeRequest
     json_Unmarshal_ClaudeResponse json_Unmarshal_map fmt_v agent).
Local Abbreviation recorded_buildUserMessage :=
  (buildUserMessage (Recorded World) (fun c => recording (map_range c)) fmt_v).

Lemma buildUserMessage_recorded (prompt : string)
    (context : option (gmap string any)) (w : Recorded World) :
  exists msg w1,
    recorded_buildUserMessage prompt context w = Some (msg, (w1, w.2)).
Proof.
  unfold buildUserMessage. destruct w as [w log].
  destruct context as [c|]; [|by eexists _, _].
  case_decide; [|by eexists _, _].
  unfold mbind, SM_bind, in_world, recording. cbn [fst snd].
  by eexists _, _.
Qed.

(** What [Execute] adds to the log: nothing, or one call. *)
Lemma Execute_recorded (prompt : string) (context : option (gmap string any))
    (w : Recorded World) :
  exists res w' msg,
    (exists w0 w1, recorded_buildUserMessage prompt context w0 = Some (msg, w1))
    /\ recorded_Execute prompt context w = Some (res, w')
    /\ (w'.2 = w.2
        \/ exists data,
             json_Marshal_ClaudeRequest
               (request_body (client agent) buildSystemPrompt msg) = inr data
             /\ w'.2 = w.2 ++ [(60, upstream_request (client agent) data)]).
Proof.
  destruct (recording time_Now w) as [t0 w0] eqn:H0.
  assert (w0.2 = w.2) as Hl0 by (by injection H0 as _ <-).
  destruct (buildUserMessage_recorded prompt context w0) as (msg & w1 & H1).
  rewrite Hl0 in H1.
  destruct (json_Marshal_ClaudeRequest
              (request_body (client agent) buildSystemPrompt msg))
    as [err|data] eqn:Hmar.
  { eexists _, _, msg. split; [by eexists _, _|]. split.
    - eapply Execute_failed; [done..|]. by apply CreateMessage_marshal_failed.
    - by left. }
  destruct (CreateMessage_sent (recording_Do http_Do) json_Marshal_ClaudeRequest
              json_Unmarshal_ClaudeResponse (client agent) buildSystemPrompt
              msg data (w1, w.2) Hmar) as (res & Hcm & _).
  destruct res as [err|response].
  { eexists _, _, msg. split; [by eexists _, _|]. split.
    - eapply Execute_failed; done.
    - right. by exists data. }
  set (w2 := (recording_Do http_Do 60 (upstream_request (client agent) data)
                (w1, w.2)).2) in *.
  destruct (recording time_Now w2) as [t1 w3] eqn:H3.
  assert (w3.2 = w2.2) as Hl3 by (by injection H3 as _ <-).
  destruct (parseResult_Some json_Unmarshal_map (resultText response))
    as [result Hres].
  eexists _, _, msg. split; [by eexists _, _|]. split.
  - eapply Execute_succeeded; done.
  - right. exists data. split; [done|]. by rewrite Hl3.
Qed.

(** X11.  Serving a request calls the upstream service at most once.  A
    call happens only for a POST to /execute whose body decodes; it has a
    timeout of 60 seconds and is the POST to the messages endpoint that
    carries the header entries Content-Type, X-Api-Key and
    Anthropic-Version (the names as [Header.Set] canonicalises them) and
    the encoded request with the system prompt and the user message built
    from the decoded prompt and context. *)
Theorem upstream_is_called_at_most_once (r : Request) (w w' : Recorded World)
    (resp : Response) :
  recorded_serve r w = Some (resp, w') ->
  w'.2 = w.2
  \/ (URL_Path r = "/execute" /\ Method r = MethodPost
      /\ exists req msg data,
           json_Decode_ExecuteRequest (Body r) = inr req
           /\ (exists w0 w1,
                 recorded_buildUserMessage (Prompt (Input req))
                   (Context (Input req)) w0 = Some (msg, w1))
           /\ json_Marshal_ClaudeRequest
                (request_body (client agent) buildSystemPrompt msg) = inr data
           /\ w'.2 = w.2 ++ [(60, upstream_request (client agent) data)]).
Proof.
  rewrite serve_route. intros (resp0 & Hrun & _)%deliver_Some. revert Hrun.
  destruct (decide (route_of r = ToExecute)) as [Hk|Hk].
  2:{ destruct (run_handler_of (recording time_Now) (recording_Do http_Do)
                  (fun c => recording (map_range c)) json_Decode_ExecuteRequest
                  json_Marshal_ClaudeRequest json_Unmarshal_ClaudeResponse
                  json_Unmarshal_map fmt_v agent url_Parse _ r w Hk)
        as [resp' ->].
      intros [= _ <-]. left. by destruct (route_of r). }
  rewrite Hk. cbn [handler_of]. apply route_of_execute in Hk as Hp.
  destruct (decide (Method r = MethodPost)) as [Hm|Hm].
  2:{ rewrite executeHandler_not_post by done. rewrite run_http_Error.
      intros [= _ <-]. by left. }
  destruct (json_Decode_ExecuteRequest (Body r)) as [err|req] eqn:Hd.
  { rewrite (executeHandler_bad_body _ _ _ _ _ _ _ _ _ _ err) by done.
    rewrite run_http_Error. intros [= _ <-]. by left. }
  destruct (Execute_recorded (Prompt (Input req)) (Context (Input req)) w)
    as (res & w'' & msg & Hmsg & He & Hlog).
  intros Hrun.
  rewrite (run_executeHandler_world _ _ _ _ _ _ _ _ _ _ _ _ _ _ _ _
             Hm Hd He Hrun).
  destruct Hlog as [Hlog|(data & Hmar & Hlog)]; [by left|].
  right. split; [done|]. split; [done|]. by exists req, msg, data.
Qed.

End Recording.

Lemma upstream_is_called_at_most_once_witness :
  [(60, upstream_request (client mock_agent) "{}")] = []
  \/ (URL_Path (request "POST" "/execute" "good") = "/execute"
      /\ Method (request "POST" "/execute" "good") = MethodPost
      /\ exists req msg data,
           mock_Decode (Body (request "POST" "/execute" "good")) = inr req
           /\ (exists w0 w1,
                 buildUserMessage (Recorded MockWorld)
                   (fun c => recording (mock_range c)) mock_fmt_v
                   (Prompt (Input req)) (Context (Input req)) w0
                 = Some (msg, w1))
           /\ mock_Marshal
                (request_body (client mock_agent) buildSystemPrompt msg)
              = inr data
           /\ [(60, upstream_request (client mock_agent) "{}")]
              = [] ++ [(60, upstream_request (client mock_agent) data)]).
Proof.
  apply (upstream_is_called_at_most_once mock_Now (mock_Do upstream_down)
           mock_range mock_Decode mock_Marshal mock_Unmarshal_ClaudeResponse
           mock_Unmarshal_map mock_fmt_v mock_agent mock_Parse id
           (request "POST" "/execute" "good") (mock_world, [])
           ({| calls := 1; clock := 5000000 |},
            [(60, upstream_request (client mock_agent) "{}")])
           (error_response
              "Claude API call failed: failed to send request: context deadline exceeded")).
  vm_compute; reflexivity.
Defined.

Lemma health_reports_the_clock_witness :
  mock_serve upstream_ok (request "DELETE" "/health" "") mock_world
  = Some (success_response (health_body 1704654321),
          {| calls := 0; clock := 5000000 |})
  /\ mock_serve upstream_ok (request "HEAD" "/health" "") mock_world
     = Some ({| StatusCode := 200; Header := json_header; ResponseBody := [] |},
             {| calls := 0; clock := 5000000 |}).
Proof.
  split.
  - destruct (health_reports_the_clock mock_Now (mock_Do upstream_ok)
                mock_range mock_Decode mock_Marshal
                mock_Unmarshal_ClaudeResponse mock_Unmarshal_map mock_fmt_v
                mock_agent mock_Parse id (request "DELETE" "/health" "")
                mock_world eq_refl ltac:(discriminate)
                ltac:(vm_compute; split; discriminate)) as (Hs & Hsent & _).
    rewrite Hsent in Hs by discriminate. exact Hs.
  - destruct (health_reports_the_clock mock_Now (mock_Do upstream_ok)
                mock_range mock_Decode mock_Marshal
                mock_Unmarshal_ClaudeResponse mock_Unmarshal_map mock_fmt_v
                mock_agent mock_Parse id (request "HEAD" "/health" "")
                mock_world eq_refl ltac:(discriminate)
                ltac:(vm_compute; split; discriminate)) as (Hs & _ & Hsent).
    rewrite Hsent in Hs by reflexivity. exact Hs.
Defined.

Lemma answer_depends_on_path_alone_witness :
  mock_serve upstream_ok (request "GET" "/info" "") mock_world
  = mock_serve upstream_ok (request "POST" "/info" "good") mock_world.
Proof.
  apply (proj2 (answer_depends_on_path_alone mock_Now (mock_Do upstream_ok)
                  mock_range mock_Decode mock_Marshal
                  mock_Unmarshal_ClaudeResponse mock_Unmarshal_map mock_fmt_v
                  mock_agent mock_Parse id
                  (request "GET" "/info" "") (request "POST" "/info" "good")
                  mock_world eq_refl ltac:(discriminate)
                  ltac:(vm_compute; reflexivity) ltac:(discriminate)
                  ltac:(discriminate) ltac:(discriminate) ltac:(discriminate))).
  split; discriminate.
Defined.


(** ** The API key *)

Section ApiKey.

Context {World : Type}.
Context (time_Now : World -> Time * World).
Context (http_Do1 http_Do2
           : Z -> OutRequest -> World -> (string + RawResponse) * World).
Context (map_range : gmap string any -> World -> list (string * any) * World).
Context (json_Decode_ExecuteRequest : string -> string + ExecuteRequest).
Context (json_Marshal_ClaudeRequest : ClaudeRequest -> string + string).
Context (json_Unmarshal_ClaudeResponse : string -> string + ClaudeResponse).
Context (json_Unmarshal_map : string -> string + option (gmap string any)).
Context (fmt_v : any -> string).
Context (url_Parse : string -> option (string * string)).
Context (stripHostPort : string -> string).
Context (key1 key2 : string).

Local Abbreviation agent_of key := {| client := client_of key |}.

(** The upstream service answers the requests that carry the second key as
    it answers those that carry the first. *)
Hypothesis same_answers : forall data w,
  http_Do2 60 (upstream_request (client_of key2) data) w
  = http_Do1 60 (upstream_request (client_of key1) data) w.

Lemma CreateMessage_key (system msg : string) (w : World) :
  CreateMessage World http_Do2 json_Marshal_ClaudeRequest
    json_Unmarshal_ClaudeResponse (client_of key2) system msg w
  = CreateMessage World http_Do1 json_Marshal_ClaudeRequest
      json_Unmarshal_ClaudeResponse (client_of key1) system msg w.
Proof.
  unfold CreateMessage. cbn [model client_of].
  destruct (json_Marshal_ClaudeRequest _) as [e|data]; [done|].
  cbn [http_NewRequest]. unfold mbind, SM_bind, in_world.
  change (out_Header_Set _ _ (out_Header_Set _ (apiKey (client_of key2)) _))
    with (upstream_request (client_of key2) data).
  change (out_Header_Set _ _ (out_Header_Set _ (apiKey (client_of key1)) _))
    with (upstream_request (client_of key1) data).
  by rewrite same_answers.
Qed.

Lemma Execute_key (prompt : string) (context : option (gmap string any))
    (w : World) :
  Execute World time_Now http_Do2 map_range json_Marshal_ClaudeRequest
    json_Unmarshal_ClaudeResponse json_Unmarshal_map fmt_v (agent_of key2)
    prompt context w
  = Execute World time_Now http_Do1 map_range json_Marshal_ClaudeRequest
      json_Unmarshal_ClaudeResponse json_Unmarshal_map fmt_v (agent_of key1)
      prompt context w.
Proof.
  unfold Execute, mbind, SM_bind. cbn [client].
  destruct (in_world time_Now w) as [[t0 w0]|]; [|done].
  destruct (buildUserMessage World map_range fmt_v prompt context w0)
    as [[msg w1]|]; [|done].
  by rewrite CreateMessage_key.
Qed.

Lemma executeHandler_key (r : Request) (st : St World) :
  executeHandler World time_Now http_Do2 map_range json_Decode_ExecuteRequest
    json_Marshal_ClaudeRequest json_Unmarshal_ClaudeResponse
    json_Unmarshal_map fmt_v (agent_of key2) r st
  = executeHandler World time_Now http_Do1 map_range json_Decode_ExecuteRequest
      json_Marshal_ClaudeRequest json_Unmarshal_ClaudeResponse
      json_Unmarshal_map fmt_v (agent_of key1) r st.
Proof.
  unfold executeHandler. case_decide; [done|].
  destruct (json_Decode_ExecuteRequest (Body r)) as [e|req]; [done|].
  unfold mbind, SM_bind, lift. by rewrite Execute_key.
Qed.

(** X12.  The API key reaches nothing but the upstream request: if the
    upstream service answers alike under two keys, an agent with the one
    key and an agent with the other give the same answer to every
    request. *)
Theorem api_key_stays_out_of_the_answer (r : Request) (w : World) :
  serve World time_Now http_Do2 map_range json_Decode_ExecuteRequest
    json_Marshal_ClaudeRequest json_Unmarshal_ClaudeResponse
    json_Unmarshal_map fmt_v (agent_of key2) url_Parse stripHostPort r w
  = serve World time_Now http_Do1 map_range json_Decode_ExecuteRequest
      json_Marshal_ClaudeRequest json_Unmarshal_ClaudeResponse
      json_Unmarshal_map fmt_v (agent_of key1) url_Parse stripHostPort r w.
Proof.
  rewrite !serve_route. destruct (route_of r); try reflexivity.
  cbn [handler_of]. unfold run. by rewrite executeHandler_key.
Qed.

End ApiKey.

Lemma api_key_stays_out_of_the_answer_witness :
  serve MockWorld mock_Now (mock_Do upstream_ok) mock_range mock_Decode
    mock_Marshal mock_Unmarshal_ClaudeResponse mock_Unmarshal_map mock_fmt_v
    {| client := client_of "sk-other" |} mock_Parse id
    (request "POST" "/execute" "good") mock_world
  = mock_serve upstream_ok (request "POST" "/execute" "good") mock_world.
Proof.
  apply (api_key_stays_out_of_the_answer mock_Now (mock_Do upstream_ok)
           (mock_Do upstream_ok) mock_range mock_Decode mock_Marshal
           mock_Unmarshal_ClaudeResponse mock_Unmarshal_map mock_fmt_v
           mock_Parse id
           "sk-test" "sk-other").
  intros data w. reflexivity.
Defined.


(** ** strconv.Atoi and the decimal numerals *)

Lemma pretty_N_char_digit (d : N) :
  (d < 10)%N ->
  Strconv.byte_sub (pretty_N_char d) 48 = Z.of_N d
  /\ Strconv.byte_le "0" (pretty_N_char d) = true
  /\ Strconv.byte_le (pretty_N_char d) "9" = true
  /\ pretty_N_char d <> "-"%char /\ pretty_N_char d <> "+"%char.
Proof.
  intros Hd.
  assert (d = 0 \/ d = 1 \/ d = 2 \/ d = 3 \/ d = 4 \/ d = 5 \/ d = 6 \/ d = 7
          \/ d = 8 \/ d = 9)%N as Hcases by lia.
  repeat destruct Hcases as [-> | Hcases]; try subst d;
    (split; [reflexivity|]); (split; [reflexivity|]); (split; [reflexivity|]);
    split; discriminate.
Qed.

(** The numeral of a positive number begins with a digit. *)
Lemma pretty_N_go_head (x : N) (s : string) :
  (0 < x)%N ->
  exists d t, (d < 10)%N /\ pretty_N_go x s = String (pretty_N_char d) t.
Proof.
  revert s. induction (N.lt_wf_0 x) as [x _ IH]; intros s Hx.
  rewrite pretty_N_go_step by done.
  destruct (decide (x `div` 10 = 0)%N) as [H0|H0].
  - rewrite H0, pretty_N_go_0. eexists _, _. split; [|done].
    by apply N.mod_lt.
  - apply IH; [apply N.div_lt; lia | by apply N.neq_0_lt_0].
Qed.

Lemma atoi_loop_digits (x : N) :
  exists k, 0 <= k /\ forall a s,
    Strconv.atoi_loop a (bytes_of_string (pretty_N_go x s))
    = Strconv.atoi_loop (a * 10 ^ k + Z.of_N x) (bytes_of_string s).
Proof.
  induction (N.lt_wf_0 x) as [x _ IH].
  destruct (decide (x = 0)%N) as [->|Hx].
  { exists 0. split; [done|]. intros a s. rewrite pretty_N_go_0. f_equal. lia. }
  destruct (IH (x `div` 10)%N) as (k & Hk & Hgo); [apply N.div_lt; lia|].
  exists (k + 1). split; [lia|]. intros a s.
  rewrite pretty_N_go_step by lia. rewrite Hgo.
  cbn [bytes_of_string String.list_ascii_of_string Strconv.atoi_loop].
  destruct (pretty_N_char_digit (x `mod` 10)%N) as (-> & _);
    [by apply N.mod_lt|].
  assert (Z.of_N (x `mod` 10) < 10).
  { by apply (N2Z.inj_lt _ 10), N.mod_lt. }
  assert (Z.of_N x = 10 * Z.of_N (x `div` 10) + Z.of_N (x `mod` 10)) as Hx10.
  { rewrite N2Z.inj_div, N2Z.inj_mod. change (Z.of_N 10) with 10.
    apply Z.div_mod. lia. }
  rewrite (proj2 (Z.ltb_ge _ _)) by lia.
  fold bytes_of_string. f_equal.
  rewrite Z.pow_add_r, Z.pow_1_r by lia. lia.
Qed.

Lemma parseUint_loop_digits (x : N) :
  exists k, 0 <= k /\ forall a s,
    0 <= a -> a * 10 ^ k + Z.of_N x <= Strconv.maxUint64 ->
    Strconv.parseUint_loop a (bytes_of_string (pretty_N_go x s))
    = Strconv.parseUint_loop (a * 10 ^ k + Z.of_N x) (bytes_of_string s).
Proof.
  induction (N.lt_wf_0 x) as [x _ IH].
  destruct (decide (x = 0)%N) as [->|Hx].
  { exists 0. split; [done|]. intros a s _ _. rewrite pretty_N_go_0. f_equal. lia. }
  destruct (IH (x `div` 10)%N) as (k & Hk & Hgo); [apply N.div_lt; lia|].
  exists (k + 1). split; [lia|]. intros a s Ha Hmax.
  assert (Z.of_N x = 10 * Z.of_N (x `div` 10) + Z.of_N (x `mod` 10)) as Hx10.
  { rewrite N2Z.inj_div, N2Z.inj_mod. change (Z.of_N 10) with 10.
    apply Z.div_mod. lia. }
  assert (0 <= Z.of_N (x `mod` 10) < 10).
  { split; [apply N2Z.is_nonneg|]. by apply (N2Z.inj_lt _ 10), N.mod_lt. }
  rewrite Z.pow_add_r, Z.pow_1_r in Hmax by lia.
  assert (0 <= 10 ^ k) by (apply Z.pow_nonneg; lia).
  rewrite pretty_N_go_step by lia. rewrite Hgo by nia.
  cbn [bytes_of_string String.list_ascii_of_string Strconv.parseUint_loop].
  destruct (pretty_N_char_digit (x `mod` 10)%N) as (-> & -> & -> & _);
    [by apply N.mod_lt|].
  cbn [andb]. rewrite (proj2 (Z.leb_gt _ _)) by lia.
  unfold Strconv.maxUint64 in *.
  rewrite (proj2 (Z.leb_gt _ _)) by (change (2 ^ 64 - 1) with 18446744073709551615 in *;
    change (18446744073709551615 / 10 + 1) with 1844674407370955162; nia).
  rewrite (proj2 (Z.ltb_ge _ _)) by nia.
  fold bytes_of_string. f_equal.
  rewrite Z.pow_add_r, Z.pow_1_r by lia. lia.
Qed.

Lemma int64_small (z : Z) : - 2 ^ 63 <= z < 2 ^ 63 -> Strconv.int64 z = z.
Proof. intros Hz. unfold Strconv.int64. rewrite Z.mod_small; lia. Qed.

Lemma int64_neg_min (p : Z) :
  0 < p <= 2 ^ 63 -> Strconv.int64 (- Strconv.int64 p) = - p.
Proof.
  intros Hp. destruct (decide (p = 2 ^ 63)) as [->|Hne]; [reflexivity|].
  rewrite (int64_small p) by lia. apply int64_small. lia.
Qed.

Lemma numeral_loops (p : positive) :
  let digits := bytes_of_string (pretty_N_go (N.pos p) EmptyString) in
  Strconv.atoi_loop 0 digits = Some (Z.pos p)
  /\ (Z.pos p <= Strconv.maxUint64 ->
      Strconv.parseUint_loop 0 digits = (Z.pos p, None))
  /\ exists c rest, digits = c :: rest /\ c <> "-"%char /\ c <> "+"%char.
Proof.
  intros digits; subst digits. split; [|split].
  - destruct (atoi_loop_digits (N.pos p)) as (k & _ & ->). simpl. f_equal.
  - intros Hmax. destruct (parseUint_loop_digits (N.pos p)) as (k & _ & ->);
      [done | simpl; lia|]. simpl. f_equal. lia.
  - destruct (pretty_N_go_head (N.pos p) EmptyString) as (d & t & Hd & Ht);
      [done|].
    destruct (pretty_N_char_digit d Hd) as (_ & _ & _ & H1 & H2).
    exists (pretty_N_char d), (bytes_of_string t). by rewrite Ht.
Qed.

(** Round trip: [Atoi] reads the decimal numeral of every [int] back. *)
Lemma Atoi_pretty (n : Z) :
  min_int64 <= n <= max_int64 -> Strconv.Atoi (pretty n) = (n, None).
Proof.
  unfold min_int64, max_int64. intros Hn. destruct n as [|p|p].
  - reflexivity.
  - destruct (numeral_loops p) as (Hfast & Hslow & c & rest & Hd & Hc1 & Hc2).
    cbn zeta in *. unfold Strconv.Atoi.
    change (pretty (Z.pos p)) with (pretty_N_go (N.pos p) EmptyString).
    rewrite Hd in *.
    destruct ((0 <? length (c :: rest))%nat && (length (c :: rest) <? 19)%nat).
    + rewrite !bool_decide_eq_false_2 by done. cbn [orb andb].
      by rewrite Hfast.
    + unfold Strconv.ParseInt. rewrite !bool_decide_eq_false_2 by done.
      cbn [orb andb negb Strconv.ParseUint].
      rewrite Hslow by (unfold Strconv.maxUint64; lia).
      rewrite (proj2 (Z.leb_gt _ _)) by lia. cbn [andb].
      by rewrite int64_small by lia.
  - destruct (numeral_loops p) as (Hfast & Hslow & c & rest & Hd & Hc1 & Hc2).
    cbn zeta in *. unfold Strconv.Atoi.
    change (pretty (Z.neg p))
      with ("-" +:+ pretty_N_go (N.pos p) EmptyString).
    rewrite bytes_of_string_app. change (bytes_of_string "-") with ["-"%char].
    cbn [app]. rewrite Hd in *.
    destruct ((0 <? length ("-"%char :: c :: rest))%nat
              && (length ("-"%char :: c :: rest) <? 19)%nat).
    + rewrite bool_decide_eq_true_2 by done. cbn [orb andb length Nat.ltb Nat.leb].
      by rewrite Hfast.
    + unfold Strconv.ParseInt.
      rewrite (bool_decide_eq_true_2 ("-"%char = "-"%char)) by done.
      rewrite (bool_decide_eq_false_2 ("-"%char = "+"%char)) by done.
      cbn [orb andb negb Strconv.ParseUint].
      rewrite Hslow by (unfold Strconv.maxUint64; lia).
      rewrite (proj2 (Z.ltb_ge _ _)) by lia.
      by rewrite int64_neg_min by lia.
Qed.

(** A syntax error comes with the value 0. *)
Lemma Atoi_syntax_error (s : string) (v : Z) :
  Strconv.Atoi s = (v, Some Strconv.ErrSyntax) -> v = 0.
Proof.
  unfold Strconv.Atoi.
  destruct ((0 <? length (bytes_of_string s))%nat
            && (length (bytes_of_string s) <? 19)%nat).
  - destruct (bytes_of_string s) as [|c rest]; [by intros [= <-]|].
    destruct (_ && _); [by intros [= <-]|].
    destruct (Strconv.atoi_loop 0 _); [done | by intros [= <-]].
  - unfold Strconv.ParseInt.
    destruct (bytes_of_string s) as [|c rest]; [by intros [= <-]|].
    destruct (Strconv.ParseUint _) as [un [[]|]]; [by intros [= <-]|..];
      repeat (destruct (_ && _)); by intros [= <-].
Qed.

Section Startup.

Context {World : Type}.
Context (time_Now : World -> Time * World).
Context (http_Do : Z -> OutRequest -> World -> (string + RawResponse) * World).
Context (map_range : gmap string any -> World -> list (string * any) * World).
Context (json_Decode_ExecuteRequest : string -> string + ExecuteRequest).
Context (json_Marshal_ClaudeRequest : ClaudeRequest -> string + string).
Context (json_Unmarshal_ClaudeResponse : string -> string + ClaudeResponse).
Context (json_Unmarshal_map : string -> string + option (gmap string any)).
Context (fmt_v : any -> string).
Context (os_Getenv : string -> string).
Context (banner : string -> string -> string).
Context (http_ListenAndServe : string -> option string).

Local Abbreviation main' :=
  (main World time_Now http_Do map_range json_Decode_ExecuteRequest
     json_Marshal_ClaudeRequest json_Unmarshal_ClaudeResponse
     json_Unmarshal_map fmt_v os_Getenv banner http_ListenAndServe).
Local Abbreviation the_mux' agent :=
  (the_mux World time_Now http_Do map_range json_Decode_ExecuteRequest
     json_Marshal_ClaudeRequest json_Unmarshal_ClaudeResponse
     json_Unmarshal_map fmt_v agent).

(** What [main] does once the agent is there. *)
Lemma main_with_key (port : string) :
  os_Getenv "ANTHROPIC_API_KEY" <> EmptyString ->
  port = (if decide (os_Getenv "PORT" = EmptyString) then "8002"
          else os_Getenv "PORT") ->
  let agent := {| client := client_of (os_Getenv "ANTHROPIC_API_KEY") |} in
  let addr := ":" +:+ pretty (Strconv.Atoi port).1 in
  let outputs :=
    [ Stdout (banner port port); Log ("Server listening on " +:+ addr) ] in
  main' = match http_ListenAndServe addr with
          | Some err => Fatal World (outputs ++ [ Log ("Server failed: " +:+ err) ])
          | None => Serving World outputs addr agent (the_mux' agent)
          end.
Proof.
  intros Hkey ->. unfold main, NewGoAgent, NewClaudeClient.
  rewrite decide_False by done. reflexivity.
Qed.

(** X13.  Without an API key in the environment the program exits right
    away: it logs [Failed to initialize agent: ANTHROPIC_API_KEY
    environment variable is required] and neither prints the banner nor
    listens. *)
Theorem main_without_key_is_fatal :
  os_Getenv "ANTHROPIC_API_KEY" = EmptyString ->
  main World time_Now http_Do map_range json_Decode_ExecuteRequest
    json_Marshal_ClaudeRequest json_Unmarshal_ClaudeResponse
    json_Unmarshal_map fmt_v os_Getenv banner http_ListenAndServe
  = Fatal World
      [ Log ("Failed to initialize agent: "
             +:+ "ANTHROPIC_API_KEY environment variable is required") ].
Proof.
  intros Hkey. unfold main, NewGoAgent, NewClaudeClient.
  by rewrite decide_True by done.
Qed.

(** X14.  With an API key, a port (the variable PORT, or 8002 when it
    is empty) that is the decimal numeral of a number from 0 to 2^63 - 1,
    and a listener that does not fail at that port, the program prints the
    banner for the port, logs [Server listening on :<port>] and serves at
    [:<port>] with the four registered handlers and an agent that holds
    the key. *)
Theorem main_listens_on_the_port (port : string) (n : Z) :
  os_Getenv "ANTHROPIC_API_KEY" <> EmptyString ->
  port = (if decide (os_Getenv "PORT" = EmptyString) then "8002"
          else os_Getenv "PORT") ->
  port = pretty n -> 0 <= n <= max_int64 ->
  http_ListenAndServe (":" +:+ port) = None ->
  main'
  = Serving World
      [ Stdout (banner port port); Log ("Server listening on :" +:+ port) ]
      (":" +:+ port)
      {| client := client_of (os_Getenv "ANTHROPIC_API_KEY") |}
      (the_mux' {| client := client_of (os_Getenv "ANTHROPIC_API_KEY") |}).
Proof.
  intros Hkey Hport Hn Hrange Hlisten.
  rewrite (main_with_key port Hkey Hport). cbn zeta.
  rewrite Hn, Atoi_pretty by (unfold min_int64, max_int64 in *; lia).
  cbn [fst]. rewrite <- Hn. by rewrite Hlisten.
Qed.

(** X15.  With an API key and a PORT that [strconv.Atoi] refuses as not
    a number, the program does not stop: the conversion error is dropped,
    and (the listener not failing there) it serves at [:0] while the
    banner still shows the text of PORT. *)
Theorem main_with_a_bad_port_listens_on_0 :
  os_Getenv "ANTHROPIC_API_KEY" <> EmptyString ->
  os_Getenv "PORT" <> EmptyString ->
  (Strconv.Atoi (os_Getenv "PORT")).2 = Some Strconv.ErrSyntax ->
  http_ListenAndServe ":0" = None ->
  main'
  = Serving World
      [ Stdout (banner (os_Getenv "PORT") (os_Getenv "PORT"));
        Log "Server listening on :0" ]
      ":0"
      {| client := client_of (os_Getenv "ANTHROPIC_API_KEY") |}
      (the_mux' {| client := client_of (os_Getenv "ANTHROPIC_API_KEY") |}).
Proof.
  intros Hkey Hport Hsyntax Hlisten.
  rewrite (main_with_key (os_Getenv "PORT") Hkey)
    by (by rewrite decide_False).
  cbn zeta. destruct (Strconv.Atoi (os_Getenv "PORT")) as [v e] eqn:Hatoi.
  cbn [snd] in Hsyntax. subst e. apply Atoi_syntax_error in Hatoi as ->.
  cbn [fst]. change (":" +:+ pretty 0) with ":0". by rewrite Hlisten.
Qed.

End Startup.

Lemma main_without_key_is_fatal_witness :
  mock_main "" "8080"
  = Fatal MockWorld
      [ Log "Failed to initialize agent: ANTHROPIC_API_KEY environment variable is required" ].
Proof.
  apply (main_without_key_is_fatal mock_Now (mock_Do upstream_ok) mock_range
           mock_Decode mock_Marshal mock_Unmarshal_ClaudeResponse
           mock_Unmarshal_map mock_fmt_v (mock_Getenv "" "8080") mock_banner
           mock_ListenAndServe).
  reflexivity.
Defined.

Lemma main_listens_on_the_port_witness :
  mock_main "sk-test" "8080"
  = Serving MockWorld
      [ Stdout "Port: 8080"; Log "Server listening on :8080" ] ":8080"
      mock_agent
      (the_mux MockWorld mock_Now (mock_Do upstream_ok) mock_range mock_Decode
         mock_Marshal mock_Unmarshal_ClaudeResponse mock_Unmarshal_map
         mock_fmt_v mock_agent).
Proof.
  apply (main_listens_on_the_port mock_Now (mock_Do upstream_ok) mock_range
           mock_Decode mock_Marshal mock_Unmarshal_ClaudeResponse
           mock_Unmarshal_map mock_fmt_v (mock_Getenv "sk-test" "8080")
           mock_banner mock_ListenAndServe "8080" 8080);
    [discriminate | reflexivity | vm_compute; reflexivity
    | vm_compute; split; discriminate | reflexivity].
Defined.

Lemma main_with_a_bad_port_listens_on_0_witness :
  mock_main "sk-test" "http"
  = Serving MockWorld
      [ Stdout "Port: http"; Log "Server listening on :0" ] ":0"
      mock_agent
      (the_mux MockWorld mock_Now (mock_Do upstream_ok) mock_range mock_Decode
         mock_Marshal mock_Unmarshal_ClaudeResponse mock_Unmarshal_map
         mock_fmt_v mock_agent).
Proof.
  apply (main_with_a_bad_port_listens_on_0 mock_Now (mock_Do upstream_ok)
           mock_range mock_Decode mock_Marshal mock_Unmarshal_ClaudeResponse
           mock_Unmarshal_map mock_fmt_v (mock_Getenv "sk-test" "http")
           mock_banner mock_ListenAndServe);
    [discriminate | discriminate | vm_compute; reflexivity | reflexivity].
Defined.


(** ** The accuracy of the cost *)

Lemma rne_half (N K : Z) : 0 < K -> - K <= 2 * (rne N K * K - N) <= K.
Proof.
  intros HK. unfold rne.
  pose proof (Z.div_mod N K ltac:(lia)) as Hdm.
  pose proof (Z.mod_pos_bound N K HK) as Hmod.
  revert Hdm Hmod. generalize (N / K) (N mod K). intros q m Hdm Hmod.
  destruct (2 * m ?= K) eqn:E.
  - apply Z.compare_eq in E. destruct (Z.even q); nia.
  - rewrite Z.compare_lt_iff in E. nia.
  - rewrite Z.compare_gt_iff in E. nia.
Qed.

Lemma rneQ_half (x : Q) :
  (inject_Z (rneQ x) - x <= 1 # 2)%Q /\ (x - inject_Z (rneQ x) <= 1 # 2)%Q.
Proof.
  destruct x as [n d]. unfold rneQ. cbn [Qnum Qden].
  pose proof (rne_half n (Z.pos d) ltac:(lia)) as H.
  unfold Qle, Qminus, Qplus, Qopp, inject_Z. cbn [Qnum Qden].
  split; nia.
Qed.

Lemma unit_roundoff_pow2 : (unit_roundoff == pow2 (-53))%Q.
Proof. reflexivity. Qed.

(** A value in the normal range is rounded with a relative error of at
    most [2^-53]. *)
Lemma rounds_to_error (x : Q) (f : float64) :
  rounds_to x f -> (x == 0 \/ pow2 (-1022) <= x)%Q ->
  (x * (1 - unit_roundoff) <= to_Q f <= x * (1 + unit_roundoff))%Q.
Proof.
  intros [Vf Hf] Hx.
  destruct Hf as [[Hx0 Hf0]|(k & [Hx1 Hx2] & Hfx)].
  { rewrite Hx0, Hf0. lra. }
  pose proof (pow2_pos (k - 1)) as Hk1.
  destruct Hx as [Hx|Hx]; [lra|].
  assert (-1022 < k) as Hk.
  { apply pow2_lt_inv. lra. }
  assert (cexp k = k - 53) as Hc by (unfold cexp; lia).
  rewrite Hc in Hfx. set (c := k - 53) in *.
  pose proof (pow2_pos c) as Hc0.
  set (y := (x / pow2 c)%Q) in *.
  assert (y * pow2 c == x)%Q as Hy by (unfold y; field; lra).
  destruct (rneQ_half y) as [H1 H2].
  set (r := inject_Z (rneQ y)) in *.
  assert ((1 # 2) * pow2 c == pow2 (k - 1) * unit_roundoff)%Q as Hhalf.
  { rewrite unit_roundoff_pow2. change (1 # 2)%Q with (pow2 (-1)).
    rewrite <- !pow2_add. unfold c.
    replace (-1 + (k - 53)) with (k - 1 + -53) by lia. reflexivity. }
  assert ((r - y) * pow2 c <= (1 # 2) * pow2 c)%Q as Hup.
  { apply Qmult_le_compat_r; lra. }
  assert ((y - r) * pow2 c <= (1 # 2) * pow2 c)%Q as Hlo.
  { apply Qmult_le_compat_r; lra. }
  assert (pow2 (k - 1) * unit_roundoff <= x * unit_roundoff)%Q as Hxu.
  { apply Qmult_le_compat_r; [lra | done]. }
  rewrite Hfx. rewrite Hhalf in Hup, Hlo.
  assert ((r - y) * pow2 c == r * pow2 c - x)%Q as E1 by (rewrite <- Hy; ring).
  assert ((y - r) * pow2 c == x - r * pow2 c)%Q as E2 by (rewrite <- Hy; ring).
  rewrite E1 in Hup. rewrite E2 in Hlo. split; lra.
Qed.

Lemma price_in_value : (to_Q price_in == 7083549724304468 # 2361183241434822606848)%Q.
Proof. reflexivity. Qed.

Lemma price_out_value : (to_Q price_out == 8854437155380585 # 590295810358705651712)%Q.
Proof. reflexivity. Qed.

Lemma tiny_normal : (pow2 (-1022) <= 1 # 10000000)%Q.
Proof.
  apply Qle_trans with (pow2 (-24)); [apply pow2_le; lia|].
  vm_compute. discriminate.
Qed.

Lemma inject_Z_range (n B : Z) : 0 <= n <= B -> (0 <= inject_Z n <= inject_Z B)%Q.
Proof.
  intros [H1 H2]. split; [change 0%Q with (inject_Z 0)|]; by rewrite <- Zle_Qle.
Qed.

Lemma inject_Z_zero_or_one (n : Z) :
  0 <= n -> (inject_Z n == 0 \/ 1 <= inject_Z n)%Q.
Proof.
  intros Hn. destruct (decide (n = 0)) as [->|Hne]; [by left|].
  right. change 1%Q with (inject_Z 1). rewrite <- Zle_Qle. lia.
Qed.

(** A token count times a price: the product is rounded once. *)
Lemma priced_error (n : Z) (my : positive) (ey B : Z) (P : Q) :
  0 <= n <= 10 ^ 12 ->
  Z.pos (digits2_pos my) = 53 ->
  (to_Q (S754_finite false my ey) == P)%Q ->
  (1 # 10000000 <= P)%Q -> (P < pow2 B)%Q -> -1074 <= 40 + B <= 1023 ->
  let r := mul (of_int n) (S754_finite false my ey) in
  valid_nonneg r
  /\ (inject_Z n * P * (1 - unit_roundoff) <= to_Q r
      <= inject_Z n * P * (1 + unit_roundoff))%Q.
Proof.
  intros Hn Hd HP HPlo HPhi HB r.
  destruct (of_int_facts n 40 ltac:(lia) ltac:(lia)) as (_ & Hv & _ & Hup).
  assert (to_Q (of_int n) == inject_Z n)%Q as Hexact.
  { apply (of_int_exact n n 0); lia. }
  destruct (mul_facts (of_int n) my ey 40 B Hv Hd Hup) as (Hr & Hvr & _);
    [rewrite HP; lra | done |].
  fold r in Hr, Hvr. split; [done|].
  apply (rounds_to_proper _ (inject_Z n * P)) in Hr;
    [|by rewrite Hexact, HP].
  apply rounds_to_error in Hr; [done|].
  pose proof tiny_normal.
  destruct (inject_Z_zero_or_one n ltac:(lia)) as [H0|H1].
  - left. rewrite H0. ring.
  - right. apply Qle_trans with (1 * P)%Q; [lra|].
    apply Qmult_le_compat_r; lra.
Qed.

Lemma pow2_1023_large : (1073741824 <= pow2 1023)%Q.
Proof.
  apply Qle_trans with (pow2 30); [|apply pow2_le; lia].
  vm_compute. discriminate.
Qed.

(** The scaled cost of [CalculateCost] is within a hundredth of the exact
    scaled cost, up to a trillion tokens of each kind. *)
Lemma scaled_cost_error (a b : Z) :
  0 <= a <= 10 ^ 12 -> 0 <= b <= 10 ^ 12 ->
  valid_nonneg (scaled_cost a b)
  /\ (inject_Z (3 * a + 15 * b) / 100 - (1 # 100) < to_Q (scaled_cost a b)
      < inject_Z (3 * a + 15 * b) / 100 + (1 # 100))%Q.
Proof.
  intros Ha Hb.
  pose proof price_in_bound as Hpi. pose proof price_out_bound as Hpo.
  pose proof price_in_value as Epi. pose proof price_out_value as Epo.
  destruct (priced_error a 7083549724304468 (-71) (-18) _ Ha eq_refl Epi)
    as (Hv1 & Hm1); [vm_compute; discriminate | rewrite <- Epi; apply Hpi | lia |].
  destruct (priced_error b 8854437155380585 (-69) (-16) _ Hb eq_refl Epo)
    as (Hv2 & Hm2); [vm_compute; discriminate | rewrite <- Epo; apply Hpo | lia |].
  fold price_in in Hv1, Hm1. fold price_out in Hv2, Hm2.
  set (m1 := mul (of_int a) price_in) in *.
  set (m2 := mul (of_int b) price_out) in *.
  destruct (inject_Z_range a (10 ^ 12) Ha) as [Ha0 Ha1].
  destruct (inject_Z_range b (10 ^ 12) Hb) as [Hb0 Hb1].
  change (inject_Z (10 ^ 12)) with (1000000000000 # 1)%Q in Ha1, Hb1.
  pose proof pow2_1023_large as H1023. pose proof tiny_normal as Htiny.
  unfold unit_roundoff in *.
  assert (rounds_to (to_Q m1 + to_Q m2) (add m1 m2)) as Hs.
  { apply add_rounds; [done | done | lra]. }
  pose proof (proj1 Hs) as Hvs.
  assert (to_Q m1 + to_Q m2 == 0 \/ pow2 (-1022) <= to_Q m1 + to_Q m2)%Q as Hn3.
  { destruct (inject_Z_zero_or_one a ltac:(lia)) as [Ea|Ea];
      destruct (inject_Z_zero_or_one b ltac:(lia)) as [Eb|Eb];
      [left; rewrite Ea in Hm1; rewrite Eb in Hm2; lra | right; lra..]. }
  apply rounds_to_error in Hs; [|done]. unfold unit_roundoff in Hs.
  set (s := add m1 m2) in *.
  assert (pow2 25 == 33554432 # 1)%Q as E25 by reflexivity.
  destruct (mul_facts s 5497558138880000 (-39) 25 14 Hvs eq_refl)
    as (Hsc & Hvsc & _);
    [rewrite E25; lra | apply ten_thousand_bound | lia |].
  fold ten_thousand in Hsc, Hvsc.
  change (mul s ten_thousand) with (scaled_cost a b) in Hsc, Hvsc.
  split; [done|].
  apply (rounds_to_proper _ (to_Q s * 10000)) in Hsc;
    [|by rewrite ten_thousand_value].
  apply rounds_to_error in Hsc.
  2:{ destruct Hn3 as [E0|En]; [left; nra | right; nra]. }
  unfold unit_roundoff in Hsc.
  rewrite inject_Z_plus, !inject_Z_mult.
  change (inject_Z 3) with (3 # 1)%Q. change (inject_Z 15) with (15 # 1)%Q.
  clear - Hm1 Hm2 Hs Hsc Ha0 Ha1 Hb0 Hb1. clearbody m1 m2 s.
  revert Hm1 Hm2 Hs Hsc Ha0 Ha1 Hb0 Hb1.
  generalize (to_Q (scaled_cost a b)) (to_Q s) (to_Q m1) (to_Q m2)
    (inject_Z a) (inject_Z b).
  intros sc qs q1 q2 qa qb Hm1 Hm2 Hs Hsc Ha0 Ha1 Hb0 Hb1.
  unfold Qdiv. change (/ 100)%Q with (1 # 100)%Q. split; lra.
Qed.

Lemma exact_cost_scaled (a b : Z) :
  (exact_cost a b * 10000 == inject_Z (3 * a + 15 * b) * (1 # 100))%Q.
Proof.
  unfold exact_cost. rewrite inject_Z_plus, !inject_Z_mult.
  change (inject_Z 3) with (3 # 1)%Q. change (inject_Z 15) with (15 # 1)%Q.
  ring.
Qed.

Lemma Qfloor_exact_cost (a b : Z) :
  Qfloor (exact_cost a b * 10000) = (3 * a + 15 * b) / 100.
Proof.
  rewrite (Qfloor_comp _ _ (exact_cost_scaled a b)).
  unfold Qfloor. cbn. by rewrite Z.mul_1_r.
Qed.

(** The integer [CalculateCost] keeps is the exact scaled cost truncated,
    or one less; one less only when the exact scaled cost is whole. *)
Lemma to_int_scaled_cost_near (a b : Z) :
  0 <= a <= 10 ^ 12 -> 0 <= b <= 10 ^ 12 ->
  let N := 3 * a + 15 * b in
  let n := to_int (scaled_cost a b) in
  N / 100 - 1 <= n <= N / 100 /\ (N mod 100 <> 0 -> n = N / 100).
Proof.
  intros Ha Hb N n.
  destruct (scaled_cost_error a b Ha Hb) as (Hv & Hlo & Hhi). fold N in Hlo, Hhi.
  assert (pow2 63 == 9223372036854775808 # 1)%Q as E63 by reflexivity.
  destruct (inject_Z_range N (18 * 10 ^ 12) ltac:(unfold N; lia)) as [HN0 HN1].
  change (inject_Z (18 * 10 ^ 12)) with (18000000000000 # 1)%Q in HN1.
  unfold Qdiv in Hlo, Hhi. change (/ 100)%Q with (1 # 100)%Q in Hlo, Hhi.
  destruct (to_int_spec (scaled_cost a b) Hv) as (Hn0 & Hn1 & Hn2);
    [rewrite E63; lra|].
  fold n in Hn0, Hn1, Hn2.
  assert (100 * n < N + 1) as H1.
  { rewrite Zlt_Qlt, inject_Z_mult, inject_Z_plus.
    change (inject_Z 100) with (100 # 1)%Q. change (inject_Z 1) with 1%Q. lra. }
  assert (N - 1 < 100 * (n + 1)) as H2.
  { rewrite Zlt_Qlt, inject_Z_mult.
    unfold Z.sub at 1. rewrite inject_Z_plus, inject_Z_opp.
    change (inject_Z 100) with (100 # 1)%Q. change (inject_Z 1) with 1%Q.
    lra. }
  clear - H1 H2. Z.div_mod_to_equations. lia.
Qed.

Lemma whole_scaled_cost (a b : Z) :
  (3 * a + 15 * b) mod 100 = 0 ->
  (exact_cost a b * 10000 == inject_Z ((3 * a + 15 * b) / 100))%Q.
Proof.
  intros Hmod. rewrite exact_cost_scaled.
  rewrite (Z.div_mod (3 * a + 15 * b) 100) at 1 by lia. rewrite Hmod, Z.add_0_r.
  rewrite inject_Z_mult. change (inject_Z 100) with (100 # 1)%Q. ring.
Qed.

(** X16.  For token counts from 0 to 10^12 the computed cost is a whole
    number [n] of ten-thousandths (as that quotient is rounded), where [n]
    is the exact cost in ten-thousandths rounded down, or one less; it can
    be one less only when the exact cost is itself a whole number of
    ten-thousandths. *)
Theorem CalculateCost_is_exact_or_one_short (env_api_key : string)
    (c : ClaudeClient) (a b : Z) :
  NewClaudeClient env_api_key = inr c ->
  0 <= a <= 10 ^ 12 -> 0 <= b <= 10 ^ 12 ->
  let k := Qfloor (exact_cost a b * 10000) in
  exists n,
    CalculateCost c a b = div (of_int n) (of_int 10000)
    /\ (n = k \/ (n = k - 1 /\ (exact_cost a b * 10000 == inject_Z k)%Q)).
Proof.
  intros ->%NewClaudeClient_client_of Ha Hb k.
  exists (to_int (scaled_cost a b)). split; [apply CalculateCost_steps|].
  unfold k. rewrite Qfloor_exact_cost.
  destruct (to_int_scaled_cost_near a b Ha Hb) as (Hn & Hne).
  destruct (decide ((3 * a + 15 * b) mod 100 = 0)) as [Hz|Hnz].
  - destruct (decide (to_int (scaled_cost a b) = (3 * a + 15 * b) / 100));
      [by left | right]. split; [lia | by apply whole_scaled_cost].
  - left. by apply Hne.
Qed.

(** X17.  For token counts in the range of Go's non-negative [int]s the
    computed cost is a finite number, not negative, and the JSON encoder
    accepts it. *)
Theorem cost_is_finite_and_nonnegative (env_api_key : string)
    (c : ClaudeClient) (a b : Z) :
  NewClaudeClient env_api_key = inr c ->
  0 <= a <= max_int64 -> 0 <= b <= max_int64 ->
  is_finite (CalculateCost c a b) = true
  /\ leb (of_int 0) (CalculateCost c a b) = true
  /\ marshal_float64 (CalculateCost c a b) = Some (JNumber (CalculateCost c a b)).
Proof.
  intros ->%NewClaudeClient_client_of Ha Hb.
  pose proof (CalculateCost_valid env_api_key a b Ha Hb) as Hv.
  pose proof (valid_nonneg_finite _ Hv) as Hf.
  split; [done|]. split.
  - apply leb_of_Qle; [done | done |]. by apply valid_nonneg_to_Q.
  - unfold marshal_float64. by rewrite Hf.
Qed.

Lemma CalculateCost_is_exact_or_one_short_witness :
  let k := Qfloor (exact_cost 1000 2000 * 10000) in
  exists n,
    CalculateCost (client_of "sk-test") 1000 2000
    = div (of_int n) (of_int 10000)
    /\ (n = k \/ (n = k - 1 /\ (exact_cost 1000 2000 * 10000 == inject_Z k)%Q)).
Proof.
  apply (CalculateCost_is_exact_or_one_short "sk-test" (client_of "sk-test")
           1000 2000);
    [reflexivity | vm_compute; split; discriminate
    | vm_compute; split; discriminate].
Defined.

Lemma cost_is_finite_and_nonnegative_witness :
  is_finite (CalculateCost (client_of "sk-test") 1000 2000) = true
  /\ leb (of_int 0) (CalculateCost (client_of "sk-test") 1000 2000) = true
  /\ marshal_float64 (CalculateCost (client_of "sk-test") 1000 2000)
     = Some (JNumber (CalculateCost (client_of "sk-test") 1000 2000)).
Proof.
  apply (cost_is_finite_and_nonnegative "sk-test" (client_of "sk-test")
           1000 2000);
    [reflexivity | vm_compute; split; discriminate
    | vm_compute; split; discriminate].
Defined.


(** ** Clean paths *)

Lemma Index_single_None (c : ascii) (s : bytes) :
  Bytes.Index s [c] = None -> c ∉ s.
Proof.
  intros Hn Hin. apply list_elem_of_lookup in Hin as [i Hi].
  apply (Index_None_spec _ _ Hn i).
  rewrite (drop_S _ _ _ Hi). by exists (drop (S i) s).
Qed.

Lemma Index_single_Some (c : ascii) (s : bytes) (m : nat) :
  Bytes.Index s [c] = Some m -> c ∉ take m s.
Proof.
  intros Hs Hin. destruct (Index_Some_spec _ _ _ Hs) as [_ Hfirst].
  apply list_elem_of_lookup in Hin as [i Hi].
  apply lookup_take_Some in Hi as [Hi Hlt].
  apply (Hfirst i Hlt). rewrite (drop_S _ _ _ Hi). by exists (drop (S i) s).
Qed.

(** The pieces of a split have no separator. *)
Lemma Split_pieces (c : ascii) (s : bytes) :
  Forall (fun e => c ∉ e) (Bytes.Split s [c]).
Proof.
  remember (length s) as n eqn:Hn. revert s Hn.
  induction (lt_wf n) as [n _ IH]; intros s ->.
  rewrite Split_unfold by done.
  destruct (Bytes.Index s [c]) as [m|] eqn:Hi.
  - constructor; [by apply Index_single_Some|].
    pose proof (Index_Some_bound _ _ _ Hi) as Hb. cbn [length] in *.
    eapply IH; [|done]. rewrite length_drop. lia.
  - constructor; [by apply Index_single_None | constructor].
Qed.

Lemma Forall_removelast {A} (P : A -> Prop) (l : list A) :
  Forall P l -> Forall P (removelast l).
Proof.
  induction 1 as [|x l Hx Hl IH]; [constructor|].
  destruct l; [constructor|]. cbn [removelast]. by constructor.
Qed.

Lemma clean_step_segments (stack : list bytes) (e : bytes) :
  Forall segment stack -> slash ∉ e -> Forall segment (clean_step stack e).
Proof.
  intros Hs He. unfold clean_step. repeat case_decide; [done | done | |].
  - by apply Forall_removelast.
  - apply Forall_app. split; [done|]. by repeat constructor.
Qed.

Lemma foldl_clean_segments (elems stack : list bytes) :
  Forall (fun e => slash ∉ e) elems -> Forall segment stack ->
  Forall segment (foldl clean_step stack elems).
Proof.
  intros He. revert stack. induction He as [|e elems He _ IH]; intros stack Hs.
  - done.
  - cbn [foldl]. apply IH. by apply clean_step_segments.
Qed.

Lemma foldl_clean_push (segs stack : list bytes) :
  Forall segment segs -> foldl clean_step stack segs = stack ++ segs.
Proof.
  intros Hs. revert stack.
  induction Hs as [|e segs (H1 & H2 & H3 & H4) _ IH]; intros stack.
  - by rewrite app_nil_r.
  - cbn [foldl]. rewrite IH. unfold clean_step.
    rewrite !decide_False by done. by rewrite <- app_assoc.
Qed.

Lemma join_cons (e : bytes) (stack : list bytes) :
  join (e :: stack) = [slash] ++ e ++ join stack.
Proof. reflexivity. Qed.

Lemma join_snoc (stack : list bytes) (e : bytes) :
  join (stack ++ [e]) = join stack ++ slash :: e.
Proof.
  unfold join. rewrite fmap_app, concat_app. cbn. by rewrite app_nil_r.
Qed.

Lemma Split_join (stack : list bytes) (e : bytes) :
  slash ∉ e -> Forall (fun x => slash ∉ x) stack ->
  Bytes.Split (e ++ join stack) [slash] = e :: stack.
Proof.
  intros He Hs. revert e He.
  induction Hs as [|x stack Hx _ IH]; intros e He.
  - unfold join. cbn. rewrite app_nil_r, Split_unfold by done.
    by rewrite Index_fresh_None.
  - rewrite join_cons, Split_unfold by done.
    rewrite (Index_fresh slash [] e) by done.
    rewrite take_app_length. f_equal.
    rewrite <- drop_drop, drop_app_length. cbn [length drop app].
    by apply IH.
Qed.

Lemma segment_no_slash (stack : list bytes) :
  Forall segment stack -> Forall (fun x => slash ∉ x) stack.
Proof. intros H. eapply Forall_impl; [done|]. by intros e (_ & _ & _ & He). Qed.

Lemma Clean_rooted_join (stack : list bytes) :
  stack <> [] -> Forall segment stack ->
  Clean_rooted (string_of_bytes (join stack)) = string_of_bytes (join stack).
Proof.
  intros Hne Hs. unfold Clean_rooted. rewrite bytes_string_bytes.
  change (Bytes.Split (join stack) ["/"%char])
    with (Bytes.Split ([] ++ join stack) [slash]).
  rewrite (Split_join stack []) by
    (by apply not_elem_of_nil || by apply segment_no_slash).
  cbn [foldl]. replace (clean_step [] []) with (@nil bytes) by reflexivity.
  rewrite !foldl_clean_push by done. cbn [app].
  by destruct stack.
Qed.

Lemma Clean_rooted_join_slash (stack : list bytes) :
  stack <> [] -> Forall segment stack ->
  Clean_rooted (string_of_bytes (join stack) +:+ "/") = string_of_bytes (join stack).
Proof.
  intros Hne Hs. unfold Clean_rooted.
  rewrite bytes_of_string_app, bytes_string_bytes.
  change (bytes_of_string "/") with (slash :: []).
  rewrite <- join_snoc.
  change (Bytes.Split (join (stack ++ [[]])) ["/"%char])
    with (Bytes.Split ([] ++ join (stack ++ [[]])) [slash]).
  rewrite (Split_join (stack ++ [[]]) []).
  2: by apply not_elem_of_nil.
  2:{ apply Forall_app. split; [by apply segment_no_slash|].
      repeat constructor. by apply not_elem_of_nil. }
  cbn [foldl]. replace (clean_step [] []) with (@nil bytes) by reflexivity.
  rewrite !foldl_app, !(foldl_clean_push stack) by done. cbn [app foldl].
  replace (clean_step stack []) with stack
    by (unfold clean_step; by rewrite decide_True by done).
  by destruct stack.
Qed.

(** What [path.Clean] returns: the root, or a path of segments. *)
Lemma Clean_rooted_canonical (p : string) :
  Clean_rooted p = "/"
  \/ exists stack, stack <> [] /\ Forall segment stack
                   /\ Clean_rooted p = string_of_bytes (join stack).
Proof.
  unfold Clean_rooted.
  pose proof (foldl_clean_segments (Bytes.Split (bytes_of_string p) [slash]) []
                (Split_pieces slash _) ltac:(constructor)) as Hs.
  change ["/"%char] with [slash].
  destruct (foldl clean_step [] _) as [|e stack]; [by left|].
  right. by exists (e :: stack).
Qed.

Lemma Clean_rooted_idempotent (p : string) :
  Clean_rooted (Clean_rooted p) = Clean_rooted p.
Proof.
  destruct (Clean_rooted_canonical p) as [->|(stack & Hne & Hs & ->)];
    [reflexivity | by apply Clean_rooted_join].
Qed.

Lemma string_length_bytes (s : string) :
  String.length s = length (bytes_of_string s).
Proof. induction s as [|c s IH]; simpl; [done | by rewrite IH]. Qed.

Lemma bytes_of_string_inj (s t : string) :
  bytes_of_string s = bytes_of_string t -> s = t.
Proof.
  intros H. rewrite <- (string_bytes_string s), <- (string_bytes_string t).
  by rewrite H.
Qed.

Lemma snoc_slash (p np : string) :
  strings_HasPrefix p np = true ->
  String.length p = (String.length np + 1)%nat ->
  last_byte p = Some "/"%char -> p = np +:+ "/".
Proof.
  unfold strings_HasPrefix, last_byte. rewrite !string_length_bytes.
  intros [k Hk]%HasPrefix_prefix_of Hlen Hlast. apply bytes_of_string_inj.
  rewrite bytes_of_string_app, Hk in *. rewrite length_app in Hlen.
  destruct k as [|x [|y k]]; simpl in Hlen; [lia | | lia].
  rewrite last_snoc in Hlast. by injection Hlast as ->.
Qed.

Lemma join_head (stack : list bytes) :
  stack <> [] -> exists t, join stack = slash :: t.
Proof. destruct stack as [|e stack]; [done|]. intros _. by eexists. Qed.

Lemma join_last (stack : list bytes) :
  stack <> [] -> Forall segment stack -> last (join stack) <> Some slash.
Proof.
  intros Hne Hs. destruct (exists_last Hne) as [init [e ->]].
  apply Forall_app in Hs as [_ He]. rewrite Forall_singleton in He.
  unfold segment in He. destruct He as (He & _ & _ & Hslash).
  change (init ++ e :: nil) with (init ++ [e]). rewrite join_snoc.
  destruct (exists_last He) as [e' [x ->]].
  change (e' ++ x :: nil) with (e' ++ [x]) in *.
  change (slash :: e' ++ [x]) with ((slash :: e') ++ [x]).
  rewrite app_assoc, last_snoc. intros [= ->]. apply Hslash.
  apply elem_of_app. right. by left.
Qed.

Lemma join_not_root (stack : list bytes) :
  stack <> [] -> Forall segment stack -> string_of_bytes (join stack) <> "/".
Proof.
  intros Hne Hs Heq. apply (join_last stack Hne Hs).
  apply (f_equal bytes_of_string) in Heq. rewrite bytes_string_bytes in Heq.
  by rewrite Heq.
Qed.

(** A clean path, and a clean path with a slash after it, are what
    [cleanPath] leaves alone. *)
Lemma cleanPath_join (stack : list bytes) :
  stack <> [] -> Forall segment stack ->
  cleanPath (string_of_bytes (join stack)) = string_of_bytes (join stack).
Proof.
  intros Hne Hs. rewrite cleanPath_unfold.
  destruct (join_head stack Hne) as [t Ht].
  rewrite decide_False by (rewrite Ht; discriminate).
  unfold first_byte, last_byte. rewrite bytes_string_bytes.
  rewrite !(decide_False (P := head (join stack) <> Some "/"%char))
    by (rewrite Ht; intros H; by apply H).
  rewrite Clean_rooted_join, bytes_string_bytes by done.
  rewrite decide_False; [done|]. intros [Hl _]. by apply (join_last stack).
Qed.

Lemma cleanPath_join_slash (stack : list bytes) :
  stack <> [] -> Forall segment stack ->
  cleanPath (string_of_bytes (join stack) +:+ "/")
  = string_of_bytes (join stack) +:+ "/".
Proof.
  intros Hne Hs. rewrite cleanPath_unfold.
  destruct (join_head stack Hne) as [t Ht].
  rewrite decide_False by (rewrite Ht; discriminate).
  unfold first_byte. rewrite bytes_of_string_app, bytes_string_bytes.
  rewrite !(decide_False
              (P := head (join stack ++ bytes_of_string "/") <> Some "/"%char))
    by (rewrite Ht; intros H; by apply H).
  rewrite Clean_rooted_join_slash by done.
  rewrite decide_True
    by (split; [apply last_byte_app_slash | by apply join_not_root]).
  rewrite bool_decide_eq_true_2.
  2:{ rewrite !string_length_bytes, bytes_of_string_app, length_app. done. }
  unfold strings_HasPrefix. rewrite bytes_of_string_app.
  assert (Bytes.HasPrefix
            (bytes_of_string (string_of_bytes (join stack)) ++ bytes_of_string "/")
            (bytes_of_string (string_of_bytes (join stack))) = true) as ->
    by (apply HasPrefix_prefix_of; by apply prefix_app_r).
  done.
Qed.

Lemma cleanPath_form (p : string) :
  cleanPath p = "/"
  \/ exists stack,
       stack <> [] /\ Forall segment stack
       /\ (cleanPath p = string_of_bytes (join stack)
           \/ cleanPath p = string_of_bytes (join stack) +:+ "/").
Proof.
  rewrite cleanPath_unfold. case_decide; [by left|].
  set (p' := if decide (first_byte p <> Some "/"%char) then "/" +:+ p else p).
  destruct (Clean_rooted_canonical p') as [Hroot|(stack & Hne & Hs & Hnp)].
  { rewrite Hroot. rewrite decide_False by (by intros [_ ?]). by left. }
  right. exists stack. split; [done|]. split; [done|].
  destruct (decide (last_byte p' = Some "/"%char /\ Clean_rooted p' <> "/"))
    as [[Hl _]|_]; [|by left].
  right. destruct (bool_decide _ && strings_HasPrefix _ _) eqn:Hb.
  - apply andb_true_iff in Hb as [Hlen%bool_decide_eq_true Hpre].
    rewrite <- Hnp. by apply snoc_slash.
  - by rewrite Hnp.
Qed.

Lemma cleanPath_idempotent (p : string) :
  cleanPath (cleanPath p) = cleanPath p.
Proof.
  destruct (cleanPath_form p) as [->|(stack & Hne & Hs & [->| ->])].
  - reflexivity.
  - by apply cleanPath_join.
  - by apply cleanPath_join_slash.
Qed.

Section Redirects.

Context {World : Type}.
Context (time_Now : World -> Time * World).
Context (http_Do : Z -> OutRequest -> World -> (string + RawResponse) * World).
Context (map_range : gmap string any -> World -> list (string * any) * World).
Context (json_Decode_ExecuteRequest : string -> string + ExecuteRequest).
Context (json_Marshal_ClaudeRequest : ClaudeRequest -> string + string).
Context (json_Unmarshal_ClaudeResponse : string -> string + ClaudeResponse).
Context (json_Unmarshal_map : string -> string + option (gmap string any)).
Context (fmt_v : any -> string).
Context (agent : GoAgent).
Context (url_Parse : string -> option (string * string)).
Context (stripHostPort : string -> string).

Local Abbreviation serve' :=
  (serve World time_Now http_Do map_range json_Decode_ExecuteRequest
     json_Marshal_ClaudeRequest json_Unmarshal_ClaudeResponse
     json_Unmarshal_map fmt_v agent url_Parse stripHostPort).

(** X18.  The path a redirect names is not redirected again: for every
    request that is neither a CONNECT request nor a request for [*], the
    same request with its path cleaned is answered, and not with status
    301. *)
Theorem redirect_leads_to_an_answer (r : Request) (w : World) :
  Method r <> "CONNECT" -> RequestURI r <> "*" ->
  exists resp w',
    serve' (with_path r (cleanPath (URL_Path r))) w = Some (resp, w')
    /\ StatusCode resp <> StatusMovedPermanently.
Proof.
  intros Hm Hu. rewrite serve_route. unfold route_of.
  cbn [with_path Method RequestURI URL_Path].
  rewrite !decide_False by done. rewrite cleanPath_idempotent.
  rewrite decide_False by (intros H; by apply H).
  set (r' := with_path r (cleanPath (URL_Path r))).
  destruct (path_route (cleanPath (URL_Path r))) eqn:E; cbn [handler_of].
  - eexists _, _. split; [reflexivity|]. by rewrite sent_status.
  - unfold badRequestHandler.
    destruct (Proto11 r'); eexists _, _; (split; [reflexivity|]);
      by rewrite sent_status.
  - exfalso. revert E. unfold path_route.
    repeat case_decide; try done. by destruct (strings_HasPrefix _ _).
  - unfold NotFoundHandler. rewrite run_http_Error. eexists _, _.
    split; [reflexivity|]. by rewrite sent_status.
  - rewrite run_rootHandler. eexists _, _.
    split; [reflexivity|]. by rewrite sent_status.
  - destruct (run_healthHandler time_Now r' w) as (resp & w' & -> & Hs & _).
    eexists _, _. split; [reflexivity|]. by rewrite sent_status, Hs.
  - destruct (run_infoHandler r' w) as (resp & -> & Hs & _).
    eexists _, _. split; [reflexivity|]. by rewrite sent_status, Hs.
  - destruct (run_executeHandler time_Now http_Do map_range
                json_Decode_ExecuteRequest json_Marshal_ClaudeRequest
                json_Unmarshal_ClaudeResponse json_Unmarshal_map fmt_v agent
                r' w) as (resp & w' & -> & Hrep).
    eexists _, _. split; [reflexivity|]. rewrite sent_status.
    by destruct (execute_reply_status _ Hrep) as [ -> | [ -> | [ -> | -> ] ] ].
Qed.

End Redirects.

Lemma redirect_leads_to_an_answer_witness :
  exists resp w',
    mock_serve upstream_ok
      (with_path (request "GET" "//health" "") "/health") mock_world
    = Some (resp, w')
    /\ StatusCode resp <> StatusMovedPermanently.
Proof.
  apply (redirect_leads_to_an_answer mock_Now (mock_Do upstream_ok) mock_range
           mock_Decode mock_Marshal mock_Unmarshal_ClaudeResponse
           mock_Unmarshal_map mock_fmt_v mock_agent mock_Parse id
           (request "GET" "//health" "") mock_world);
    discriminate.
Defined.

(* ===================================================================== *)
(** * Part IV: the answers of the server                                   *)
(* ===================================================================== *)

(** ** The target of a redirect *)

Lemma escape_byte_facts (c : ascii) :
  (question ∉ escape_byte c)
  /\ (c <> slash -> slash ∉ escape_byte c)
  /\ (escape_byte c = [c] \/ exists a b, escape_byte c = ["%"%char; a; b]).
Proof.
  destruct c as [[] [] [] [] [] [] [] []];
    (split; [apply (bool_decide_unpack _); vm_compute; exact I|]);
    (split;
     [ first [ intros _; apply (bool_decide_unpack _); vm_compute; exact I
             | intros H; exfalso; by apply H ]
     | first [ left; reflexivity | right; by eexists _, _ ] ]).
Qed.

Lemma escape_path_app (a b : bytes) :
  escape_path (a ++ b) = escape_path a ++ escape_path b.
Proof. unfold escape_path. apply bind_app. Qed.

Lemma escape_path_cons (c : ascii) (a : bytes) :
  escape_path (c :: a) = escape_byte c ++ escape_path a.
Proof. reflexivity. Qed.

Lemma escape_path_join (stack : list bytes) :
  escape_path (join stack) = join (escape_path <$> stack).
Proof.
  induction stack as [|e stack IH]; [done|].
  rewrite fmap_cons, !join_cons, !escape_path_app, IH. done.
Qed.

Lemma escape_path_no_question (s : bytes) : question ∉ escape_path s.
Proof.
  induction s as [|c s IH]; [apply not_elem_of_nil|].
  rewrite escape_path_cons, elem_of_app. intros [H|H]; [|done].
  destruct (escape_byte_facts c) as (Hq & _). by apply Hq.
Qed.

Lemma escape_path_no_slash (s : bytes) : slash ∉ s -> slash ∉ escape_path s.
Proof.
  induction s as [|c s IH]; [intros _; cbn; apply not_elem_of_nil|].
  rewrite not_elem_of_cons. intros [Hc Hs].
  rewrite escape_path_cons, elem_of_app. intros [H|H]; [|by apply IH].
  destruct (escape_byte_facts c) as (_ & Hq & _). by apply Hq.
Qed.

Lemma escape_segment (e : bytes) : segment e -> segment (escape_path e).
Proof.
  intros (Hne & Hdot & Hdots & Hslash). repeat split.
  - destruct e as [|c e]; [done|]. rewrite escape_path_cons.
    destruct (escape_byte_facts c) as (_ & _ & [->|(a & b & ->)]); done.
  - destruct e as [|c e]; [done|]. rewrite escape_path_cons.
    destruct (escape_byte_facts c) as (_ & _ & [->|(a & b & ->)]); [|done].
    destruct e as [|d e]; [by intros [= ->]|]. rewrite escape_path_cons.
    destruct (escape_byte_facts d) as (_ & _ & [->|(a & b & ->)]); done.
  - destruct e as [|c e]; [done|]. rewrite escape_path_cons.
    destruct (escape_byte_facts c) as (_ & _ & [->|(a & b & ->)]); [|done].
    destruct e as [|d e]; [done|]. rewrite escape_path_cons.
    destruct (escape_byte_facts d) as (_ & _ & [->|(a & b & ->)]); [|done].
    destruct e as [|f e]; [by intros [= -> ->]|]. rewrite escape_path_cons.
    destruct (escape_byte_facts f) as (_ & _ & [->|(a & b & ->)]); done.
  - by apply escape_path_no_slash.
Qed.

Lemma escape_segments (stack : list bytes) :
  Forall segment stack -> Forall segment (escape_path <$> stack).
Proof.
  intros H. apply Forall_fmap. eapply Forall_impl; [done|].
  intros e He. by apply escape_segment.
Qed.

Lemma url_String_rooted (b : bytes) (query : string) :
  head b = Some slash ->
  url_String (string_of_bytes b) query
  = string_of_bytes (escape_path b)
    +:+ (if decide (query = EmptyString) then EmptyString else "?" +:+ query).
Proof.
  intros Hb. destruct b as [|c t]; [done|]. injection Hb as ->.
  unfold url_String. rewrite decide_False by done.
  rewrite bytes_string_bytes, escape_path_cons.
  change (escape_byte slash) with [slash]. reflexivity.
Qed.

Lemma redirect_url_id (url_Parse : string -> option (string * string))
    (r : Request) (E : bytes) (qs : string) :
  head E = Some slash -> question ∉ E ->
  qs = EmptyString \/ (exists q, qs = "?" +:+ q) ->
  (if bool_decide (last_byte (string_of_bytes E) = Some "/"%char)
      && negb (bool_decide
                 (last_byte (Clean_rooted (string_of_bytes E)) = Some "/"%char))
   then Clean_rooted (string_of_bytes E) +:+ "/"
   else Clean_rooted (string_of_bytes E)) = string_of_bytes E ->
  redirect_url url_Parse r (string_of_bytes E +:+ qs)
  = string_of_bytes E +:+ qs.
Proof.
  intros Hh Hq Hqs Hclean. unfold redirect_url, question in *.
  destruct (url_Parse _) as [[scheme host]|]; [|done].
  destruct (decide (scheme = EmptyString /\ host = EmptyString)); [|done].
  assert (first_byte (string_of_bytes E) = Some "/"%char) as Hf.
  { unfold first_byte. by rewrite bytes_string_bytes. }
  assert (first_byte (string_of_bytes E +:+ qs) = Some "/"%char) as Hf'.
  { unfold first_byte. rewrite bytes_of_string_app, bytes_string_bytes.
    destruct E; [done|]. done. }
  rewrite decide_False by (intros H'; by apply H').
  rewrite bytes_of_string_app, bytes_string_bytes.
  destruct Hqs as [->|[q ->]].
  - change (bytes_of_string EmptyString) with (@nil ascii).
    rewrite app_nil_r, (Index_fresh_None "?"%char [] E) by done.
    rewrite !string_app_nil_r. rewrite path_Clean_of_rooted by done.
    by rewrite Hclean.
  - change (bytes_of_string ("?" +:+ q)) with (["?"%char] ++ bytes_of_string q).
    rewrite (Index_fresh "?"%char [] E) by done.
    rewrite take_app_length, drop_app_length.
    rewrite path_Clean_of_rooted by done. rewrite Hclean.
    change (["?"%char] ++ bytes_of_string q) with (bytes_of_string ("?" +:+ q)).
    by rewrite string_bytes_string.
Qed.

Lemma redirect_url_clean (url_Parse : string -> option (string * string))
    (r : Request) (p query : string) :
  redirect_url url_Parse r (url_String (cleanPath p) query)
  = url_String (cleanPath p) query.
Proof.
  assert ((if decide (query = EmptyString) then EmptyString else "?" +:+ query)
          = EmptyString
          \/ exists q, (if decide (query = EmptyString) then EmptyString
                        else "?" +:+ query) = "?" +:+ q) as Hqs.
  { case_decide; [by left | right; by eexists]. }
  destruct (cleanPath_form p) as [->|(stack & Hne & Hs & [->| ->])].
  - change "/" with (string_of_bytes [slash]).
    rewrite url_String_rooted by done.
    apply redirect_url_id; [done | apply escape_path_no_question | done |].
    reflexivity.
  - destruct (join_head stack Hne) as [t Ht].
    rewrite url_String_rooted by (by rewrite Ht).
    rewrite escape_path_join.
    assert (escape_path <$> stack <> []) as Hne' by (by destruct stack).
    pose proof (escape_segments stack Hs) as Hs'.
    destruct (join_head _ Hne') as [t' Ht'].
    apply redirect_url_id; [by rewrite Ht' | | done |].
    { rewrite <- escape_path_join. apply escape_path_no_question. }
    rewrite Clean_rooted_join by done.
    unfold last_byte. rewrite bytes_string_bytes.
    rewrite (bool_decide_eq_false_2 (last (join (escape_path <$> stack))
                                     = Some "/"%char));
      [done|]. by apply join_last.
  - destruct (join_head stack Hne) as [t Ht].
    replace (string_of_bytes (join stack) +:+ "/")
      with (string_of_bytes (join stack ++ [slash])).
    2:{ apply bytes_of_string_inj.
        by rewrite bytes_of_string_app, !bytes_string_bytes. }
    rewrite url_String_rooted by (by rewrite Ht).
    rewrite escape_path_app, escape_path_join.
    change (escape_path [slash]) with [slash].
    assert (escape_path <$> stack <> []) as Hne' by (by destruct stack).
    pose proof (escape_segments stack Hs) as Hs'.
    destruct (join_head _ Hne') as [t' Ht'].
    apply redirect_url_id; [by rewrite Ht' | | done |].
    { rewrite <- escape_path_join.
      change [slash] with (escape_path [slash]).
      rewrite <- escape_path_app. apply escape_path_no_question. }
    replace (string_of_bytes (join (escape_path <$> stack) ++ [slash]))
      with (string_of_bytes (join (escape_path <$> stack)) +:+ "/").
    2:{ apply bytes_of_string_inj.
        by rewrite bytes_of_string_app, !bytes_string_bytes. }
    rewrite Clean_rooted_join_slash by done.
    rewrite (bool_decide_eq_true_2 _ (last_byte_app_slash _)).
    rewrite (bool_decide_eq_false_2
               (last_byte (string_of_bytes (join (escape_path <$> stack)))
                = Some "/"%char)); [done|].
    unfold last_byte. rewrite bytes_string_bytes. by apply join_last.
Qed.

(** ** The answers of the server *)

(** The paths the multiplexer leaves as they are. *)
Lemma cleanPath_fixed (p : string) : cleanPath p = p <-> clean p.
Proof.
  split.
  - intros Hp.
    destruct (cleanPath_form p) as [H|(stack & Hne & Hs & [H|H])];
      rewrite Hp in H; subst p.
    + exists []. split; [done | by left].
    + exists stack. split; [done|]. right. split; [done|].
      by rewrite bytes_string_bytes.
    + exists stack. split; [done|]. left.
      by rewrite bytes_of_string_app, bytes_string_bytes.
  - intros (stack & Hs & [Hb|[Hne Hb]]).
    + destruct (decide (stack = [])) as [->|Hne].
      * assert (p = "/") as -> by (by apply bytes_of_string_inj). reflexivity.
      * assert (p = string_of_bytes (join stack) +:+ "/") as ->.
        { apply bytes_of_string_inj.
          by rewrite bytes_of_string_app, bytes_string_bytes. }
        by apply cleanPath_join_slash.
    + assert (p = string_of_bytes (join stack)) as ->.
      { apply bytes_of_string_inj. by rewrite bytes_string_bytes. }
      by apply cleanPath_join.
Qed.

Lemma clean_rooted (p : string) : clean p -> rooted p.
Proof. intros <-%cleanPath_fixed. apply cleanPath_rooted. Qed.

Section Answers.

Context {World : Type}.
Context (time_Now : World -> Time * World).
Context (http_Do : Z -> OutRequest -> World -> (string + RawResponse) * World).
Context (map_range : gmap string any -> World -> list (string * any) * World).
Context (json_Decode_ExecuteRequest : string -> string + ExecuteRequest).
Context (json_Marshal_ClaudeRequest : ClaudeRequest -> string + string).
Context (json_Unmarshal_ClaudeResponse : string -> string + ClaudeResponse).
Context (json_Unmarshal_map : string -> string + option (gmap string any)).
Context (fmt_v : any -> string).
Context (agent : GoAgent).
Context (url_Parse : string -> option (string * string)).
Context (stripHostPort : string -> string).

Local Abbreviation executeHandler' :=
  (executeHandler World time_Now http_Do map_range json_Decode_ExecuteRequest
     json_Marshal_ClaudeRequest json_Unmarshal_ClaudeResponse
     json_Unmarshal_map fmt_v agent).
Local Abbreviation Execute' :=
  (Execute World time_Now http_Do map_range json_Marshal_ClaudeRequest
     json_Unmarshal_ClaudeResponse json_Unmarshal_map fmt_v agent).
Local Abbreviation serve' :=
  (serve World time_Now http_Do map_range json_Decode_ExecuteRequest
     json_Marshal_ClaudeRequest json_Unmarshal_ClaudeResponse
     json_Unmarshal_map fmt_v agent url_Parse stripHostPort).
Local Abbreviation handler_of' :=
  (handler_of World time_Now http_Do map_range json_Decode_ExecuteRequest
     json_Marshal_ClaudeRequest json_Unmarshal_ClaudeResponse
     json_Unmarshal_map fmt_v agent url_Parse).

Lemma run_healthHandler_exact (r : Request) (w : World) :
  run (healthHandler time_Now r) w
  = Some (json_response 200
            (marshal_HealthResponse
               {| HealthResponse_Status := "healthy";
                  Timestamp := of_int (unix (time_Now w).1) |}),
          (time_Now w).2).
Proof.
  unfold run, healthHandler, mbind at 2, SM_bind, Header_Set, on_writer.
  unfold mbind at 2, SM_bind, lift, in_world. cbn [st_world st_w].
  destruct (time_Now w) as [now w']. cbn [fst snd].
  by destruct (marshal_HealthResponse _).
Qed.

(** What the execute handler writes. *)
Lemma run_executeHandler_exact (r : Request) (w : World) :
  exists resp w',
    run (executeHandler' r) w = Some (resp, w')
    /\ ((Method r <> MethodPost /\ w' = w
         /\ resp = plain_error "Method not allowed" StatusMethodNotAllowed)
        \/ (exists err,
              Method r = MethodPost
              /\ json_Decode_ExecuteRequest (Body r) = inl err /\ w' = w
              /\ resp = plain_error ("Invalid request body: " +:+ err)
                          StatusBadRequest)
        \/ (exists req msg,
              Method r = MethodPost
              /\ json_Decode_ExecuteRequest (Body r) = inr req
              /\ Execute' (Prompt (Input req)) (Context (Input req)) w
                 = Some (inl msg, w')
              /\ resp = error_response msg)
        \/ (exists req result cost duration model input output,
              Method r = MethodPost
              /\ json_Decode_ExecuteRequest (Body r) = inr req
              /\ Execute' (Prompt (Input req)) (Context (Input req)) w
                 = Some (inr (result_data result cost duration model
                                input output), w')
              /\ resp = json_response 200
                          (marshal_ExecuteResponse
                             (execute_response result cost duration model
                                input output)))).
Proof.
  destruct (decide (Method r = MethodPost)) as [Hm|Hm].
  2:{ rewrite executeHandler_not_post by done. eexists _, _.
      split; [apply run_http_Error | by left]. }
  destruct (json_Decode_ExecuteRequest (Body r)) as [err|req] eqn:Hd.
  { rewrite (executeHandler_bad_body _ _ _ _ _ _ _ _ _ _ err) by done.
    eexists _, _. split; [apply run_http_Error | right; left; by eexists]. }
  destruct (Execute_returns time_Now http_Do map_range
              json_Marshal_ClaudeRequest json_Unmarshal_ClaudeResponse
              json_Unmarshal_map fmt_v agent
              (Prompt (Input req)) (Context (Input req)) w)
    as (res & w' & He & Hres).
  destruct res as [msg|d].
  { eexists _, _. split; [by eapply run_executeHandler_failure|].
    right; right; left; by eexists _, _. }
  destruct Hres as (result & cost & duration & model & input & output & ->).
  exists (json_response 200
            (marshal_ExecuteResponse
               (execute_response result cost duration model input output))), w'.
  split; [|right; right; right; by eexists _, _, _, _, _, _, _].
  unfold executeHandler. rewrite decide_False by (intros H; by apply H).
  rewrite Hd. unfold run, mbind at 2, SM_bind, lift. cbn [st_world st_w].
  rewrite He.
  replace (result_data result cost duration model input output !! "tokensUsed")
    with (Some (AMapInt (list_to_map [ ("input", input); ("output", output) ])))
    by reflexivity.
  replace (result_data result cost duration model input output !! "cost")
    with (Some (AFloat64 cost)) by reflexivity.
  replace (result_data result cost duration model input output !! "duration")
    with (Some (AInt64 duration)) by reflexivity.
  replace (result_data result cost duration model input output !! "model")
    with (Some (AString model)) by reflexivity.
  replace (result_data result cost duration model input output !! "result")
    with (Some result) by reflexivity.
  cbn [as_map_int as_float64 as_int64 as_string assert default].
  unfold mbind, SM_bind, mret, SM_ret. cbn beta iota.
  replace (default 0 ((list_to_map [ ("input", input); ("output", output) ]
                         : gmap string Z) !! "input")) with input by reflexivity.
  replace (default 0 ((list_to_map [ ("input", input); ("output", output) ]
                         : gmap string Z) !! "output")) with output by reflexivity.
  fold (execute_response result cost duration model input output).
  by destruct (marshal_ExecuteResponse _).
Qed.

Lemma run_optionsHandler (r : Request) (w : World) :
  run (globalOptionsHandler r) w
  = Some ({| StatusCode := 200; Header := {[ "Content-Length" := "0" ]};
             ResponseBody := [] |}, w).
Proof. reflexivity. Qed.

Lemma run_badRequestHandler (r : Request) (w : World) :
  run (badRequestHandler r) w
  = Some ({| StatusCode := 400;
             Header := if Proto11 r then {[ "Connection" := "close" ]} else ∅;
             ResponseBody := [] |}, w).
Proof. unfold badRequestHandler. by destruct (Proto11 r). Qed.

Lemma not_rooted_HasPrefix (p : string) :
  ~ rooted p -> strings_HasPrefix p "/" = false.
Proof.
  intros Hp. destruct p as [|c p]; [done|].
  destruct (decide (c = "/"%char)) as [->|Hc]; [destruct Hp; by eexists|].
  unfold strings_HasPrefix. cbn. by rewrite bool_decide_eq_false_2 by done.
Qed.

Lemma path_route_unregistered (p : string) :
  p <> "/health" -> p <> "/info" -> p <> "/execute" ->
  (rooted p -> path_route p = ToRoot)
  /\ (~ rooted p -> path_route p = ToNotFound).
Proof.
  intros H1 H2 H3. unfold path_route. rewrite !decide_False by done. split.
  - intros Hp. by rewrite rooted_HasPrefix.
  - intros Hp. by rewrite not_rooted_HasPrefix.
Qed.

Lemma path_route_not_found (p : string) :
  path_route p = ToNotFound -> ~ rooted p.
Proof.
  unfold path_route. repeat case_decide; try done.
  intros Hh Hp. by rewrite rooted_HasPrefix in Hh.
Qed.

(** The route of an ordinary request. *)
Lemma route_of_ordinary (r : Request) :
  RequestURI r <> "*" -> Method r <> "CONNECT" ->
  (clean (URL_Path r) -> route_of r = path_route (URL_Path r))
  /\ (~ clean (URL_Path r) ->
      route_of r
      = ToRedirect (url_String (cleanPath (URL_Path r)) (URL_RawQuery r))).
Proof.
  intros Hu Hm. unfold route_of. rewrite !decide_False by done. split.
  - intros Hc%cleanPath_fixed. rewrite decide_False; [done|].
    intros H. by apply H.
  - intros Hc. rewrite decide_True; [done|]. by rewrite cleanPath_fixed.
Qed.

Lemma route_of_connect (r : Request) :
  RequestURI r <> "*" -> Method r = "CONNECT" ->
  route_of r = path_route (URL_Path r).
Proof.
  intros Hu Hm. unfold route_of. rewrite decide_False by done.
  by rewrite decide_True.
Qed.

(** C8, amended.  Every request is answered.  Of what the handler writes
    the server sends everything, but to a HEAD request no body.  The
    handler writes: for the root and info handlers status 200 with
    Content-Type application/json and a JSON document; for the health
    handler and for a successful execution the same, the body being left
    out exactly when the encoder refuses the value it is given (the health
    response with the clock's reading; the response built of what
    [Execute] returned); for a failed execution status 500 with the JSON error
    envelope of the message [Execute] returned; for the 405 and 400 answers
    of /execute and the 404 answer plain text with the message; for a
    redirect status 301 and for the request target [*] status 400 (200 for
    OPTIONS), with no JSON body and no JSON Content-Type.  So every answer
    of status 200 or 500, that to [OPTIONS *] apart, has Content-Type
    application/json and a body that is one JSON document or missing; no
    other answer has a JSON body or that Content-Type; and a JSON body of
    the execute handler has an [error] member exactly when the status is
    500. *)
Theorem replies_json_except_rejections (r : Request) (w : World) :
  exists resp w',
    serve' r w = Some (sent r resp, w')
    /\ match route_of r with
       | ToRoot => resp = root_response /\ w' = w
       | ToInfo => StatusCode resp = 200 /\ json_reply resp /\ w' = w
       | ToHealth =>
           resp = json_response 200
                    (marshal_HealthResponse
                       {| HealthResponse_Status := "healthy";
                          Timestamp := of_int (unix (time_Now w).1) |})
           /\ w' = (time_Now w).2
       | ToExecute =>
           (Method r <> MethodPost /\ w' = w
            /\ resp = plain_error "Method not allowed" StatusMethodNotAllowed)
           \/ (exists err,
                 Method r = MethodPost
                 /\ json_Decode_ExecuteRequest (Body r) = inl err /\ w' = w
                 /\ resp = plain_error ("Invalid request body: " +:+ err)
                             StatusBadRequest)
           \/ (exists req msg,
                 Method r = MethodPost
                 /\ json_Decode_ExecuteRequest (Body r) = inr req
                 /\ Execute' (Prompt (Input req)) (Context (Input req)) w
                    = Some (inl msg, w')
                 /\ resp = error_response msg)
           \/ (exists req result cost duration model input output,
                 Method r = MethodPost
                 /\ json_Decode_ExecuteRequest (Body r) = inr req
                 /\ Execute' (Prompt (Input req)) (Context (Input req)) w
                    = Some (inr (result_data result cost duration model
                                   input output), w')
                 /\ resp = json_response 200
                             (marshal_ExecuteResponse
                                (execute_response result cost duration model
                                   input output)))
       | ToNotFound =>
           resp = plain_error "404 page not found" StatusNotFound /\ w' = w
       | ToRedirect url =>
           StatusCode resp = 301
           /\ Header resp !! "Content-Type" <> Some "application/json"
           /\ (forall j, Encoded j ∉ ResponseBody resp) /\ w' = w
       | ToOptions =>
           resp = {| StatusCode := 200;
                     Header := {[ "Content-Length" := "0" ]};
                     ResponseBody := [] |} /\ w' = w
       | ToBadRequest =>
           StatusCode resp = 400
           /\ Header resp !! "Content-Type" <> Some "application/json"
           /\ ResponseBody resp = [] /\ w' = w
       end
    /\ (StatusCode resp = 200 \/ StatusCode resp = 500 ->
        route_of r <> ToOptions -> json_reply_or_empty resp)
    /\ (StatusCode resp <> 200 -> StatusCode resp <> 500 ->
        Header resp !! "Content-Type" <> Some "application/json"
        /\ forall j, Encoded j ∉ ResponseBody resp)
    /\ (route_of r = ToExecute ->
        forall j, ResponseBody resp = [Encoded j] ->
        (is_Some (member "error" j) <-> StatusCode resp = 500)).
Proof.
  rewrite serve_route. destruct (route_of r) as [| |url| | | | |] eqn:Hk;
    cbn [handler_of].
  - rewrite run_optionsHandler. eexists _, _. split; [reflexivity|].
    split; [done|]. split; [done|]. split; [done | done].
  - rewrite run_badRequestHandler. eexists _, _. split; [reflexivity|].
    split; [by destruct (Proto11 r)|]. split; [by intros [[=]|[=]]|].
    split; [|done]. intros _ _. split; [by destruct (Proto11 r)|].
    intros j. apply not_elem_of_nil.
  - destruct (run_RedirectHandler url_Parse url StatusMovedPermanently r w)
      as (resp & -> & Hs & _ & Hct & Hb).
    eexists _, _. split; [reflexivity|]. split; [done|].
    split; [rewrite Hs; by intros [[=]|[=]]|]. split; [done | done].
  - unfold NotFoundHandler. rewrite run_http_Error. eexists _, _.
    split; [reflexivity|]. split; [done|]. split; [by intros [[=]|[=]]|].
    split; [|done]. intros _ _. split; [done|].
    intros j ?%list_elem_of_singleton. done.
  - rewrite run_rootHandler. eexists _, _. split; [reflexivity|].
    split; [done|]. split; [|split; [done | done]].
    intros _ _. split; [done|]. right. by eexists.
  - rewrite run_healthHandler_exact. eexists _, _. split; [reflexivity|].
    split; [done|]. split; [|split; [done | done]].
    intros _ _. split; [done|].
    destruct (marshal_HealthResponse _); [right; by eexists | by left].
  - destruct (run_infoHandler r w) as (resp & -> & Hs & Hj).
    eexists _, _. split; [reflexivity|]. split; [done|].
    split; [|split; [by rewrite Hs | done]].
    intros _ _. destruct Hj as [Hct [j Hj]]. split; [done|].
    right. by eexists.
  - destruct (run_executeHandler_exact r w) as (resp & w' & -> & Hrep).
    eexists _, _. split; [reflexivity|]. split; [done|].
    destruct Hrep
      as [(_ & _ & ->)
         |[(err & _ & _ & _ & ->)
          |[(req & msg & _ & _ & _ & ->)
           |(req & result & cost & duration & model & input & output
             & _ & _ & _ & ->)]]].
    + split; [by intros [[=]|[=]]|]. split; [|by intros _ j [=]].
      intros _ _. split; [done|]. intros j ?%list_elem_of_singleton. done.
    + split; [by intros [[=]|[=]]|]. split; [|by intros _ j [=]].
      intros _ _. split; [done|]. intros j ?%list_elem_of_singleton. done.
    + split; [intros _ _; split; [done|]; right; by eexists|].
      split; [done|]. intros _ j [= <-]. split; [done | by eexists].
    + split.
      { intros _ _. split; [done|].
        destruct (marshal_ExecuteResponse _); [right; by eexists | by left]. }
      split; [done|]. intros _ j Hj.
      unfold json_response in Hj. cbn [ResponseBody] in Hj.
      destruct (marshal_ExecuteResponse _) as [j'|] eqn:Hm; [|done].
      injection Hj as ->.
      rewrite (marshal_no_error
                 (execute_response result cost duration model input output)
                 j eq_refl Hm).
      split; [by intros [? [=]] | done].
Qed.

(** C10, amended.  Among the requests whose target is not [*]: a request
    whose path is not exactly /health, /info or /execute is served by the
    root handler, with status 200 and the static body (which the server
    does not send to a HEAD request), in two cases: its method is CONNECT
    and its path begins with a slash; or its method is not CONNECT and its
    path is in the form the multiplexer leaves as it is, that is a slash
    before each element, no element empty, [.] or [..], and possibly one
    more slash at the end.  A request with another method than CONNECT
    whose path is not in that form is answered with status 301 and the
    Location the cleaned path, percent-escaped, followed by a question mark
    and the query when there is one (bytes of the query that are not ASCII
    in hexadecimal); that answer has no JSON body.  A CONNECT request whose
    path does not begin with a slash gets 404.  No other request, whatever
    its target, gets a 404. *)
Theorem unregistered_paths_reach_root (r : Request) (w : World) :
  (cleanPath (URL_Path r) = URL_Path r <-> clean (URL_Path r))
  /\ (RequestURI r <> "*" ->
      URL_Path r <> "/health" -> URL_Path r <> "/info" ->
      URL_Path r <> "/execute" ->
      (Method r <> "CONNECT" -> clean (URL_Path r) ->
       serve' r w = Some (sent r root_response, w))
      /\ (Method r = "CONNECT" -> rooted (URL_Path r) ->
          serve' r w = Some (root_response, w)))
  /\ (RequestURI r <> "*" -> Method r <> "CONNECT" -> ~ clean (URL_Path r) ->
      exists resp,
        serve' r w = Some (sent r resp, w)
        /\ StatusCode resp = 301
        /\ Header resp !! "Location"
           = Some (hexEscapeNonASCII
                     (url_String (cleanPath (URL_Path r)) (URL_RawQuery r)))
        /\ forall j, Encoded j ∉ ResponseBody resp)
  /\ (RequestURI r <> "*" -> Method r = "CONNECT" -> ~ rooted (URL_Path r) ->
      serve' r w = Some (plain_error "404 page not found" StatusNotFound, w))
  /\ (forall resp w',
        serve' r w = Some (resp, w') -> StatusCode resp = 404 ->
        RequestURI r <> "*" /\ Method r = "CONNECT" /\ ~ rooted (URL_Path r)).
Proof.
  split; [apply cleanPath_fixed|]. split; [|split; [|split]].
  - intros Hu H1 H2 H3.
    destruct (path_route_unregistered _ H1 H2 H3) as [Hroot _]. split.
    + intros Hm Hc. rewrite serve_route.
      rewrite (proj1 (route_of_ordinary r Hu Hm)) by done.
      rewrite Hroot by (by apply clean_rooted). cbn [handler_of].
      by rewrite run_rootHandler.
    + intros Hm Hr. rewrite serve_route, route_of_connect, Hroot by done.
      cbn [handler_of]. rewrite run_rootHandler.
      rewrite deliver_not_head; [done|]. by rewrite Hm.
  - intros Hu Hm Hc. rewrite serve_route.
    rewrite (proj2 (route_of_ordinary r Hu Hm)) by done.
    cbn [handler_of].
    destruct (run_RedirectHandler url_Parse
                (url_String (cleanPath (URL_Path r)) (URL_RawQuery r))
                StatusMovedPermanently r w)
      as (resp & -> & Hs & Hl & _ & Hb).
    exists resp. split; [reflexivity|]. split; [done|]. split; [|done].
    by rewrite Hl, redirect_url_clean.
  - intros Hu Hm Hr. rewrite serve_route, route_of_connect by done.
    assert (path_route (URL_Path r) = ToNotFound) as ->.
    { unfold path_route. rewrite not_rooted_HasPrefix by done.
      repeat case_decide; try done; subst; destruct Hr; by eexists. }
    cbn [handler_of]. unfold NotFoundHandler. rewrite run_http_Error.
    rewrite deliver_not_head; [done|]. by rewrite Hm.
  - intros resp w'. rewrite serve_route.
    intros (resp0 & Hrun & ->)%deliver_Some. rewrite sent_status.
    revert Hrun. destruct (route_of r) as [| |url| | | | |] eqn:Hk;
      cbn [handler_of].
    + rewrite run_optionsHandler. by intros [= <- _].
    + rewrite run_badRequestHandler. by intros [= <- _].
    + destruct (run_RedirectHandler url_Parse url StatusMovedPermanently r w)
        as (resp & -> & Hs & _). intros [= <- _]. by rewrite Hs.
    + intros _ _. revert Hk. unfold route_of.
      case_decide as Hu; [by case_decide|]. split; [done|].
      destruct (decide (Method r = "CONNECT")) as [Hm|Hm].
      * split; [done|]. by apply path_route_not_found.
      * exfalso. revert Hk. case_decide as Hc; [done|].
        intros Hn%path_route_not_found. apply Hn. rewrite <- Hc.
        apply cleanPath_rooted.
    + rewrite run_rootHandler. by intros [= <- _].
    + rewrite run_healthHandler_exact. by intros [= <- _].
    + destruct (run_infoHandler r w) as (resp & -> & Hs & _).
      intros [= <- _]. by rewrite Hs.
    + destruct (run_executeHandler time_Now http_Do map_range
                  json_Decode_ExecuteRequest json_Marshal_ClaudeRequest
                  json_Unmarshal_ClaudeResponse json_Unmarshal_map fmt_v agent
                  r w) as (resp & w'' & -> & Hrep).
      intros [= <- _].
      by destruct (execute_reply_status _ Hrep) as [ -> | [ -> | [ -> | -> ] ] ].
Qed.

End Answers.

Lemma unregistered_paths_reach_root_witness :
  mock_serve upstream_ok (request "DELETE" "/no/such/route/" "") mock_world
  = Some (root_response, mock_world)
  /\ mock_serve upstream_ok (request "HEAD" "/favicon.ico" "") mock_world
     = Some ({| StatusCode := 200; Header := json_header; ResponseBody := [] |},
             mock_world)
  /\ mock_serve upstream_ok (request "CONNECT" "//health" "") mock_world
     = Some (root_response, mock_world)
  /\ (exists resp,
        mock_serve upstream_ok
          (with_query (request "GET" "//docs/../a b" "") "q=1") mock_world
        = Some (resp, mock_world)
        /\ StatusCode resp = 301
        /\ Header resp !! "Location" = Some "/a%20b?q=1")
  /\ mock_serve upstream_ok (request "CONNECT" "" "") mock_world
     = Some (plain_error "404 page not found" 404, mock_world).
Proof.
  pose (answers := unregistered_paths_reach_root mock_Now (mock_Do upstream_ok)
                     mock_range mock_Decode mock_Marshal
                     mock_Unmarshal_ClaudeResponse mock_Unmarshal_map mock_fmt_v
                     mock_agent mock_Parse id).
  split; [|split; [|split; [|split]]].
  - destruct (answers (request "DELETE" "/no/such/route/" "") mock_world)
      as (Hclean & Hroot & _).
    destruct Hroot as [Hroot _]; [discriminate..|].
    apply Hroot; [discriminate|]. apply Hclean. vm_compute. reflexivity.
  - destruct (answers (request "HEAD" "/favicon.ico" "") mock_world)
      as (Hclean & Hroot & _).
    destruct Hroot as [Hroot _]; [discriminate..|].
    apply Hroot; [discriminate|]. apply Hclean. vm_compute. reflexivity.
  - destruct (answers (request "CONNECT" "//health" "") mock_world)
      as (_ & Hroot & _).
    destruct Hroot as [_ Hroot]; [discriminate..|].
    apply Hroot; [reflexivity | by eexists].
  - destruct (answers (with_query (request "GET" "//docs/../a b" "") "q=1")
                mock_world) as (Hclean & _ & Hredirect & _).
    destruct Hredirect as (resp & Hs & Hst & Hl & _); [discriminate.. | |].
    { intros Hc. apply Hclean in Hc. vm_compute in Hc. discriminate Hc. }
    exists resp. split; [exact Hs|]. split; [exact Hst|].
    rewrite Hl. vm_compute. reflexivity.
  - destruct (answers (request "CONNECT" "" "") mock_world)
      as (_ & _ & _ & Hnotfound & _).
    apply Hnotfound; [discriminate | reflexivity |]. by intros [t Ht].
Defined.
